(** * School-bus route optimisation engine: a shallow embedding

    This development embeds the route-optimisation core of the backend
    ([services/genetic_algorithm.py], [services/reinforcement_learning.py],
    [services/route_optimizer.py]) and proves properties of it.

    Modelling conventions.
    - Python [int] is [Z]; lengths, list positions and loop counts are [nat].
    - Python [float] is idealised as an exact rational [Q]; [float('inf')]
      and [float('-inf')] are explicit constructors where the code uses them.
      Rounding and overflow of floats are not modelled; the
      [OverflowError] of an [int / int] beyond the range of a float has
      no counterpart.
    - A raised exception is the [Raise] outcome of an error monad; code that
      also draws from the global [random] module runs in a state-and-error
      monad over an explicit generator state.
    - The Mersenne Twister is abstracted to an arbitrary stream of raw draws:
      a statement quantified over every generator state covers every
      sequence of values the real generator can produce.
    - The [numpy] primitives used by the distance formulas are an interface
      ([numpy]); a rational approximation instance is supplied for running
      the model on concrete inputs.  [numpy.random] is a second generator
      state beside the [random] module's.
    - The [while] loop of the learning optimizer, whose end depends on
      the request, runs under a bound on its passes: the model returns
      [None] when the loop condition still holds after them. *)

From Stdlib Require Import String ZArith QArith Qround Qabs Qminmax Qpower Lia Lqa
  Bool Arith List Permutation.
Import ListNotations.

Set Implicit Arguments.
Close Scope Q_scope.

(** ** Python runtime *)

Module Py.

(** Exceptions the modelled code can raise.  [ConfigurationError] is the
    error class named by the design document; no code path raises it. *)
Inductive exn : Type :=
| IndexError
| ValueError
| StopIteration
| ZeroDivisionError
| AttributeError
| KeyError
| TypeError
| ConfigurationError.

Inductive result (A : Type) : Type :=
| Ok (a : A)
| Raise (e : exn).
Arguments Ok {A} a.
Arguments Raise {A} e.

Definition rbind {A B} (r : result A) (k : A -> result B) : result B :=
  match r with
  | Ok a => k a
  | Raise e => Raise e
  end.

(** State of the global [random] module: a stream of raw draws and a
    cursor into it. *)
Record random_state : Type := mkRandom {
  stream : nat -> N;
  cursor : nat
}.

(** Computations over a state [S] that may raise. *)
Definition ST (S A : Type) : Type := S -> result (A * S).

Definition ret {S A} (a : A) : ST S A := fun g => Ok (a, g).

Definition bind {S A B} (m : ST S A) (k : A -> ST S B) : ST S B :=
  fun g =>
    match m g with
    | Ok (a, g') => k a g'
    | Raise e => Raise e
    end.

Definition raise {S A} (e : exn) : ST S A := fun _ => Raise e.

Definition lift {S A} (r : result A) : ST S A :=
  fun g =>
    match r with
    | Ok a => Ok (a, g)
    | Raise e => Raise e
    end.

(** Computations that may raise and may draw random numbers. *)
Definition M (A : Type) : Type := ST random_state A.

(** One raw draw. *)
Definition draw : M N :=
  fun g => Ok (stream g (cursor g), mkRandom (stream g) (S (cursor g))).

(** [random._randbelow(n)] for [n > 0]. *)
Definition randbelow (n : nat) : M nat :=
  bind draw (fun r => ret (N.to_nat (N.modulo r (N.of_nat n)))).

(** [random.random()]: a float in [[0, 1)] with 53 bits. *)
Definition two53 : positive := Pos.pow 2 53.

Definition random : M Q :=
  bind draw (fun r => ret (Z.of_N (N.modulo r (Npos two53)) # two53)%Q).

(** [random.randint(a, b)] is [randrange(a, b + 1)]: a [ValueError] on an
    empty range. *)
Definition randint (a b : nat) : M nat :=
  if b <? a then raise ValueError
  else bind (randbelow (b - a + 1)) (fun r => ret (a + r)).

(** [l[i]] for a position [i >= 0]. *)
Definition getitem {A} (l : list A) (i : nat) : result A :=
  match nth_error l i with
  | Some x => Ok x
  | None => Raise IndexError
  end.

Fixpoint set_nth {A} (l : list A) (i : nat) (v : A) : list A :=
  match l, i with
  | [], _ => []
  | _ :: t, O => v :: t
  | h :: t, S i' => h :: set_nth t i' v
  end.

(** [l[i] = v] for a position [i >= 0]. *)
Definition setitem {A} (l : list A) (i : nat) (v : A) : result (list A) :=
  if i <? length l then Ok (set_nth l i v) else Raise IndexError.

(** [l[a:b]] for [a, b >= 0]. *)
Definition slice {A} (l : list A) (a b : nat) : list A :=
  skipn a (firstn b l).

(** The selection loop of [random.sample]: [k] rounds over a pool whose
    active part shrinks by one each round, the last active element moving
    into the vacancy.  (For large populations CPython uses a rejection
    loop instead; over arbitrary draw streams both produce the same
    family of outcomes.) *)
Fixpoint sample_pool {A} (k : nat) (pool : list A) : M (list A) :=
  match k with
  | O => ret []
  | S k' =>
      let n := length pool in
      bind (randbelow n) (fun j =>
      match nth_error pool j, nth_error pool (n - 1) with
      | Some x, Some y =>
          bind (sample_pool k' (firstn (n - 1) (set_nth pool j y)))
               (fun rest => ret (x :: rest))
      | _, _ => raise IndexError
      end)
  end.

(** [random.sample(population, k)] for [k >= 0]. *)
Definition sample {A} (population : list A) (k : nat) : M (list A) :=
  if length population <? k then raise ValueError
  else sample_pool k population.

(** [next(x for x in l if p x)]. *)
Definition next_match {A} (p : A -> bool) (l : list A) : result A :=
  match find p l with
  | Some x => Ok x
  | None => Raise StopIteration
  end.

(** Float comparison [x < y]. *)
Definition Qltb (x y : Q) : bool := negb (Qle_bool y x).

(** Float division: [ZeroDivisionError] on a zero divisor.  The quotient
    is exact; the [OverflowError] of an [int / int] whose quotient is
    beyond the range of a float is not modelled. *)
Definition div (x y : Q) : result Q :=
  if Qeq_bool y 0%Q then Raise ZeroDivisionError else Ok (x / y)%Q.

(** [min(x, y)] on floats: the first argument unless the second is
    strictly smaller. *)
Definition min (x y : Q) : Q := if Qltb y x then y else x.

(** [max(x, y)] on floats: the first argument unless the second is
    strictly greater. *)
Definition max (x y : Q) : Q := if Qltb x y then y else x.

Fixpoint pow10 (n : nat) : positive :=
  match n with
  | O => 1%positive
  | S n' => (10 * pow10 n')%positive
  end.

(** Rounding to the nearest integer, ties to even. *)
Definition round_half_even (x : Q) : Z :=
  let f := Qfloor x in
  match Qcompare (x - inject_Z f)%Q (1 # 2)%Q with
  | Lt => f
  | Gt => (f + 1)%Z
  | Eq => if Z.even f then f else (f + 1)%Z
  end.

(** [round(x, ndigits)] on a float. *)
Definition round (x : Q) (ndigits : nat) : Q :=
  (round_half_even (x * inject_Z (Zpos (pow10 ndigits)))%Q # pow10 ndigits)%Q.

(** Floats extended with the two infinities. *)
Inductive xfloat : Type :=
| NegInf
| Fin (q : Q)
| PosInf.

(** [x < y] on extended floats. *)
Definition xltb (x y : xfloat) : bool :=
  match x, y with
  | NegInf, NegInf => false
  | NegInf, _ => true
  | Fin _, NegInf => false
  | Fin a, Fin b => Qltb a b
  | Fin _, PosInf => true
  | PosInf, _ => false
  end.

(** The order [x <= y] on extended floats. *)
Definition xle (x y : xfloat) : Prop :=
  match x, y with
  | NegInf, _ => True
  | _, PosInf => True
  | Fin a, Fin b => (a <= b)%Q
  | _, _ => False
  end.

Definition xround (x : xfloat) (ndigits : nat) : xfloat :=
  match x with
  | Fin q => Fin (round q ndigits)
  | _ => x
  end.

(** Python values that cross the API boundary; a [dict] keeps its
    insertion order. *)
#[local] Unset Elimination Schemes.
Inductive value : Type :=
| VNone
| VInt (z : Z)
| VFloat (x : xfloat)
| VStr (s : string)
| VTuple (l : list value)
| VList (l : list value)
| VDict (d : list (string * value)).
#[local] Set Elimination Schemes.

Definition dict : Type := list (string * value).

(** [d.get(k)]: the value, or [None] of the option for an absent key. *)
Fixpoint dict_get (d : dict) (k : string) : option value :=
  match d with
  | [] => None
  | (k', v) :: d' => if String.eqb k k' then Some v else dict_get d' k
  end.

(** [d[k] = v]: overwrite in place, or append a new key. *)
Fixpoint dict_set (d : dict) (k : string) (v : value) : dict :=
  match d with
  | [] => [(k, v)]
  | (k', v') :: d' =>
      if String.eqb k k' then (k', v) :: d' else (k', v') :: dict_set d' k v
  end.

(** [d[k]]: [KeyError] on an absent key. *)
Definition dict_item (d : dict) (k : string) : result value :=
  match dict_get d k with
  | Some v => Ok v
  | None => Raise KeyError
  end.

(** The number a value stands for in an order comparison. *)
Definition as_number (v : value) : result xfloat :=
  match v with
  | VInt z => Ok (Fin (inject_Z z))
  | VFloat x => Ok x
  | _ => Raise TypeError
  end.

(** [random.uniform(a, b)].  The value is exact, so short of [b] when
    [a < b]; in floats the rounding of [a + (b - a) * r] can reach
    [b]. *)
Definition uniform (a b : Q) : M Q :=
  bind random (fun r => ret (a + (b - a) * r)%Q).

(** [random.randrange(n)]: a [ValueError] on an empty range. *)
Definition randrange (n : nat) : M nat :=
  if n =? 0 then raise ValueError else randbelow n.

(** [random.choice(seq)]: an [IndexError] on an empty sequence. *)
Definition choice {A} (l : list A) : M A :=
  match l with
  | [] => raise IndexError
  | _ :: _ => bind (randbelow (length l)) (fun i => lift (getitem l i))
  end.

(** The two generators of the process: the [random] module's and
    [numpy.random]'s. *)
Definition generators : Type := (random_state * random_state)%type.

(** A computation that draws from the [random] module. *)
Definition py_random {A} (m : M A) : ST generators A :=
  fun w =>
    match m (fst w) with
    | Ok (a, g') => Ok (a, (g', snd w))
    | Raise e => Raise e
    end.

(** A computation that draws from [numpy.random]. *)
Definition np_random {A} (m : M A) : ST generators A :=
  fun w =>
    match m (snd w) with
    | Ok (a, g') => Ok (a, (fst w, g'))
    | Raise e => Raise e
    end.

End Py.

Declare Scope py_scope.
Delimit Scope py_scope with py.
Notation "x <- m ;; k" := (Py.bind m (fun x => k))
  (at level 61, m at next level, right associativity) : py_scope.
Notation "' pat <- m ;; k" := (Py.bind m (fun x => match x with pat => k end))
  (at level 61, pat pattern, m at next level, right associativity) : py_scope.
Notation "x <-! r ;; k" := (Py.rbind r (fun x => k))
  (at level 61, r at next level, right associativity) : py_scope.
Open Scope py_scope.

Module Loops.
Import Py.

(** [for x in l: acc = f acc x] where the body may raise. *)
Fixpoint rfold {A B} (f : A -> B -> result A) (l : list B) (a : A) : result A :=
  match l with
  | [] => Ok a
  | x :: l' => a' <-! f a x ;; rfold f l' a'
  end.

(** [[f x for x in l]] where [f] may raise. *)
Fixpoint rmap {A B} (f : A -> result B) (l : list A) : result (list B) :=
  match l with
  | [] => Ok []
  | x :: l' => y <-! f x ;; ys <-! rmap f l' ;; Ok (y :: ys)
  end.

(** [for x in l: acc = f acc x] where the body may raise or draw. *)
Fixpoint mfold {A B} (f : A -> B -> M A) (l : list B) (a : A) : M A :=
  match l with
  | [] => ret a
  | x :: l' => a' <- f a x ;; mfold f l' a'
  end.

(** [for x in l: acc = f acc x] over any state. *)
Fixpoint sfold {S A B} (f : A -> B -> ST S A) (l : list B) (a : A) : ST S A :=
  match l with
  | [] => ret a
  | x :: l' => a' <- f a x ;; sfold f l' a'
  end.

(** [enumerate(l)]. *)
Definition enumerate {A} (l : list A) : list (nat * A) :=
  combine (seq 0 (length l)) l.

(** Stable insertion into a list kept in ascending key order. *)
Fixpoint insert_asc (x : nat) (l : list nat) : list nat :=
  match l with
  | [] => [x]
  | y :: l' => if y <? x then y :: insert_asc x l' else x :: l
  end.

(** [sorted(l)] on a list of positions. *)
Definition sorted (l : list nat) : list nat := fold_right insert_asc [] l.

End Loops.

(** ** The numpy primitives *)

(** The elementary functions the distance formulas call. *)
Record numpy : Type := mkNumpy {
  np_radians : Q -> Q;
  np_sin : Q -> Q;
  np_cos : Q -> Q;
  np_arcsin : Q -> Q;
  np_sqrt : Q -> Q
}.

(** The two facts about them that the bounds on distances rest on. *)
Record numpy_ok (np : numpy) : Prop := mkNumpyOk {
  np_sqrt_nonneg : forall x, (0 <= np_sqrt np x)%Q;
  np_arcsin_nonneg : forall x, (0 <= x)%Q -> (0 <= np_arcsin np x)%Q
}.

(** A rational approximation of the primitives, used to run the model. *)
Module NumpyApprox.

Definition pi : Q := (355 # 113)%Q.

(** Truncation to twelve decimals. *)
Definition scale : positive := Pos.pow 10 12.

Definition trim (x : Q) : Q := (Qfloor (x * inject_Z (Zpos scale)) # scale)%Q.

Definition radians (x : Q) : Q := trim (x * pi / 180)%Q.

Definition sin (x : Q) : Q := trim (x - x * x * x / 6)%Q.

Definition cos (x : Q) : Q := trim (1 - x * x / 2)%Q.

Definition arcsin (x : Q) : Q := trim (x + x * x * x / 6)%Q.

(** The integer square root of the argument scaled by [scale * scale]. *)
Definition sqrt (x : Q) : Q :=
  (Z.sqrt (Qfloor (x * inject_Z (Zpos (scale * scale)))) # scale)%Q.

Definition np : numpy := mkNumpy radians sin cos arcsin sqrt.

End NumpyApprox.

(** ** Request payload *)

(** A stop of the request: [{'id', 'location': {'lat', 'lng'}, 'students'?}]. *)
Record stop_dict : Type := mkStopDict {
  sd_id : Z;
  sd_lat : Q;
  sd_lng : Q;
  sd_students : option Z
}.

(** A vehicle of the request: [{'id', 'capacity'}]. *)
Record bus_dict : Type := mkBusDict {
  bd_id : Z;
  bd_capacity : Z
}.

(** ** services/genetic_algorithm.py *)

Module Stop.
Record t : Type := mk {
  id : Z;
  location : Q * Q;
  students : Z;
  time_window : Z * Z
}.
(** [Stop(id, location, students)] with the default time window. *)
Definition new (i : Z) (loc : Q * Q) (n : Z) : t := mk i loc n (0, 1440)%Z.
End Stop.

Module Bus.
Record t : Type := mk {
  id : Z;
  capacity : Z;
  fuel_efficiency : Q
}.
(** [Bus(id, capacity)] with the default fuel efficiency. *)
Definition new (i : Z) (c : Z) : t := mk i c 8%Q.
End Bus.

Module Route.
Record t : Type := mk {
  bus_id : Z;
  stops : list Z;
  total_distance : Q;
  total_time : Z;
  fitness : Q
}.
(** [Route(bus_id=..., stops=...)] with the default scores. *)
Definition new (b : Z) (s : list Z) : t := mk b s 0%Q 0%Z 0%Q.
(** [route.fitness = f]. *)
Definition set_fitness (r : t) (f : Q) : t :=
  mk (bus_id r) (stops r) (total_distance r) (total_time r) f.
End Route.

Module GeneticAlgorithmOptimizer.
Import Py Loops.

(** The optimizer object. *)
Record t : Type := mk {
  population_size : nat;
  generations : nat;
  mutation_rate : Q;
  crossover_rate : Q;
  distance_weight : Q;
  time_weight : Q;
  capacity_weight : Q
}.

(** [GeneticAlgorithmOptimizer(population_size, generations,
    mutation_rate, crossover_rate)]. *)
Definition __init__ (population_size generations : nat)
    (mutation_rate crossover_rate : Q) : t :=
  mk population_size generations mutation_rate crossover_rate
     (4 # 10)%Q (3 # 10)%Q (3 # 10)%Q.

(** [GeneticAlgorithmOptimizer()]. *)
Definition default : t := __init__ 50 100 (1 # 10)%Q (8 # 10)%Q.

Section WithNumpy.
Variable np : numpy.

Definition _haversine_distance (loc1 loc2 : Q * Q) : Q :=
  let '(lat1, lon1) := (np_radians np (fst loc1), np_radians np (snd loc1)) in
  let '(lat2, lon2) := (np_radians np (fst loc2), np_radians np (snd loc2)) in
  let dlat := (lat2 - lat1)%Q in
  let dlon := (lon2 - lon1)%Q in
  let a := (np_sin np (dlat / 2) ^ 2
            + np_cos np lat1 * np_cos np lat2 * np_sin np (dlon / 2) ^ 2)%Q in
  let c := (2 * np_arcsin np (np_sqrt np a))%Q in
  (6371 * c)%Q.

(** [next(s for s in stops if s.id == stop_id)]. *)
Definition stop_by_id (stops : list Stop.t) (stop_id : Z) : result Stop.t :=
  next_match (fun s => Z.eqb (Stop.id s) stop_id) stops.

(** [next(b for b in buses if b.id == bus_id)]. *)
Definition bus_by_id (buses : list Bus.t) (bus_id : Z) : result Bus.t :=
  next_match (fun b => Z.eqb (Bus.id b) bus_id) buses.

(** The body of [for i in range(len(route.stops) - 1)]. *)
Definition leg (route_stops : list Z) (stops : list Stop.t)
    (total_distance : Q) (i : nat) : result Q :=
  id1 <-! getitem route_stops i ;;
  stop1 <-! stop_by_id stops id1 ;;
  id2 <-! getitem route_stops (i + 1) ;;
  stop2 <-! stop_by_id stops id2 ;;
  Ok (total_distance
      + _haversine_distance (Stop.location stop1) (Stop.location stop2))%Q.

Definition _calculate_total_distance (route : Route.t) (stops : list Stop.t)
    : result Q :=
  if length (Route.stops route) <? 2 then Ok 0%Q
  else
    rfold (leg (Route.stops route) stops)
          (seq 0 (length (Route.stops route) - 1)) 0%Q.

(** [sum(s.students for s in stops if s.id in route.stops)]. *)
Definition students_on (route : Route.t) (stops : list Stop.t) : Z :=
  fold_left Z.add
    (map Stop.students
       (filter (fun s => existsb (Z.eqb (Stop.id s)) (Route.stops route)) stops))
    0%Z.

(** The two scores divide by [1 + distance / 100] and [1 + time / 60],
    which are at least 1 for a distance that is not negative; the vehicle's
    capacity divides an [int] by an [int]. *)
Definition _calculate_fitness (self : t) (route : Route.t)
    (stops : list Stop.t) (buses : list Bus.t) : result Q :=
  distance <-! _calculate_total_distance route stops ;;
  let time := (distance / 30 * 60)%Q in
  bus <-! bus_by_id buses (Route.bus_id route) ;;
  let total_students := students_on route stops in
  ratio <-! div (inject_Z total_students) (inject_Z (Bus.capacity bus)) ;;
  let capacity_util := min ratio 1%Q in
  distance_score <-! div 1%Q (1 + distance / 100)%Q ;;
  time_score <-! div 1%Q (1 + time / 60)%Q ;;
  let capacity_score := capacity_util in
  let fitness := (distance_weight self * distance_score
                  + time_weight self * time_score
                  + capacity_weight self * capacity_score)%Q in
  Ok fitness.

Definition _initialize_population (self : t) (stops : list Stop.t)
    (buses : list Bus.t) : M (list Route.t) :=
  let stop_ids := map Stop.id stops in
  population <-
    mfold (fun population _ =>
             mfold (fun population bus =>
                      n <- randint 3 (length stop_ids) ;;
                      route_stops <-
                        sample stop_ids (Nat.min (length stop_ids) n) ;;
                      let route := Route.new (Bus.id bus) route_stops in
                      ret (population ++ [route]))
                   buses population)
          (seq 0 (population_size self)) [] ;;
  ret (firstn (population_size self) population).

(** [max(l, key=lambda x: x.fitness)]: the first route of greatest
    fitness; [ValueError] on an empty list. *)
Definition max_by_fitness (l : list Route.t) : result Route.t :=
  match l with
  | [] => Raise ValueError
  | x :: l' =>
      Ok (fold_left
            (fun best y =>
               if Qltb (Route.fitness best) (Route.fitness y) then y else best)
            l' x)
  end.

Definition _tournament_selection (population : list Route.t)
    (tournament_size : nat) : M Route.t :=
  tournament <- sample population tournament_size ;;
  lift (max_by_fitness tournament).

(** The fill loop of the crossover:
    [for stop in donor: if stop not in child and len(child) < limit:
    child.append(stop)]. *)
Definition fill (child donor : list Z) (limit : nat) : list Z :=
  fold_left
    (fun child stop =>
       if negb (existsb (Z.eqb stop) child) && (length child <? limit)
       then child ++ [stop] else child)
    donor child.

Definition _crossover (parent1 parent2 : Route.t) : M (Route.t * Route.t) :=
  if (length (Route.stops parent1) <? 2) || (length (Route.stops parent2) <? 2)
  then ret (parent1, parent2)
  else
    let size := Nat.min (length (Route.stops parent1))
                        (length (Route.stops parent2)) in
    cuts <- sample (seq 0 size) 2 ;;
    match sorted cuts with
    | [start; end_] =>
        let child1_stops := slice (Route.stops parent1) start end_ in
        let child2_stops := slice (Route.stops parent2) start end_ in
        let child1_stops :=
          fill child1_stops (Route.stops parent2)
               (length (Route.stops parent1)) in
        let child2_stops :=
          fill child2_stops (Route.stops parent1)
               (length (Route.stops parent2)) in
        let child1 := Route.new (Route.bus_id parent1) child1_stops in
        let child2 := Route.new (Route.bus_id parent2) child2_stops in
        ret (child1, child2)
    | _ => raise ValueError
    end.

Definition _mutate (route : Route.t) : M Route.t :=
  if length (Route.stops route) <? 2 then ret route
  else
    let mutated_stops := Route.stops route in
    picks <- sample (seq 0 (length mutated_stops)) 2 ;;
    match picks with
    | [i; j] =>
        at_j <- lift (getitem mutated_stops j) ;;
        at_i <- lift (getitem mutated_stops i) ;;
        mutated_stops <- lift (setitem mutated_stops i at_j) ;;
        mutated_stops <- lift (setitem mutated_stops j at_i) ;;
        ret (Route.new (Route.bus_id route) mutated_stops)
    | _ => raise ValueError
    end.

(** [route] is [None] when no generation ran. *)
Definition _calculate_route_metrics (route : option Route.t)
    (stops : list Stop.t) (buses : list Bus.t) : result dict :=
  match route with
  | None => Raise AttributeError
  | Some route =>
      distance <-! _calculate_total_distance route stops ;;
      let time := (distance / 30 * 60)%Q in
      bus <-! bus_by_id buses (Route.bus_id route) ;;
      fuel <-! div distance (Bus.fuel_efficiency bus) ;;
      let total_students := students_on route stops in
      ratio <-! div (inject_Z total_students) (inject_Z (Bus.capacity bus)) ;;
      Ok [ ("total_distance_km"%string, VFloat (Fin (round distance 2)));
           ("estimated_time_minutes"%string, VFloat (Fin (round time 2)));
           ("fuel_consumption_liters"%string, VFloat (Fin (round fuel 2)));
           ("students_served"%string, VInt total_students);
           ("capacity_utilization"%string,
             VFloat (Fin (round (ratio * 100)%Q 2)));
           ("stops_count"%string,
             VInt (Z.of_nat (length (Route.stops route)))) ]
  end.

Definition _format_routes (routes : list Route.t) (stops : list Stop.t)
    : result (list value) :=
  rmap (fun route =>
          formatted_stops <-!
            rmap (fun '(idx, stop_id) =>
                    stop <-! stop_by_id stops stop_id ;;
                    Ok (VDict [ ("id"%string, VInt stop_id);
                                ("location"%string,
                                  VTuple [ VFloat (Fin (fst (Stop.location stop)));
                                           VFloat (Fin (snd (Stop.location stop))) ]);
                                ("sequence"%string, VInt (Z.of_nat idx)) ]))
                 (enumerate (Route.stops route)) ;;
          Ok (VDict [ ("bus_id"%string, VInt (Route.bus_id route));
                      ("stops"%string, VList formatted_stops);
                      ("fitness_score"%string,
                        VFloat (Fin (round (Route.fitness route) 4))) ]))
       routes.

(** *** The generational loop *)

(** Stable sort by descending fitness, as
    [population.sort(key=lambda x: x.fitness, reverse=True)]. *)
Fixpoint insert_desc (x : Route.t) (l : list Route.t) : list Route.t :=
  match l with
  | [] => [x]
  | y :: l' =>
      if Qltb (Route.fitness x) (Route.fitness y) then y :: insert_desc x l'
      else x :: l
  end.

Definition sort_desc (l : list Route.t) : list Route.t :=
  fold_right insert_desc [] l.

(** One pass of the body of [while len(new_population) < population_size]. *)
Definition offspring (self : t) (population : list Route.t)
    : M (Route.t * Route.t) :=
  parent1 <- _tournament_selection population 3 ;;
  parent2 <- _tournament_selection population 3 ;;
  r <- random ;;
  '(child1, child2) <-
    (if Qltb r (crossover_rate self) then _crossover parent1 parent2
     else ret (parent1, parent2)) ;;
  r1 <- random ;;
  child1 <- (if Qltb r1 (mutation_rate self) then _mutate child1 else ret child1) ;;
  r2 <- random ;;
  child2 <- (if Qltb r2 (mutation_rate self) then _mutate child2 else ret child2) ;;
  ret (child1, child2).

(** The [while] loop, by recursion on the number of routes still
    missing: [deficit = population_size - len(new_population)], which
    is positive exactly when the loop condition holds and falls by two
    on every pass. *)
Fixpoint reproduce (self : t) (deficit : nat) (population : list Route.t)
    (new_population : list Route.t) : M (list Route.t) :=
  match deficit with
  | O => ret new_population
  | S d =>
      '(child1, child2) <- offspring self population ;;
      let new_population := new_population ++ [child1; child2] in
      match d with
      | O => ret new_population
      | S d' => reproduce self d' population new_population
      end
  end.

(** The variables the loop over generations carries. *)
Record search : Type := mkSearch {
  population : list Route.t;
  best_solution : option Route.t;
  best_fitness : xfloat
}.

(** The body of [for generation in range(self.generations)]. *)
Definition generation (self : t) (stops : list Stop.t) (buses : list Bus.t)
    (st : search) : M search :=
  evaluated <-
    lift (rmap (fun route =>
                  f <-! _calculate_fitness self route stops buses ;;
                  Ok (Route.set_fitness route f))
               (population st)) ;;
  let population := sort_desc evaluated in
  first <- lift (getitem population 0) ;;
  let '(best_fitness, best_solution) :=
    if xltb (best_fitness st) (Fin (Route.fitness first))
    then (Fin (Route.fitness first), Some first)
    else (best_fitness st, best_solution st) in
  let new_population := slice population 0 2 in
  new_population <-
    reproduce self (population_size self - length new_population)
              population new_population ;;
  ret (mkSearch (slice new_population 0 (population_size self))
                best_solution best_fitness).

(** [g] generations from the search state [st]. *)
Fixpoint run_generations (self : t) (stops : list Stop.t) (buses : list Bus.t)
    (g : nat) (st : search) : M search :=
  match g with
  | O => ret st
  | S g' =>
      st' <- generation self stops buses st ;;
      run_generations self stops buses g' st'
  end.

Definition stop_objects (stops : list stop_dict) : list Stop.t :=
  map (fun s => Stop.new (sd_id s) (sd_lat s, sd_lng s)
                         (match sd_students s with Some n => n | None => 1%Z end))
      stops.

Definition bus_objects (buses : list bus_dict) : list Bus.t :=
  map (fun b => Bus.new (bd_id b) (bd_capacity b)) buses.

(** The search of [optimize]: initialisation, then all generations. *)
Definition evolve (self : t) (stops : list Stop.t) (buses : list Bus.t)
    (g : nat) : M search :=
  population <- _initialize_population self stops buses ;;
  run_generations self stops buses g (mkSearch population None NegInf).

Definition optimize (self : t) (stops : list stop_dict) (buses : list bus_dict)
    (constraints : dict) : M dict :=
  let stop_objects := stop_objects stops in
  let bus_objects := bus_objects buses in
  st <- evolve self stop_objects bus_objects (generations self) ;;
  metrics <-
    lift (_calculate_route_metrics (best_solution st) stop_objects bus_objects) ;;
  routes <-
    lift (_format_routes
            (match best_solution st with Some r => [r] | None => [] end)
            stop_objects) ;;
  ret [ ("routes"%string, VList routes);
        ("metrics"%string, VDict metrics);
        ("generations"%string, VInt (Z.of_nat (generations self)));
        ("final_fitness"%string, VFloat (best_fitness st)) ].

End WithNumpy.

End GeneticAlgorithmOptimizer.

(** ** services/reinforcement_learning.py *)

Module RouteState.
Import Py Loops.

Record t : Type := mk {
  stops : list stop_dict;
  current_route : list Z;
  traffic_level : Q;
  weather_condition : string
}.

Definition weather_encoding : list (string * Q) :=
  [ ("clear"%string, 0%Q); ("rain"%string, (1 # 2)%Q);
    ("heavy_rain"%string, 1%Q); ("snow"%string, (8 # 10)%Q) ].

(** [d.get(k, default)] on the encoding table. *)
Fixpoint encoding_get (d : list (string * Q)) (k : string) (default : Q) : Q :=
  match d with
  | [] => default
  | (k', v) :: d' => if String.eqb k k' then v else encoding_get d' k default
  end.

(** The body of [for i, stop_id in enumerate(self.current_route[:20])]:
    an [int] divided by an [int], stored at position [i]. *)
Definition encode (self : t) (route_features : list Q) (entry : nat * Z)
    : result (list Q) :=
  let '(i, stop_id) := entry in
  x <-! div (inject_Z stop_id)
            (inject_Z (Z.of_nat (Nat.max (length (stops self)) 1))) ;;
  setitem route_features i x.

Definition to_vector (self : t) : result (list Q) :=
  let features :=
    [ inject_Z (Z.of_nat (length (current_route self)));
      traffic_level self;
      encoding_get weather_encoding (weather_condition self) 0%Q;
      inject_Z (Z.of_nat (length (stops self))) ] in
  route_features <-!
    rfold (encode self) (enumerate (slice (current_route self) 0 20))
          (repeat 0%Q 20) ;;
  Ok (features ++ route_features).

End RouteState.

Module DQN.
Import Py Loops.

(** One entry of the replay memory:
    [(state, action, reward, next_state, done)]. *)
Record experience : Type := mkExperience {
  state : list Q;
  action : Z;
  reward : Q;
  next_state : list Q;
  done : bool
}.

(** The agent.  [q_table] maps a discretised state to its row of action
    values. *)
Record t : Type := mk {
  state_size : nat;
  action_size : nat;
  memory : list experience;
  gamma : Q;
  epsilon : Q;
  epsilon_min : Q;
  epsilon_decay : Q;
  learning_rate : Q;
  q_table : list (list Q * list Q)
}.

Definition maxlen : nat := 2000.

(** [DQN(state_size, action_size)]. *)
Definition __init__ (state_size action_size : nat) : t :=
  mk state_size action_size [] (95 # 100)%Q 1%Q (1 # 100)%Q (995 # 1000)%Q
     (1 # 1000)%Q [].

(** [deque.append] under [maxlen]: a full buffer drops its oldest entry. *)
Definition deque_append {A} (d : list A) (x : A) : list A :=
  if maxlen <=? length d then tl d ++ [x] else d ++ [x].

Definition remember (self : t) (e : experience) : t :=
  mk (state_size self) (action_size self) (deque_append (memory self) e)
     (gamma self) (epsilon self) (epsilon_min self) (epsilon_decay self)
     (learning_rate self) (q_table self).

(** [tuple(state.round(2))]. *)
Definition state_key (s : list Q) : list Q := map (fun x => round x 2) s.

Fixpoint key_eqb (k1 k2 : list Q) : bool :=
  match k1, k2 with
  | [], [] => true
  | x :: k1', y :: k2' => Qeq_bool x y && key_eqb k1' k2'
  | _, _ => false
  end.

Fixpoint table_get (tbl : list (list Q * list Q)) (k : list Q)
    : option (list Q) :=
  match tbl with
  | [] => None
  | (k', row) :: tbl' => if key_eqb k k' then Some row else table_get tbl' k
  end.

Fixpoint table_set (tbl : list (list Q * list Q)) (k : list Q) (row : list Q)
    : list (list Q * list Q) :=
  match tbl with
  | [] => [(k, row)]
  | (k', row') :: tbl' =>
      if key_eqb k k' then (k', row) :: tbl'
      else (k', row') :: table_set tbl' k row
  end.

(** [if k not in q_table: q_table[k] = np.zeros(action_size)]. *)
Definition ensure_row (n : nat) (tbl : list (list Q * list Q)) (k : list Q)
    : list (list Q * list Q) :=
  match table_get tbl k with
  | Some _ => tbl
  | None => table_set tbl k (repeat 0%Q n)
  end.

(** [np.max(row)]: [ValueError] on an empty array. *)
Definition np_max (row : list Q) : result Q :=
  match row with
  | [] => Raise ValueError
  | x :: row' => Ok (fold_left max row' x)
  end.

(** The position an integer index denotes in an array of [n] cells. *)
Definition array_index (n : nat) (i : Z) : result nat :=
  if (0 <=? i)%Z && (i <? Z.of_nat n)%Z then Ok (Z.to_nat i)
  else if (- Z.of_nat n <=? i)%Z && (i <? 0)%Z then Ok (Z.to_nat (i + Z.of_nat n))
  else Raise IndexError.

(** The body of [for state, action, reward, next_state, done in minibatch]. *)
Definition learn (self : t) (tbl : list (list Q * list Q)) (e : experience)
    : result (list (list Q * list Q)) :=
  let state_key := state_key (state e) in
  let next_state_key := DQN.state_key (next_state e) in
  let tbl := ensure_row (action_size self) tbl state_key in
  let tbl := ensure_row (action_size self) tbl next_state_key in
  target <-!
    (if done e then Ok (reward e)
     else
       next_row <-! (match table_get tbl next_state_key with
                     | Some r => Ok r
                     | None => Raise KeyError
                     end) ;;
       best <-! np_max next_row ;;
       Ok (reward e + gamma self * best)%Q) ;;
  row <-! (match table_get tbl state_key with
           | Some r => Ok r
           | None => Raise KeyError
           end) ;;
  i <-! array_index (length row) (action e) ;;
  row <-! setitem row i target ;;
  Ok (table_set tbl state_key row).

(** [if self.epsilon > self.epsilon_min: self.epsilon *= self.epsilon_decay]. *)
Definition decay (self : t) : Q :=
  if Qltb (epsilon_min self) (epsilon self)
  then (epsilon self * epsilon_decay self)%Q
  else epsilon self.

Definition replay (self : t) (batch_size : nat) : M t :=
  if length (memory self) <? batch_size then ret self
  else
    minibatch <- sample (memory self) batch_size ;;
    tbl <- lift (rfold (learn self) minibatch (q_table self)) ;;
    ret (mk (state_size self) (action_size self) (memory self) (gamma self)
            (decay self) (epsilon_min self) (epsilon_decay self)
            (learning_rate self) tbl).

(** The scan of [np.argmax]: the first position of the greatest value,
    [best] holding the position of [value] and [i] the next position. *)
Fixpoint argmax_from (best : nat) (value : Q) (i : nat) (row : list Q) : nat :=
  match row with
  | [] => best
  | y :: row' =>
      if Qltb value y then argmax_from i y (S i) row'
      else argmax_from best value (S i) row'
  end.

(** [np.argmax(row)]: [ValueError] on an empty array. *)
Definition np_argmax (row : list Q) : result nat :=
  match row with
  | [] => Raise ValueError
  | x :: row' => Ok (argmax_from 0 x 1 row')
  end.

(** The action chosen and the agent, whose table may have gained the row
    of the state. *)
Definition act (self : t) (state : list Q) : ST generators (nat * t) :=
  r <- np_random random ;;
  if Qle_bool r (epsilon self) then
    a <- py_random (randrange (action_size self)) ;;
    ret (a, self)
  else
    let state_key := state_key state in
    let tbl := ensure_row (action_size self) (q_table self) state_key in
    row <- lift (match table_get tbl state_key with
                 | Some r => Ok r
                 | None => Raise KeyError
                 end) ;;
    a <- lift (np_argmax row) ;;
    ret (a, mk (state_size self) (action_size self) (memory self) (gamma self)
               (epsilon self) (epsilon_min self) (epsilon_decay self)
               (learning_rate self) tbl).

(** The operations a client applies to an agent. *)
Inductive op : Type :=
| Remember (e : experience)
| Replay (batch_size : nat).

Definition step (self : t) (o : op) : M t :=
  match o with
  | Remember e => ret (remember self e)
  | Replay b => replay self b
  end.

(** A sequence of operations, in order. *)
Definition run (ops : list op) (self : t) : M t := mfold step ops self.

End DQN.

Module RLOptimizer.
Import Py Loops.

Record t : Type := mk {
  state_size : nat;
  action_size : nat;
  agent : DQN.t;
  episodes : nat
}.

(** [RLOptimizer()]. *)
Definition __init__ : t := mk 24 10 (DQN.__init__ 24 10) 100.

Section WithNumpy.
Variable np : numpy.

(** Planar distance scaled by 111 km per degree. *)
Definition _calculate_distance (loc1 loc2 : Q * Q) : Q :=
  let '(lat1, lon1) := loc1 in
  let '(lat2, lon2) := loc2 in
  (np_sqrt np ((lat2 - lat1) ^ 2 + (lon2 - lon1) ^ 2) * 111)%Q.

(** [next(s for s in stops if s['id'] == stop_id)]. *)
Definition stop_by_id (stops : list stop_dict) (stop_id : Z)
    : result stop_dict :=
  next_match (fun s => Z.eqb (sd_id s) stop_id) stops.

(** [s['location']]. *)
Definition location (s : stop_dict) : Q * Q := (sd_lat s, sd_lng s).

Definition location_value (s : stop_dict) : value :=
  VDict [ ("lat"%string, VFloat (Fin (sd_lat s)));
          ("lng"%string, VFloat (Fin (sd_lng s))) ].

(** [route] is [None] when no episode ran. *)
Definition _format_results (self : t) (route : option (list Z))
    (stops : list stop_dict) (buses : list bus_dict) (reward : xfloat)
    : result dict :=
  match route, buses with
  | None, _ | Some [], _ | _, [] =>
      Ok [ ("routes"%string, VList []); ("metrics"%string, VDict []) ]
  | Some route, bus :: _ =>
      total_distance <-!
        rfold (fun total_distance i =>
                 id1 <-! getitem route i ;;
                 stop1 <-! stop_by_id stops id1 ;;
                 id2 <-! getitem route (i + 1) ;;
                 stop2 <-! stop_by_id stops id2 ;;
                 Ok (total_distance
                     + _calculate_distance (location stop1) (location stop2))%Q)
              (seq 0 (length route - 1)) 0%Q ;;
      formatted_stops <-!
        rmap (fun '(idx, stop_id) =>
                stop <-! stop_by_id stops stop_id ;;
                Ok (VDict [ ("id"%string, VInt stop_id);
                            ("location"%string, location_value stop);
                            ("sequence"%string, VInt (Z.of_nat idx)) ]))
             (enumerate route) ;;
      Ok [ ("routes"%string,
             VList [ VDict [ ("bus_id"%string, VInt (bd_id bus));
                             ("stops"%string, VList formatted_stops);
                             ("rl_reward"%string, VFloat (xround reward 2)) ] ]);
           ("metrics"%string,
             VDict [ ("total_distance_km"%string,
                       VFloat (Fin (round total_distance 2)));
                     ("estimated_time_minutes"%string,
                       VInt (Z.of_nat (length route * 5)));
                     ("stops_count"%string, VInt (Z.of_nat (length route)));
                     ("rl_episodes"%string, VInt (Z.of_nat (episodes self)));
                     ("final_reward"%string, VFloat (xround reward 2)) ]) ]
  end.

Definition _initialize_state (stops : list stop_dict) : M RouteState.t :=
  traffic_level <- uniform (3 # 10)%Q (7 # 10)%Q ;;
  weather_condition <- choice [ "clear"; "rain"; "heavy_rain" ]%string ;;
  ret (RouteState.mk stops [] traffic_level weather_condition).

(** [[s['id'] for s in stops if s['id'] not in route]]. *)
Definition available (route : list Z) (stops : list stop_dict) : list Z :=
  map sd_id (filter (fun s => negb (existsb (Z.eqb (sd_id s)) route)) stops).

(** The stop chosen, or [None]. *)
Definition _apply_action (action : nat) (route : list Z)
    (stops : list stop_dict) : M (option Z) :=
  let available_stops := available route stops in
  match available_stops with
  | [] => ret None
  | _ :: _ =>
      if action =? 0 then
        next_stop <- lift (getitem available_stops 0) ;;
        ret (Some next_stop)
      else if action =? 1 then
        next_stop <-
          lift (getitem available_stops (length available_stops - 1)) ;;
        ret (Some next_stop)
      else
        next_stop <- choice available_stops ;;
        ret (Some next_stop)
  end.

(** [stop.get('students', 1)]. *)
Definition students (s : stop_dict) : Z :=
  match sd_students s with
  | Some n => n
  | None => 1%Z
  end.

Definition _calculate_reward (route : list Z) (next_stop : option Z)
    (stops : list stop_dict) (constraints : dict) : result Q :=
  match next_stop with
  | None => Ok (- (10))%Q
  | Some next_stop =>
      let reward := 0%Q in
      stop <-! stop_by_id stops next_stop ;;
      let reward := (reward + inject_Z (students stop) * 2)%Q in
      reward <-!
        (match route with
         | [] => Ok reward
         | _ :: _ =>
             last_id <-! getitem route (length route - 1) ;;
             last_stop <-! stop_by_id stops last_id ;;
             let distance :=
               _calculate_distance (location last_stop) (location stop) in
             Ok (reward - distance * (1 # 10))%Q
         end) ;;
      let max_time :=
        match dict_get constraints "max_time" with
        | Some v => v
        | None => VInt 60
        end in
      limit <-! as_number max_time ;;
      if xltb limit (Fin (inject_Z (Z.of_nat (length route * 5))))
      then Ok (reward - 5)%Q
      else Ok reward
  end.

(** The stop that [if next_stop:] lets through: [None] and the id [0]
    are both false. *)
Definition truthy (next_stop : option Z) : list Z :=
  match next_stop with
  | Some stop_id => if Z.eqb stop_id 0 then [] else [stop_id]
  | None => []
  end.

Definition _update_state (state : RouteState.t) (next_stop : option Z)
    (route : list Z) : M RouteState.t :=
  let new_route := route ++ truthy next_stop in
  traffic_change <- uniform (- (1 # 10))%Q (1 # 10)%Q ;;
  let new_traffic :=
    max 0%Q (min 1%Q (RouteState.traffic_level state + traffic_change)%Q) in
  ret (RouteState.mk (RouteState.stops state) new_route new_traffic
                     (RouteState.weather_condition state)).

(** The variables of one episode, with the agent. *)
Record walk : Type := mkWalk {
  w_state : RouteState.t;
  w_route : list Z;
  w_total_reward : Q;
  w_done : bool;
  w_agent : DQN.t
}.

(** One pass of the body of
    [while not done and len(route) < len(stops)]. *)
Definition visit (stops : list stop_dict) (constraints : dict) (w : walk)
    : ST generators walk :=
  let state := w_state w in
  let route := w_route w in
  state_vector <- lift (RouteState.to_vector state) ;;
  '(action, agent) <- DQN.act (w_agent w) state_vector ;;
  next_stop <- py_random (_apply_action action route stops) ;;
  reward <- lift (_calculate_reward route next_stop stops constraints) ;;
  next_state <- py_random (_update_state state next_stop route) ;;
  let done :=
    (length stops <=? length route)
    || (match next_stop with None => true | Some _ => false end) in
  let '(route, total_reward) :=
    match truthy next_stop with
    | [] => (route, w_total_reward w)
    | _ :: _ => (route ++ truthy next_stop, (w_total_reward w + reward)%Q)
    end in
  next_vector <- lift (RouteState.to_vector next_state) ;;
  let agent :=
    DQN.remember agent
      (DQN.mkExperience state_vector (Z.of_nat action) reward next_vector
                        done) in
  ret (mkWalk next_state route total_reward done agent).

(** The [while] loop, at most [fuel] passes of it: [None] when the loop
    condition still holds after them. *)
Fixpoint episode (fuel : nat) (stops : list stop_dict) (constraints : dict)
    (w : walk) : ST generators (option walk) :=
  if negb (w_done w) && (length (w_route w) <? length stops) then
    match fuel with
    | O => ret None
    | S fuel' =>
        w' <- visit stops constraints w ;;
        episode fuel' stops constraints w'
    end
  else ret (Some w).

(** The variables the loop over episodes carries, with the agent. *)
Record learning : Type := mkLearning {
  trained : DQN.t;
  best_route : option (list Z);
  best_reward : xfloat
}.

(** The body of [for episode in range(self.episodes)]; [None] once an
    episode has not ended within [fuel] passes. *)
Definition train (fuel : nat) (stops : list stop_dict) (constraints : dict)
    (tr : option learning) (_ : nat) : ST generators (option learning) :=
  match tr with
  | None => ret None
  | Some tr =>
      state <- py_random (_initialize_state stops) ;;
      w <- episode fuel stops constraints
                   (mkWalk state [] 0%Q false (trained tr)) ;;
      match w with
      | None => ret None
      | Some w =>
          agent <- py_random (DQN.replay (w_agent w) 32) ;;
          if xltb (best_reward tr) (Fin (w_total_reward w))
          then ret (Some (mkLearning agent (Some (w_route w))
                                     (Fin (w_total_reward w))))
          else ret (Some (mkLearning agent (best_route tr) (best_reward tr)))
      end
  end.

(** The result and the optimizer with its trained agent; [None] when an
    episode has not ended within [fuel] passes of its loop. *)
Definition optimize (fuel : nat) (self : t) (stops : list stop_dict)
    (buses : list bus_dict) (constraints : dict)
    : ST generators (option (dict * t)) :=
  tr <- sfold (train fuel stops constraints) (seq 0 (episodes self))
              (Some (mkLearning (agent self) None NegInf)) ;;
  match tr with
  | None => ret None
  | Some tr =>
      result <-
        lift (_format_results self (best_route tr) stops buses
                              (best_reward tr)) ;;
      ret (Some (result,
                 mk (state_size self) (action_size self) (trained tr)
                    (episodes self)))
  end.

End WithNumpy.

End RLOptimizer.

(** ** services/route_optimizer.py *)

Module RouteOptimizer.
Import Py.

Section Hybrid.
(** Everything the two optimizers read and write between calls: the
    generator state, the agent's table and memory. *)
Variable World : Type.

(** An object with an [optimize(stops, buses, constraints)] method. *)
Definition optimizer : Type :=
  list stop_dict -> list bus_dict -> dict -> ST World dict.

Record t : Type := mk {
  ga_optimizer : optimizer;
  rl_optimizer : optimizer
}.

(** [result['metrics'].get('total_distance_km', float('inf'))]. *)
Definition score (result : dict) : Py.result value :=
  metrics <-! dict_item result "metrics" ;;
  match metrics with
  | VDict m =>
      match dict_get m "total_distance_km" with
      | Some v => Ok v
      | None => Ok (VFloat PosInf)
      end
  | _ => Raise AttributeError
  end.

(** [rl_score < ga_score]. *)
Definition less (a b : value) : Py.result bool :=
  x <-! as_number a ;;
  y <-! as_number b ;;
  Ok (xltb x y).

Definition _apply_heuristics (self : t) (result : dict)
    (stops : list stop_dict) (buses : list bus_dict) (constraints : dict)
    : dict :=
  let result :=
    dict_set result "heuristics_applied"
      (VList [ VStr "time_window_validation"; VStr "load_balancing";
               VStr "route_smoothing" ]) in
  dict_set result "optimization_approach" (VStr "hybrid").

Definition optimize (self : t) (stops : list stop_dict)
    (buses : list bus_dict) (constraints : dict) : ST World dict :=
  ga_result <- ga_optimizer self stops buses constraints ;;
  final_result <-
    (if 20 <? length stops then
       rl_result <- rl_optimizer self stops buses constraints ;;
       ga_score <- lift (score ga_result) ;;
       rl_score <- lift (score rl_result) ;;
       better <- lift (less rl_score ga_score) ;;
       if (better : bool)
       then ret (dict_set rl_result "algorithm_used" (VStr "rl"))
       else ret (dict_set ga_result "algorithm_used" (VStr "genetic"))
     else ret (dict_set ga_result "algorithm_used" (VStr "genetic"))) ;;
  ret (_apply_heuristics self final_result stops buses constraints).

End Hybrid.

(** A computation on the generator alone, run in a world that holds the
    generator and the state [X] of the learning agent. *)
Definition with_random {X A} (m : M A) : ST (random_state * X) A :=
  fun w =>
    match m (fst w) with
    | Ok (a, g') => Ok (a, (g', snd w))
    | Raise e => Raise e
    end.

(** [RouteOptimizer()]: a genetic optimizer of 30 routes and 50
    generations, and the learning optimizer [rl]. *)
Definition __init__ {X} (np : numpy) (rl : optimizer (random_state * X))
    : t (random_state * X) :=
  mk (fun stops buses constraints =>
        with_random
          (GeneticAlgorithmOptimizer.optimize np
             (GeneticAlgorithmOptimizer.__init__ 30 50 (1 # 10)%Q (8 # 10)%Q)
             stops buses constraints))
     rl.

End RouteOptimizer.

(** * Reference formulas

    The quantities of the design document, written from its words, against
    which the embedded code is compared. *)

Module Reference.

(** "sum of consecutive-stop distanceKm over r's sequence (0 if <2 stops)". *)
Fixpoint path_length (distanceKm : Q * Q -> Q * Q -> Q) (locs : list (Q * Q))
    : Q :=
  match locs with
  | a :: ((b :: _) as rest) => (distanceKm a b + path_length distanceKm rest)%Q
  | _ => 0%Q
  end.

(** The locations of a route's stops, in route order. *)
Definition locations (stops : list Stop.t) (route_stops : list Z)
    : Py.result (list (Q * Q)) :=
  Loops.rmap (fun stop_id =>
                s <-! GeneticAlgorithmOptimizer.stop_by_id stops stop_id ;;
                Py.Ok (Stop.location s))
             route_stops.

(** "fitness = wD*distanceScore + wT*timeScore + wC*capUtil" with
    [time = distance / 30 * 60]. *)
Definition fitness (d : Q) (served capacity : Z) : Q :=
  ((4 # 10) * (1 / (1 + d / 100))
   + (3 # 10) * (1 / (1 + (d / 30 * 60) / 60))
   + (3 # 10) * Qmin (inject_Z served / inject_Z capacity) 1)%Q.

(** The entries of the result of a run, [None] for a run that raised. *)
Definition entry {S} (r : Py.result (Py.dict * S)) (k : string)
    : option Py.value :=
  match r with
  | Py.Ok (d, _) => Py.dict_get d k
  | Py.Raise _ => None
  end.

(** The distance the orchestrator compares: the metric
    [total_distance_km] of a result, "absent ... treated as +infinity". *)
Definition total_distance_km (result : Py.dict) : option Py.xfloat :=
  match Py.dict_get result "metrics" with
  | Some (Py.VDict m) =>
      match Py.dict_get m "total_distance_km" with
      | None => Some Py.PosInf
      | Some (Py.VFloat x) => Some x
      | Some (Py.VInt z) => Some (Py.Fin (inject_Z z))
      | Some _ => None
      end
  | _ => None
  end.

(** A result that carries the given distance. *)
Definition result_of_distance (km : Q) : Py.dict :=
  [ ("routes"%string, Py.VList []);
    ("metrics"%string,
      Py.VDict [ ("total_distance_km"%string, Py.VFloat (Py.Fin km)) ]) ].

(** An optimizer that returns a fixed result and records its call. *)
Definition fixed_optimizer (name : string) (result : Py.dict)
    : RouteOptimizer.optimizer (list string) :=
  fun _ _ _ calls => Py.Ok (result, (calls ++ [name])%list).

(** An action that indexes a row of [n] action values. *)
Definition valid_action (n : nat) (a : Z) : Prop :=
  (- Z.of_nat n <= a < Z.of_nat n)%Z.

(** Every row of the table has [n] action values. *)
Definition rows_sized (n : nat) (tbl : list (list Q * list Q)) : Prop :=
  Forall (fun kr => length (snd kr) = n) tbl.

(** An agent whose table and memory fit its action space. *)
Definition agent_ok (a : DQN.t) : Prop :=
  0 < DQN.action_size a
  /\ rows_sized (DQN.action_size a) (DQN.q_table a)
  /\ Forall (fun e => valid_action (DQN.action_size a) (DQN.action e))
            (DQN.memory a).

(** [k] training replays applied to an exploration rate: each multiplies
    it by [decay] if it is above [floor]. *)
Fixpoint decayed (floor decay : Q) (k : nat) (epsilon : Q) : Q :=
  match k with
  | O => epsilon
  | S k' =>
      decayed floor decay k'
              (if Py.Qltb floor epsilon then (epsilon * decay)%Q else epsilon)
  end.

(** The request of the design document's scenario: four stops on a square
    of about one kilometre, five students each. *)
Definition square : list stop_dict :=
  [ mkStopDict 1 0 0 (Some 5%Z); mkStopDict 2 0 (9 # 1000) (Some 5%Z);
    mkStopDict 3 (9 # 1000) 0 (Some 5%Z);
    mkStopDict 4 (9 # 1000) (9 # 1000) (Some 5%Z) ].

(** A transition into a terminal state, with reward 1. *)
Definition terminal_step : DQN.experience :=
  DQN.mkExperience (repeat 0%Q 24) 0 1%Q (repeat 0%Q 24) true.

(** Thirty-two transitions remembered, then [k] replays of the default
    batch size. *)
Definition training (k : nat) : list DQN.op :=
  repeat (DQN.Remember terminal_step) 32 ++ repeat (DQN.Replay 32) k.

(** The share of a stop id in the feature vector of a state: the id
    over the number of stops, over 1 when there is none. *)
Definition scaled (self : RouteState.t) (stop_id : Z) : Q :=
  (inject_Z stop_id
   / inject_Z (Z.of_nat (Nat.max (length (RouteState.stops self)) 1)))%Q.

(** The entry [k] of a value that is a dict. *)
Definition field (k : string) (v : Py.value) : option Py.value :=
  match v with
  | Py.VDict d => Py.dict_get d k
  | _ => None
  end.

End Reference.

(** * Invariants of the search *)

Module Invariant.

(** A route of the request: its vehicle is one of the vehicles and its
    stops are stops of the request. *)
Definition route_ok (stops : list Stop.t) (buses : list Bus.t) (r : Route.t)
    : Prop :=
  In (Route.bus_id r) (map Bus.id buses)
  /\ incl (Route.stops r) (map Stop.id stops).

(** A population of the configured size made of routes of the request. *)
Definition population_ok (self : GeneticAlgorithmOptimizer.t)
    (stops : list Stop.t) (buses : list Bus.t) (p : list Route.t) : Prop :=
  length p = GeneticAlgorithmOptimizer.population_size self
  /\ Forall (route_ok stops buses) p.

(** A request the search can run on: at least one route to keep, three
    stops to draw from, and a vehicle, none of zero capacity or zero fuel
    efficiency. *)
Definition request_ok (self : GeneticAlgorithmOptimizer.t)
    (stops : list Stop.t) (buses : list Bus.t) : Prop :=
  1 <= GeneticAlgorithmOptimizer.population_size self
  /\ 3 <= length stops
  /\ buses <> []
  /\ Forall (fun b => Bus.capacity b <> 0%Z
                      /\ ~ (Bus.fuel_efficiency b == 0)%Q) buses.

(** The best route tracked so far, once there is one, is a route of the
    request and carries the best fitness. *)
Definition best_ok (stops : list Stop.t) (buses : list Bus.t)
    (st : GeneticAlgorithmOptimizer.search) : Prop :=
  exists r,
    GeneticAlgorithmOptimizer.best_solution st = Some r
    /\ route_ok stops buses r
    /\ GeneticAlgorithmOptimizer.best_fitness st = Py.Fin (Route.fitness r).

(** A route as initialisation draws it: at least three stops, sampled
    from the stops of the request. *)
Definition sampled (stops : list Stop.t) (r : Route.t) : Prop :=
  3 <= length (Route.stops r)
  /\ exists rest, Permutation (Route.stops r ++ rest) (map Stop.id stops).

(** A route that visits no stop twice. *)
Definition no_repeat (r : Route.t) : Prop := NoDup (Route.stops r).

(** Two states of the generator that deliver the same draws from where
    they stand, as two states set from one seed do; what either held
    before its cursor plays no part. *)
Definition same_draws (g1 g2 : Py.random_state) : Prop :=
  Py.cursor g1 = Py.cursor g2
  /\ forall n, Py.cursor g1 <= n -> Py.stream g1 n = Py.stream g2 n.

(** Two runs that end alike: with the same value, leaving generators
    that deliver the same draws, or with the same exception. *)
Definition same_outcome {A} (r1 r2 : Py.result (A * Py.random_state)) : Prop :=
  match r1, r2 with
  | Py.Ok (a1, g1), Py.Ok (a2, g2) => a1 = a2 /\ same_draws g1 g2
  | Py.Raise e1, Py.Raise e2 => e1 = e2
  | _, _ => False
  end.

(** A computation whose outcome depends on the generator through the
    draws it delivers only. *)
Definition reproducible {A} (m : Py.M A) : Prop :=
  forall g1 g2, same_draws g1 g2 -> same_outcome (m g1) (m g2).

(** A bound inside the range of a float, whose largest value is just
    below [2 ^ 1024]. *)
Definition float_bound : Z := (2 ^ 1023)%Z.

(** An integer inside the range of a float.  Python's [int / int] raises
    an [OverflowError] when the quotient is beyond that range, which the
    exact quotient of the model does not show. *)
Definition float_sized (z : Z) : Prop := (Z.abs z < float_bound)%Z.

(** Constraints whose [max_time], when given, is a number. *)
Definition numeric_max_time (constraints : Py.dict) : Prop :=
  match Py.dict_get constraints "max_time" with
  | None | Some (Py.VInt _) | Some (Py.VFloat _) => True
  | Some _ => False
  end.

(** An episode whose agent is well formed and whose route visits stops
    of the request, none twice. *)
Definition walk_ok (stops : list stop_dict) (w : RLOptimizer.walk) : Prop :=
  Reference.agent_ok (RLOptimizer.w_agent w)
  /\ NoDup (RLOptimizer.w_route w)
  /\ incl (RLOptimizer.w_route w) (map sd_id stops).

(** A route that visits every stop id of the request once. *)
Definition covers (stops : list stop_dict) (route : list Z) : Prop :=
  NoDup route
  /\ forall stop_id, In stop_id route <-> In stop_id (map sd_id stops).

(** The episodes so far left a well-formed agent and, once one has
    ended, a best route that visits every stop once. *)
Definition learning_ok (stops : list stop_dict) (tr : RLOptimizer.learning)
    : Prop :=
  Reference.agent_ok (RLOptimizer.trained tr)
  /\ (RLOptimizer.best_reward tr = Py.NegInf
      \/ exists route reward,
           RLOptimizer.best_route tr = Some route
           /\ RLOptimizer.best_reward tr = Py.Fin reward
           /\ covers stops route).

End Invariant.

(** * Interval arithmetic

    Bounds on powers by repeated squaring with outward rounding. *)

Module Interval.

(** Twelve decimals. *)
Definition unit_in_last_place : positive := Pos.pow 10 12.

(** The greatest multiple of [10^-12] at or below [x]. *)
Definition round_down (x : Q) : Q :=
  (Qfloor (x * inject_Z (Zpos unit_in_last_place)) # unit_in_last_place)%Q.

(** The least multiple of [10^-12] at or above [x]. *)
Definition round_up (x : Q) : Q :=
  (Qceiling (x * inject_Z (Zpos unit_in_last_place)) # unit_in_last_place)%Q.

(** [n] squarings of [x], each rounded down. *)
Fixpoint squared_down (n : nat) (x : Q) : Q :=
  match n with
  | O => x
  | S n' => let y := squared_down n' x in round_down (y * y)
  end.

(** [n] squarings of [x], each rounded up. *)
Fixpoint squared_up (n : nat) (x : Q) : Q :=
  match n with
  | O => x
  | S n' => let y := squared_up n' x in round_up (y * y)
  end.

(** [2 ^ n]. *)
Fixpoint two_pow (n : nat) : Z :=
  match n with
  | O => 1%Z
  | S n' => (2 * two_pow n')%Z
  end.

(** The exponent with the given binary digits set. *)
Fixpoint exponent (bits : list nat) : Z :=
  match bits with
  | [] => 0%Z
  | n :: bits' => (two_pow n + exponent bits')%Z
  end.

(** A lower bound of [x ^ exponent bits]. *)
Fixpoint product_down (bits : list nat) (x : Q) : Q :=
  match bits with
  | [] => 1%Q
  | n :: bits' => (squared_down n x * product_down bits' x)%Q
  end.

(** An upper bound of [x ^ exponent bits]. *)
Fixpoint product_up (bits : list nat) (x : Q) : Q :=
  match bits with
  | [] => 1%Q
  | n :: bits' => (squared_up n x * product_up bits' x)%Q
  end.

End Interval.

(** * Properties *)

(** ** Facts about the runtime *)

Section RuntimeFacts.
Import Py Loops.

Lemma Qltb_lt (x y : Q) : Qltb x y = true <-> (x < y)%Q.
Proof.
  unfold Qltb. rewrite negb_true_iff.
  destruct (Qle_bool y x) eqn:E.
  - apply Qle_bool_iff in E. split; [discriminate | intro H].
    exfalso. apply (Qlt_irrefl x). eapply Qlt_le_trans; eauto.
  - split; [intros _ | reflexivity].
    apply Qnot_le_lt. intro H. apply Qle_bool_iff in H. congruence.
Qed.

Lemma Qltb_ge (x y : Q) : Qltb x y = false <-> (y <= x)%Q.
Proof.
  unfold Qltb. rewrite negb_false_iff. apply Qle_bool_iff.
Qed.

Lemma bind_assoc {S A B C} (m : ST S A) (f : A -> ST S B) (h : B -> ST S C)
    (g : S) :
  bind (bind m f) h g = bind m (fun a => bind (f a) h) g.
Proof.
  unfold bind. destruct (m g) as [[a g']|e]; reflexivity.
Qed.

Lemma bind_ext {S A B} (m : ST S A) (f f' : A -> ST S B) (g : S) :
  (forall a g', f a g' = f' a g') -> bind m f g = bind m f' g.
Proof.
  intro H. unfold bind. destruct (m g) as [[a g']|e]; auto.
Qed.

Lemma bind_Ok {S A B} (m : ST S A) (k : A -> ST S B) (g g' : S) (a : A) :
  m g = Ok (a, g') -> bind m k g = k a g'.
Proof.
  intro H. unfold bind. now rewrite H.
Qed.

Lemma bind_ret {S A} (m : ST S A) (g : S) : bind m ret g = m g.
Proof.
  unfold bind, ret. destruct (m g) as [[a g']|e]; reflexivity.
Qed.

Lemma randbelow_run (n : nat) (g : random_state) :
  randbelow n g =
    Ok (N.to_nat (N.modulo (stream g (cursor g)) (N.of_nat n)),
        mkRandom (stream g) (S (cursor g))).
Proof. reflexivity. Qed.

Lemma randbelow_lt (n : nat) (g : random_state) :
  0 < n ->
  N.to_nat (N.modulo (stream g (cursor g)) (N.of_nat n)) < n.
Proof.
  intro Hn.
  assert (H : (N.modulo (stream g (cursor g)) (N.of_nat n) < N.of_nat n)%N)
    by (apply N.mod_lt; lia).
  lia.
Qed.

Lemma set_nth_length {A} (l : list A) (i : nat) (v : A) :
  length (set_nth l i v) = length l.
Proof.
  revert i; induction l as [|h t IH]; intros [|i]; simpl; auto.
Qed.

Lemma set_nth_In {A} (l : list A) (i : nat) (v x : A) :
  In x (set_nth l i v) -> x = v \/ In x l.
Proof.
  revert i; induction l as [|h t IH]; intros [|i]; simpl; intros H; auto.
  - destruct H as [H|H]; auto.
  - destruct H as [H|H]; auto. apply IH in H. tauto.
Qed.

Lemma In_firstn {A} (n : nat) (l : list A) (x : A) :
  In x (firstn n l) -> In x l.
Proof.
  intro H. rewrite <- (firstn_skipn n l). apply in_or_app. now left.
Qed.

Lemma In_skipn {A} (n : nat) (l : list A) (x : A) :
  In x (skipn n l) -> In x l.
Proof.
  intro H. rewrite <- (firstn_skipn n l). apply in_or_app. now right.
Qed.

(** Putting [h] where [y] was and [y] in front rearranges [h :: t]. *)
Lemma set_nth_rotate {A} (t : list A) (j : nat) (h y : A) :
  nth_error t j = Some y ->
  Permutation (y :: set_nth t j h) (h :: t).
Proof.
  revert j; induction t as [|a t IH]; intros [|j]; simpl; intros H;
    try discriminate.
  - injection H as ->. apply perm_swap.
  - apply IH in H.
    transitivity (a :: y :: set_nth t j h); [apply perm_swap|].
    transitivity (a :: h :: t); [apply perm_skip, H | apply perm_swap].
Qed.

(** Exchanging the contents of two positions rearranges the list. *)
Lemma set_nth_swap {A} (l : list A) (i j : nat) (x y : A) :
  nth_error l i = Some x -> nth_error l j = Some y ->
  Permutation (set_nth (set_nth l i y) j x) l.
Proof.
  revert i j; induction l as [|h t IH]; intros [|i] [|j]; simpl;
    intros Hi Hj; try discriminate.
  - inversion Hi; subst. reflexivity.
  - inversion Hi; subst. now apply set_nth_rotate.
  - inversion Hj; subst. now apply set_nth_rotate.
  - apply perm_skip. now apply IH.
Qed.

Lemma getitem_Some {A} (l : list A) (i : nat) (x : A) :
  nth_error l i = Some x -> getitem l i = Ok x.
Proof. unfold getitem. now intros ->. Qed.

Lemma getitem_lt {A} (l : list A) (i : nat) :
  i < length l -> exists x, nth_error l i = Some x /\ getitem l i = Ok x.
Proof.
  intro H. destruct (nth_error l i) as [x|] eqn:E.
  - exists x. split; auto. now apply getitem_Some.
  - apply nth_error_None in E. lia.
Qed.

Lemma setitem_lt {A} (l : list A) (i : nat) (v : A) :
  i < length l -> setitem l i v = Ok (set_nth l i v).
Proof.
  intro H. unfold setitem.
  destruct (i <? length l) eqn:E; auto.
  apply Nat.ltb_ge in E. lia.
Qed.

(** Rounding to the nearest integer moves by at most one half. *)
Lemma round_half_even_near (y : Q) :
  (y - (1 # 2) <= inject_Z (round_half_even y) <= y + (1 # 2))%Q.
Proof.
  unfold round_half_even.
  pose proof (Qfloor_le y) as Hlo.
  pose proof (Qlt_floor y) as Hhi.
  set (f := Qfloor y) in *.
  assert (Hf1 : (inject_Z (f + 1) == inject_Z f + 1)%Q)
    by (rewrite inject_Z_plus; reflexivity).
  destruct (Qcompare (y - inject_Z f) (1 # 2)) eqn:E.
  - apply Qeq_alt in E.
    destruct (Z.even f); [lra | rewrite Hf1; lra].
  - apply Qlt_alt in E. lra.
  - apply Qgt_alt in E. rewrite Hf1. lra.
Qed.

(** An integer at or below the argument stays at or below its rounding. *)
Lemma round_half_even_ge (y : Q) (n : Z) :
  (inject_Z n <= y)%Q -> (n <= round_half_even y)%Z.
Proof.
  intro H. unfold round_half_even.
  assert (Hn : (n <= Qfloor y)%Z).
  { rewrite <- (Qfloor_Z n). now apply Qfloor_resp_le. }
  destruct (Qcompare _ _); [destruct (Z.even _)|..]; lia.
Qed.

Lemma round_two_value (x : Q) :
  (round x 2 == inject_Z (round_half_even (x * 100)) / 100)%Q.
Proof.
  unfold round. simpl pow10.
  change (inject_Z (Z.pos 100)) with 100%Q.
  set (r := round_half_even _).
  rewrite (Qmake_Qdiv r 100). reflexivity.
Qed.

Lemma set_nth_app_l {A} (l1 l2 : list A) (i : nat) (v : A) :
  i < length l1 -> set_nth (l1 ++ l2) i v = set_nth l1 i v ++ l2.
Proof.
  revert i; induction l1 as [|h t IH]; intros [|i]; simpl; intro H;
    try lia; auto.
  f_equal. apply IH. lia.
Qed.

Lemma set_nth_same {A} (l : list A) (i : nat) (x : A) :
  nth_error l i = Some x -> set_nth l i x = l.
Proof.
  revert i; induction l as [|h t IH]; intros [|i]; simpl; intro H;
    try discriminate.
  - now inversion H.
  - f_equal. now apply IH.
Qed.

(** One round of the selection loop splits the pool into the element
    drawn and the pool handed to the next round. *)
Lemma pool_round {A} (pool : list A) (j : nat) (x y : A) :
  nth_error pool j = Some x ->
  nth_error pool (length pool - 1) = Some y ->
  Permutation (x :: firstn (length pool - 1) (set_nth pool j y)) pool.
Proof.
  intros Hx Hy.
  destruct pool as [|a pool0] using rev_ind; [destruct j; discriminate|].
  clear IHpool0.
  rewrite length_app in *. simpl in *.
  replace (length pool0 + 1 - 1) with (length pool0) in * by lia.
  rewrite nth_error_app2 in Hy by lia.
  rewrite Nat.sub_diag in Hy. simpl in Hy. inversion Hy; subst a.
  destruct (Nat.lt_ge_cases j (length pool0)) as [Hj|Hj].
  - rewrite nth_error_app1 in Hx by lia.
    rewrite set_nth_app_l by lia.
    rewrite firstn_app, set_nth_length, Nat.sub_diag. simpl.
    rewrite firstn_all2 by (rewrite set_nth_length; lia).
    rewrite app_nil_r.
    transitivity (y :: pool0).
    + now apply set_nth_rotate.
    + apply Permutation_cons_append.
  - assert (Hlt : j < length (pool0 ++ [y])).
    { apply nth_error_Some. congruence. }
    rewrite length_app in Hlt. simpl in Hlt.
    assert (j = length pool0) by lia. subst j.
    rewrite nth_error_app2 in Hx by lia.
    rewrite Nat.sub_diag in Hx. simpl in Hx. inversion Hx; subst x.
    rewrite set_nth_same
      by (rewrite nth_error_app2, Nat.sub_diag by lia; reflexivity).
    rewrite firstn_app, Nat.sub_diag. simpl.
    rewrite firstn_all, app_nil_r.
    apply Permutation_cons_append.
Qed.

(** A sample of [k <= len(pool)] elements is produced whatever the
    generator state: it has [k] elements and is, with the elements left
    over, a rearrangement of the pool. *)
Lemma sample_pool_ok {A} (k : nat) :
  forall (pool : list A) (g : random_state),
    k <= length pool ->
    exists l rest g', sample_pool k pool g = Ok (l, g')
                      /\ length l = k /\ Permutation (l ++ rest) pool.
Proof.
  induction k as [|k IH]; intros pool g Hk.
  - exists [], pool, g. repeat split; auto.
  - simpl. unfold bind at 1. rewrite randbelow_run.
    set (j := N.to_nat _).
    set (g1 := mkRandom _ _).
    assert (Hj : j < length pool) by (apply randbelow_lt; lia).
    destruct (nth_error pool j) as [x|] eqn:Ex;
      [|apply nth_error_None in Ex; lia].
    destruct (nth_error pool (length pool - 1)) as [y|] eqn:Ey;
      [|apply nth_error_None in Ey; lia].
    pose proof (pool_round pool j Ex Ey) as Hround.
    set (pool' := firstn (length pool - 1) (set_nth pool j y)) in *.
    assert (Hlen : length pool' = length pool - 1).
    { unfold pool'. rewrite length_firstn, set_nth_length. lia. }
    destruct (IH pool' g1) as (l & rest & g' & Hrun & Hl & Hperm); [lia|].
    exists (x :: l), rest, g'. unfold bind. rewrite Hrun. repeat split.
    + simpl. now rewrite Hl.
    + simpl. etransitivity; [apply perm_skip, Hperm | exact Hround].
Qed.

Lemma sample_ok {A} (population : list A) (k : nat) (g : random_state) :
  k <= length population ->
  exists l rest g', sample population k g = Ok (l, g')
                    /\ length l = k /\ Permutation (l ++ rest) population.
Proof.
  intro Hk. unfold sample.
  destruct (length population <? k) eqn:E.
  - apply Nat.ltb_lt in E. lia.
  - now apply sample_pool_ok.
Qed.

Lemma sample_incl {A} (l rest population : list A) :
  Permutation (l ++ rest) population -> incl l population.
Proof.
  intros H x Hx. eapply Permutation_in; [exact H|].
  apply in_or_app. now left.
Qed.

(** A sample of two distinct positions below [n]. *)
Lemma sample_two_positions (n : nat) (g : random_state) :
  2 <= n ->
  exists i j g', sample (seq 0 n) 2 g = Ok ([i; j], g')
                 /\ i < n /\ j < n /\ i <> j.
Proof.
  intro Hn.
  destruct (@sample_ok nat (seq 0 n) 2 g) as (l & rest & g' & Hrun & Hl & Hp).
  { rewrite length_seq. lia. }
  destruct l as [|i [|j [|? ?]]]; try discriminate.
  exists i, j, g'. split; auto.
  pose proof (sample_incl _ _ Hp) as Hin.
  assert (Hi : In i (seq 0 n)) by (apply Hin; simpl; auto).
  assert (Hj : In j (seq 0 n)) by (apply Hin; simpl; auto).
  apply in_seq in Hi. apply in_seq in Hj.
  assert (Hnd : NoDup ([i; j] ++ rest)).
  { eapply Permutation_NoDup; [apply Permutation_sym, Hp | apply seq_NoDup]. }
  simpl in Hnd. inversion Hnd as [|? ? Hni _]; subst.
  repeat split; try lia.
  intros ->. apply Hni. simpl. auto.
Qed.

Lemma bind_lift {A B} (r : result A) (k : A -> M B) (a : A) (g : random_state) :
  r = Ok a -> bind (lift r) k g = k a g.
Proof. now intros ->. Qed.

Lemma rmap_total {A B} (f : A -> result B) (l : list A) :
  (forall x, In x l -> exists y, f x = Ok y) ->
  exists ys, rmap f l = Ok ys /\ length ys = length l.
Proof.
  induction l as [|x l IH]; intro H; simpl.
  - now exists [].
  - destruct (H x) as (y & ->); [simpl; auto|].
    destruct IH as (ys & -> & Hlen); [intros; apply H; simpl; auto|].
    simpl. exists (y :: ys). simpl. auto.
Qed.

Lemma rfold_total {A B} (f : A -> B -> result A) (l : list B) :
  (forall a x, In x l -> exists a', f a x = Ok a') ->
  forall a, exists a', rfold f l a = Ok a'.
Proof.
  induction l as [|x l IH]; intros H a; simpl.
  - eauto.
  - destruct (H a x) as (a' & ->); [simpl; auto|]. simpl.
    apply IH. intros; apply H; simpl; auto.
Qed.

End RuntimeFacts.

(** Run the first computation of a sequence, given what it returns. *)
Ltac step_with H := rewrite (@bind_Ok _ _ _ _ _ _ _ _ H).

(** Run a first computation that does not draw, given what it returns. *)
Ltac step_pure H := rewrite (bind_lift _ _ H).

(** ** Genetic operators *)

Section GeneticOperators.
Import Py Loops GeneticAlgorithmOptimizer.

Lemma slice_NoDup {A} (l : list A) (a b : nat) :
  NoDup l -> NoDup (slice l a b).
Proof.
  intro H. unfold slice.
  rewrite <- (firstn_skipn b l) in H. apply NoDup_app_remove_r in H.
  rewrite <- (firstn_skipn a (firstn b l)) in H.
  now apply NoDup_app_remove_l in H.
Qed.

Lemma existsb_Zeqb_false (x : Z) (l : list Z) :
  existsb (Z.eqb x) l = false -> ~ In x l.
Proof.
  intros H Hin.
  assert (E : existsb (Z.eqb x) l = true).
  { apply existsb_exists. exists x. split; auto. apply Z.eqb_refl. }
  congruence.
Qed.

Lemma NoDup_snoc {A} (l : list A) (x : A) :
  NoDup l -> ~ In x l -> NoDup (l ++ [x]).
Proof.
  intros Hl Hx.
  apply (Permutation_NoDup (Permutation_cons_append l x)).
  now constructor.
Qed.

(** The fill loop appends a stop only when the child does not hold it. *)
Lemma fill_NoDup (donor : list Z) :
  forall (child : list Z) (limit : nat),
    NoDup child -> NoDup (fill child donor limit).
Proof.
  unfold fill.
  induction donor as [|stop donor IH]; intros child limit H; simpl; auto.
  apply IH.
  destruct (existsb (Z.eqb stop) child) eqn:E; simpl; auto.
  destruct (length child <? limit); auto.
  apply NoDup_snoc; auto. now apply existsb_Zeqb_false.
Qed.

Lemma sorted_two (a b : nat) :
  sorted [a; b] = [a; b] \/ sorted [a; b] = [b; a].
Proof.
  unfold sorted. simpl. destruct (b <? a); auto.
Qed.

(** [_crossover] returns for every generator state: the parents
    themselves, or two children that keep their parent's vehicle and are
    a slice of it filled from the other parent. *)
Lemma crossover_returns (parent1 parent2 : Route.t) (g : random_state) :
  exists child1 child2 g',
    _crossover parent1 parent2 g = Ok ((child1, child2), g')
    /\ Route.bus_id child1 = Route.bus_id parent1
    /\ Route.bus_id child2 = Route.bus_id parent2
    /\ ((child1 = parent1 /\ child2 = parent2)
        \/ exists start end_,
             Route.stops child1
             = fill (slice (Route.stops parent1) start end_)
                    (Route.stops parent2) (length (Route.stops parent1))
             /\ Route.stops child2
                = fill (slice (Route.stops parent2) start end_)
                       (Route.stops parent1) (length (Route.stops parent2))).
Proof.
  unfold _crossover.
  destruct ((length (Route.stops parent1) <? 2)
            || (length (Route.stops parent2) <? 2)) eqn:E.
  - exists parent1, parent2, g. repeat split; auto.
  - apply orb_false_iff in E. destruct E as [E1 E2].
    apply Nat.ltb_ge in E1, E2.
    set (size := Nat.min _ _).
    destruct (@sample_two_positions size g) as (i & j & g' & Hs & _).
    { unfold size. lia. }
    unfold bind. rewrite Hs.
    destruct (sorted_two i j) as [-> | ->];
      eexists _, _, g'; (split; [reflexivity|]); simpl;
      (split; [reflexivity|]); (split; [reflexivity|]);
      right; eexists _, _; split; reflexivity.
Qed.

(** [_mutate] returns for every generator state a route of the same
    vehicle whose stops are a rearrangement of the original's; from two
    stops on, it exchanges the contents of two distinct positions. *)
Lemma mutate_returns (route : Route.t) (g : random_state) :
  exists mutated g',
    _mutate route g = Ok (mutated, g')
    /\ Route.bus_id mutated = Route.bus_id route
    /\ Permutation (Route.stops mutated) (Route.stops route)
    /\ (2 <= length (Route.stops route) ->
        exists i j x y,
          i <> j
          /\ nth_error (Route.stops route) i = Some x
          /\ nth_error (Route.stops route) j = Some y
          /\ Route.stops mutated
             = set_nth (set_nth (Route.stops route) i y) j x).
Proof.
  unfold _mutate.
  destruct (length (Route.stops route) <? 2) eqn:E.
  - exists route, g. repeat split; auto.
    apply Nat.ltb_lt in E. lia.
  - apply Nat.ltb_ge in E.
    destruct (@sample_two_positions (length (Route.stops route)) g)
      as (i & j & g' & Hs & Hi & Hj & Hij); [lia|].
    destruct (getitem_lt (Route.stops route) Hi) as (x & Hx & Gx).
    destruct (getitem_lt (Route.stops route) Hj) as (y & Hy & Gy).
    unfold bind at 1. rewrite Hs.
    unfold bind, lift. rewrite Gy, Gx.
    rewrite setitem_lt by lia.
    rewrite setitem_lt by (rewrite set_nth_length; lia).
    pose proof (set_nth_swap (Route.stops route) i j Hx Hy) as Hp.
    eexists _, g'. split; [reflexivity|]. simpl.
    split; [reflexivity|]. split; [exact Hp|].
    intros _. exists i, j, x, y. auto.
Qed.

(** C5 -- Crossover and mutation keep routes free of repeated stops:
    from parents that repeat no stop id, [_crossover] returns two children
    that repeat none; from a route that repeats no stop id, [_mutate]
    returns a route that repeats none.  When the route has at least two
    stops the mutation exchanges the contents of two distinct positions,
    and in every case the mutated route is a rearrangement of the
    original.  Both operators return for every generator state. *)
Theorem crossover_mutate_no_duplicates
    (parent1 parent2 route : Route.t) (g : random_state) :
  NoDup (Route.stops parent1) ->
  NoDup (Route.stops parent2) ->
  NoDup (Route.stops route) ->
  (exists child1 child2 g',
      _crossover parent1 parent2 g = Ok ((child1, child2), g')
      /\ NoDup (Route.stops child1) /\ NoDup (Route.stops child2))
  /\ (exists mutated g',
         _mutate route g = Ok (mutated, g')
         /\ NoDup (Route.stops mutated)
         /\ Permutation (Route.stops mutated) (Route.stops route)
         /\ (2 <= length (Route.stops route) ->
             exists i j x y,
               i <> j
               /\ nth_error (Route.stops route) i = Some x
               /\ nth_error (Route.stops route) j = Some y
               /\ Route.stops mutated
                  = set_nth (set_nth (Route.stops route) i y) j x)).
Proof.
  intros H1 H2 Hr. split.
  - destruct (crossover_returns parent1 parent2 g)
      as (child1 & child2 & g' & Hrun & _ & _ & Hshape).
    exists child1, child2, g'. split; [exact Hrun|].
    destruct Hshape as [[-> ->] | (start & end_ & -> & ->)].
    + now split.
    + split; apply fill_NoDup; now apply slice_NoDup.
  - destruct (mutate_returns route g) as (mutated & g' & Hrun & _ & Hp & Hswap).
    exists mutated, g'. repeat split; auto.
    eapply Permutation_NoDup; [apply Permutation_sym, Hp | exact Hr].
Qed.

Lemma crossover_mutate_no_duplicates_witness :
  let parent1 := Route.new 1 [1; 2; 3; 4]%Z in
  let parent2 := Route.new 2 [4; 3; 5]%Z in
  let g := mkRandom (fun n => N.of_nat (3 * n + 1)) 0 in
  (exists child1 child2 g',
      _crossover parent1 parent2 g = Ok ((child1, child2), g')
      /\ NoDup (Route.stops child1) /\ NoDup (Route.stops child2))
  /\ (exists mutated g',
         _mutate parent1 g = Ok (mutated, g')
         /\ NoDup (Route.stops mutated)
         /\ Permutation (Route.stops mutated) (Route.stops parent1)
         /\ (2 <= length (Route.stops parent1) ->
             exists i j x y,
               i <> j
               /\ nth_error (Route.stops parent1) i = Some x
               /\ nth_error (Route.stops parent1) j = Some y
               /\ Route.stops mutated
                  = set_nth (set_nth (Route.stops parent1) i y) j x)).
Proof.
  intros parent1 parent2 g.
  apply (crossover_mutate_no_duplicates parent1 parent2 parent1 g);
    simpl; repeat constructor; simpl; intuition discriminate.
Defined.

(** The children of the sample run, for reference. *)
Example crossover_run :
  let g := mkRandom (fun n => N.of_nat (3 * n + 1)) 0 in
  match _crossover (Route.new 1 [1; 2; 3; 4]%Z) (Route.new 2 [4; 3; 5]%Z) g with
  | Ok ((c1, c2), _) => (Route.stops c1, Route.stops c2)
  | Raise _ => ([], [])
  end = ([1; 4; 3; 5]%Z, [4; 1; 2]%Z).
Proof. vm_compute. reflexivity. Qed.

End GeneticOperators.

(** ** Fitness *)

Section Fitness.
Import Py Loops GeneticAlgorithmOptimizer.

Variable np : numpy.
Hypothesis np_ok : numpy_ok np.

Lemma haversine_nonneg (a b : Q * Q) : (0 <= _haversine_distance np a b)%Q.
Proof.
  unfold _haversine_distance. simpl.
  set (x := np_sqrt np _).
  assert (Hx : (0 <= x)%Q) by apply (np_sqrt_nonneg np_ok).
  pose proof (np_arcsin_nonneg np_ok Hx) as Hc.
  lra.
Qed.

Lemma path_length_nonneg (locs : list (Q * Q)) :
  (0 <= Reference.path_length (_haversine_distance np) locs)%Q.
Proof.
  induction locs as [|a [|b rest] IH]; simpl; try lra.
  simpl in IH. pose proof (haversine_nonneg a b). lra.
Qed.

Lemma stop_by_id_found (stops : list Stop.t) (stop_id : Z) :
  In stop_id (map Stop.id stops) ->
  exists s, stop_by_id stops stop_id = Ok s /\ In s stops.
Proof.
  intro H. unfold stop_by_id, next_match.
  destruct (find _ stops) as [s|] eqn:E.
  - exists s. split; auto. now apply find_some in E.
  - exfalso. apply in_map_iff in H. destruct H as (s & Hs & Hin).
    pose proof (find_none _ _ E s Hin) as Hn. simpl in Hn.
    rewrite Hs, Z.eqb_refl in Hn. discriminate.
Qed.

Lemma locations_found (stops : list Stop.t) (route_stops : list Z) :
  Forall (fun stop_id => In stop_id (map Stop.id stops)) route_stops ->
  exists locs, Reference.locations stops route_stops = Ok locs.
Proof.
  unfold Reference.locations.
  induction 1 as [|stop_id l Hin _ IH]; simpl.
  - now exists [].
  - destruct (stop_by_id_found stops stop_id Hin) as (s & -> & _).
    destruct IH as (locs & ->). simpl. eauto.
Qed.

(** The index loop of [_calculate_total_distance], started anywhere in
    the route, adds the length of the path that remains. *)
Lemma legs_path_length (stops : list Stop.t) (l : list Z) :
  forall (pre : list Z) (acc : Q) (locs : list (Q * Q)),
    Reference.locations stops l = Ok locs ->
    exists d,
      rfold (leg np (pre ++ l) stops) (seq (length pre) (length l - 1)) acc
        = Ok d
      /\ (d == acc + Reference.path_length (_haversine_distance np) locs)%Q.
Proof.
  unfold Reference.locations.
  induction l as [|a l IH]; intros pre acc locs Hlocs.
  - simpl in *. inversion Hlocs; subst. exists acc. split; auto.
    simpl. lra.
  - simpl in Hlocs.
    destruct (stop_by_id stops a) as [sa|] eqn:Ea; [|discriminate].
    simpl in Hlocs.
    destruct (rmap _ l) as [locs'|] eqn:El; [|discriminate].
    simpl in Hlocs. inversion Hlocs; subst locs. clear Hlocs.
    destruct l as [|b l].
    + simpl in *. inversion El; subst. exists acc. split; auto.
      simpl. lra.
    + simpl in El.
      destruct (stop_by_id stops b) as [sb|] eqn:Eb; [|discriminate].
      simpl in El.
      destruct (rmap _ l) as [locs''|] eqn:El'; [|discriminate].
      simpl in El. inversion El; subst locs'. clear El.
      destruct (IH (pre ++ [a])
                   (acc + _haversine_distance np (Stop.location sa)
                                               (Stop.location sb))%Q
                   (Stop.location sb :: locs'')) as (d & Hd & Hdq).
      { reflexivity. }
      exists d. split.
      * replace (length (a :: b :: l) - 1) with (S (length (b :: l) - 1))
          by (simpl; lia).
        simpl seq. cbn [rfold]. unfold leg at 1.
        unfold getitem.
        rewrite nth_error_app2 by lia. rewrite Nat.sub_diag. simpl nth_error.
        cbn [rbind]. rewrite Ea. cbn [rbind].
        rewrite nth_error_app2 by lia.
        replace (length pre + 1 - length pre) with 1 by lia.
        simpl nth_error. cbn [rbind]. rewrite Eb. cbn [rbind].
        rewrite <- app_assoc in Hd. simpl app in Hd.
        rewrite length_app in Hd. simpl length in Hd.
        replace (length pre + 1) with (S (length pre)) in Hd by lia.
        exact Hd.
      * rewrite Hdq. simpl. lra.
Qed.

Lemma total_distance_path_length (route : Route.t) (stops : list Stop.t)
    (locs : list (Q * Q)) :
  Reference.locations stops (Route.stops route) = Ok locs ->
  exists d,
    _calculate_total_distance np route stops = Ok d
    /\ (d == Reference.path_length (_haversine_distance np) locs)%Q
    /\ (0 <= d)%Q.
Proof.
  intro Hlocs. unfold _calculate_total_distance.
  destruct (length (Route.stops route) <? 2) eqn:E.
  - exists 0%Q. split; auto.
    apply Nat.ltb_lt in E.
    assert (Hz : Reference.path_length (_haversine_distance np) locs = 0%Q).
    { unfold Reference.locations in Hlocs.
      destruct (Route.stops route) as [|a [|b l]]; simpl in *; try lia.
      - inversion Hlocs; reflexivity.
      - destruct (stop_by_id stops a); simpl in *; [|discriminate].
        inversion Hlocs; reflexivity. }
    rewrite Hz. split; lra.
  - destruct (legs_path_length stops (Route.stops route) [] 0%Q Hlocs)
      as (d & Hd & Hdq).
    exists d. simpl in Hd. split; auto.
    assert (Hq : (d == Reference.path_length (_haversine_distance np) locs)%Q)
      by (rewrite Hdq; lra).
    split; auto. rewrite Hq. apply path_length_nonneg.
Qed.

Lemma div_ok (x y : Q) : ~ (y == 0)%Q -> div x y = Ok (x / y)%Q.
Proof.
  intro H. unfold div. destruct (Qeq_bool y 0) eqn:E; auto.
  apply Qeq_bool_iff in E. contradiction.
Qed.

Lemma min_Qmin (x y : Q) : (min x y == Qmin x y)%Q.
Proof.
  unfold min. destruct (Qltb y x) eqn:E.
  - apply Qltb_lt in E. symmetry. apply Q.min_r. lra.
  - apply Qltb_ge in E. symmetry. now apply Q.min_l.
Qed.


Lemma quotient_nonneg (x c : Q) : (0 <= x)%Q -> (0 < c)%Q -> (0 <= x / c)%Q.
Proof.
  intros Hx Hc. apply Qle_shift_div_l; auto. now rewrite Qmult_0_l.
Qed.

Lemma score_defined (x : Q) : (0 <= x)%Q -> div 1 (1 + x) = Ok (1 / (1 + x))%Q.
Proof.
  intro H. apply div_ok. lra.
Qed.





Lemma inject_Z_nonzero (c : Z) : c <> 0%Z -> ~ (inject_Z c == 0)%Q.
Proof.
  intros Hc H. change 0%Q with (inject_Z 0) in H.
  rewrite inject_Z_injective in H. contradiction.
Qed.

(** What [_calculate_fitness] returns once the distance of the route and
    its vehicle are known. *)
Lemma fitness_of_distance (self : t) (route : Route.t) (stops : list Stop.t)
    (buses : list Bus.t) (bus : Bus.t) (d : Q) :
  _calculate_total_distance np route stops = Ok d ->
  (0 <= d)%Q ->
  find (fun b => Z.eqb (Bus.id b) (Route.bus_id route)) buses = Some bus ->
  Bus.capacity bus <> 0%Z ->
  _calculate_fitness np self route stops buses
  = Ok (distance_weight self * (1 / (1 + d / 100))
        + time_weight self * (1 / (1 + d / 30 * 60 / 60))
        + capacity_weight self
          * min (inject_Z (students_on route stops)
                 / inject_Z (Bus.capacity bus)) 1)%Q.
Proof.
  intros Hd Hd0 Hbus Hcap.
  unfold _calculate_fitness. rewrite Hd. cbn [rbind].
  unfold bus_by_id, next_match. rewrite Hbus. cbn [rbind].
  rewrite div_ok by (now apply inject_Z_nonzero). cbn [rbind].
  assert (Hd1 : (0 <= d / 100)%Q) by (apply quotient_nonneg; lra).
  assert (Hd2 : (0 <= d / 30 * 60 / 60)%Q).
  { apply quotient_nonneg; [|lra].
    apply Qmult_le_0_compat; [|lra]. apply quotient_nonneg; lra. }
  rewrite (score_defined Hd1). cbn [rbind].
  rewrite (score_defined Hd2). reflexivity.
Qed.


End Fitness.

(** The rational approximation meets the interface's two laws. *)
Section ApproximationFacts.

Lemma trim_nonneg (x : Q) : (0 <= x)%Q -> (0 <= NumpyApprox.trim x)%Q.
Proof.
  intro H. unfold NumpyApprox.trim.
  set (y := (x * inject_Z (Z.pos NumpyApprox.scale))%Q).
  assert (Hy : (0 <= Qfloor y)%Z).
  { change 0%Z with (Qfloor 0). apply Qfloor_resp_le.
    apply Qmult_le_0_compat; auto. discriminate. }
  unfold Qle. cbn [Qnum Qden]. lia.
Qed.

Lemma approx_ok : numpy_ok NumpyApprox.np.
Proof.
  constructor; simpl.
  - intro x. unfold NumpyApprox.sqrt.
    set (y := Qfloor _).
    pose proof (Z.sqrt_nonneg y) as Hy.
    unfold Qle. cbn [Qnum Qden]. lia.
  - intros x Hx. unfold NumpyApprox.arcsin. apply trim_nonneg.
    assert (H3 : (0 <= x * x * x)%Q)
      by (repeat apply Qmult_le_0_compat; auto).
    assert (H6 : (0 <= x * x * x / 6)%Q)
      by (apply Qle_shift_div_l; [reflexivity | now rewrite Qmult_0_l]).
    lra.
Qed.

End ApproximationFacts.

Section FitnessExamples.
Import Py Loops GeneticAlgorithmOptimizer.


End FitnessExamples.

(** ** Final metrics *)

Section Metrics.
Import Py Loops GeneticAlgorithmOptimizer.

Variable np : numpy.

Lemma hundredth (x : Q) : (x / 100 == x * (1 # 100))%Q.
Proof. reflexivity. Qed.

(** The metrics of a route whose lookups succeed. *)
Lemma route_metrics_value (route : Route.t) (stops : list Stop.t)
    (buses : list Bus.t) (bus : Bus.t) (d : Q) :
  _calculate_total_distance np route stops = Ok d ->
  find (fun b => Z.eqb (Bus.id b) (Route.bus_id route)) buses = Some bus ->
  ~ (Bus.fuel_efficiency bus == 0)%Q ->
  Bus.capacity bus <> 0%Z ->
  _calculate_route_metrics np (Some route) stops buses =
    Ok [ ("total_distance_km"%string, VFloat (Fin (round d 2)));
         ("estimated_time_minutes"%string,
           VFloat (Fin (round (d / 30 * 60)%Q 2)));
         ("fuel_consumption_liters"%string,
           VFloat (Fin (round (d / Bus.fuel_efficiency bus)%Q 2)));
         ("students_served"%string, VInt (students_on route stops));
         ("capacity_utilization"%string,
           VFloat (Fin (round (inject_Z (students_on route stops)
                               / inject_Z (Bus.capacity bus) * 100)%Q 2)));
         ("stops_count"%string,
           VInt (Z.of_nat (length (Route.stops route)))) ].
Proof.
  intros Hd Hbus Hfuel Hcap.
  unfold _calculate_route_metrics. rewrite Hd. cbn [rbind].
  unfold bus_by_id, next_match. rewrite Hbus. cbn [rbind].
  rewrite (div_ok _ Hfuel). cbn [rbind].
  rewrite div_ok by (now apply inject_Z_nonzero). reflexivity.
Qed.

Lemma ratio_ge_one (n c : Z) :
  (0 < c)%Z -> (c <= n)%Z -> (1 <= inject_Z n / inject_Z c)%Q.
Proof.
  intros Hc Hn. apply Qle_shift_div_l.
  - change 0%Q with (inject_Z 0). now rewrite <- Zlt_Qlt.
  - rewrite Qmult_1_l. now rewrite <- Zle_Qle.
Qed.

(** Rounding a percentage to two decimals: the result is within 0.005 of
    the argument, does not fall below 100 from an argument of at least
    100, and exceeds 100 from an argument above 100.005. *)
Lemma round_percentage (x : Q) :
  (x - (1 # 200) <= round x 2 <= x + (1 # 200))%Q
  /\ ((100 <= x)%Q -> (100 <= round x 2)%Q)
  /\ ((100005 # 1000 < x)%Q -> (100 < round x 2)%Q).
Proof.
  pose proof (round_half_even_near (x * 100)) as Hnear.
  pose proof (round_two_value x) as Hv. rewrite hundredth in Hv.
  set (r := round_half_even (x * 100)) in *.
  repeat split; try (rewrite Hv; lra).
  - intro H.
    assert (Hr : (10000 <= r)%Z)
      by (apply round_half_even_ge; change (inject_Z 10000) with 10000%Q; lra).
    rewrite Zle_Qle in Hr. change (inject_Z 10000) with 10000%Q in Hr.
    rewrite Hv. lra.
Qed.

End Metrics.

Section CapacityUtilization.
Import Py Loops GeneticAlgorithmOptimizer.

Variable np : numpy.
Hypothesis np_ok : numpy_ok np.

(** C10 (as amended) -- In the final metrics of a route whose stops and
    vehicle are found, the vehicle of positive capacity,
    [capacity_utilization] is
    [students_served / capacity * 100] rounded to two decimals, with no
    upper cap: it lies within 0.005 of that percentage, is at least 100
    whenever the students served reach the capacity, and exceeds 100
    whenever the percentage exceeds 100.005.  The capacity term of the
    fitness is [min(students_served / capacity, 1)]: it never exceeds 1
    and equals 1 whenever the students served reach the capacity. *)
Theorem capacity_utilization_uncapped
    (population_size generations : nat) (mutation_rate crossover_rate : Q)
    (route : Route.t) (stops : list Stop.t) (buses : list Bus.t) (bus : Bus.t) :
  find (fun b => Z.eqb (Bus.id b) (Route.bus_id route)) buses = Some bus ->
  (0 < Bus.capacity bus)%Z ->
  ~ (Bus.fuel_efficiency bus == 0)%Q ->
  Forall (fun stop_id => In stop_id (map Stop.id stops)) (Route.stops route) ->
  let served := students_on route stops in
  let percentage := (inject_Z served / inject_Z (Bus.capacity bus) * 100)%Q in
  exists m d f,
    _calculate_route_metrics np (Some route) stops buses = Ok m
    /\ dict_get m "students_served" = Some (VInt served)
    /\ dict_get m "capacity_utilization"
       = Some (VFloat (Fin (round percentage 2)))
    /\ (percentage - (1 # 200) <= round percentage 2 <= percentage + (1 # 200))%Q
    /\ ((Bus.capacity bus <= served)%Z -> (100 <= round percentage 2)%Q)
    /\ ((100005 # 1000 < percentage)%Q -> (100 < round percentage 2)%Q)
    /\ _calculate_total_distance np route stops = Ok d
    /\ _calculate_fitness np
         (__init__ population_size generations mutation_rate crossover_rate)
         route stops buses = Ok f
    /\ (f == (4 # 10) * (1 / (1 + d / 100))
            + (3 # 10) * (1 / (1 + (d / 30 * 60) / 60))
            + (3 # 10) * Qmin (inject_Z served / inject_Z (Bus.capacity bus)) 1)%Q
    /\ (Qmin (inject_Z served / inject_Z (Bus.capacity bus)) 1 <= 1)%Q
    /\ ((Bus.capacity bus <= served)%Z ->
        (Qmin (inject_Z served / inject_Z (Bus.capacity bus)) 1 == 1)%Q).
Proof.
  intros Hbus Hcap Hfuel Hids served percentage.
  destruct (locations_found stops Hids) as (locs & Hlocs).
  destruct (@total_distance_path_length np np_ok route stops locs Hlocs)
    as (d & Hd & _ & Hd0).
  assert (Hc0 : Bus.capacity bus <> 0%Z) by lia.
  pose proof (@fitness_of_distance np
                (__init__ population_size generations mutation_rate
                          crossover_rate)
                route stops buses bus d Hd Hd0 Hbus Hc0) as Hf.
  pose proof (@route_metrics_value np route stops buses bus d Hd Hbus Hfuel Hc0)
    as Hm.
  destruct (round_percentage percentage) as (Hnear & Hge & Hgt).
  eexists _, d, _. split; [exact Hm|].
  split; [reflexivity|]. split; [reflexivity|]. split; [exact Hnear|].
  split; [|split; [exact Hgt|]].
  { intro H. apply Hge. unfold percentage.
    pose proof (ratio_ge_one Hcap H) as H1. fold served in H1. lra. }
  split; [exact Hd|]. split; [exact Hf|].
  simpl distance_weight. simpl time_weight. simpl capacity_weight.
  fold served. split; [|split].
  - rewrite min_Qmin. reflexivity.
  - apply Q.le_min_r.
  - intro H. apply Q.min_r. now apply ratio_ge_one.
Qed.

End CapacityUtilization.

Section CapacityUtilizationExamples.
Import Py Loops GeneticAlgorithmOptimizer.

(** A vehicle of 100000 seats serving 100001 students: the percentage
    100.001 is reported as 100.00. *)
Lemma capacity_utilization_not_above_100 :
  let stops := [ Stop.new 1 (0, 0)%Q 100001 ] in
  let route := Route.new 1 [1]%Z in
  let bus := Bus.new 1 100000 in
  (Bus.capacity bus < students_on route stops)%Z
  /\ exists m u,
       _calculate_route_metrics NumpyApprox.np (Some route) stops [bus] = Ok m
       /\ dict_get m "capacity_utilization" = Some (VFloat (Fin u))
       /\ ~ (100 < u)%Q
       /\ ~ (u == inject_Z (students_on route stops)
                  / inject_Z (Bus.capacity bus) * 100)%Q.
Proof.
  intros stops route bus. split; [reflexivity|].
  eexists _, _. split; [vm_compute; reflexivity|].
  split; [reflexivity|]. split; vm_compute; discriminate.
Qed.

Lemma capacity_utilization_uncapped_witness :
  let stops :=
    [ Stop.new 1 (0, 0)%Q 15; Stop.new 2 (0, 9 # 1000)%Q 15;
      Stop.new 3 (9 # 1000, 0)%Q 15; Stop.new 4 (9 # 1000, 9 # 1000)%Q 15 ] in
  let route := Route.new 1 [1; 2; 4; 3]%Z in
  let bus := Bus.new 1 50 in
  let served := students_on route stops in
  let percentage := (inject_Z served / inject_Z (Bus.capacity bus) * 100)%Q in
  exists m d f,
    _calculate_route_metrics NumpyApprox.np (Some route) stops [bus] = Ok m
    /\ dict_get m "students_served" = Some (VInt served)
    /\ dict_get m "capacity_utilization"
       = Some (VFloat (Fin (round percentage 2)))
    /\ (percentage - (1 # 200) <= round percentage 2 <= percentage + (1 # 200))%Q
    /\ ((Bus.capacity bus <= served)%Z -> (100 <= round percentage 2)%Q)
    /\ ((100005 # 1000 < percentage)%Q -> (100 < round percentage 2)%Q)
    /\ _calculate_total_distance NumpyApprox.np route stops = Ok d
    /\ _calculate_fitness NumpyApprox.np (__init__ 10 5 (1 # 10) (8 # 10))
         route stops [bus] = Ok f
    /\ (f == (4 # 10) * (1 / (1 + d / 100))
            + (3 # 10) * (1 / (1 + (d / 30 * 60) / 60))
            + (3 # 10) * Qmin (inject_Z served / inject_Z (Bus.capacity bus)) 1)%Q
    /\ (Qmin (inject_Z served / inject_Z (Bus.capacity bus)) 1 <= 1)%Q
    /\ ((Bus.capacity bus <= served)%Z ->
        (Qmin (inject_Z served / inject_Z (Bus.capacity bus)) 1 == 1)%Q).
Proof.
  intros stops route bus.
  apply (@capacity_utilization_uncapped NumpyApprox.np approx_ok
           10 5 (1 # 10)%Q (8 # 10)%Q route stops [bus] bus).
  - reflexivity.
  - reflexivity.
  - discriminate.
  - repeat constructor; simpl; tauto.
Defined.

Example capacity_utilization_120 :
  round (inject_Z 60 / inject_Z 50 * 100)%Q 2 = (12000 # 100)%Q.
Proof. vm_compute. reflexivity. Qed.

End CapacityUtilizationExamples.

(** ** Degenerate requests *)

Section DegenerateRequests.
Import Py Loops GeneticAlgorithmOptimizer.

Variable np : numpy.

(** Without vehicles the initialisation loop body never runs. *)
Lemma initialize_no_buses (self : t) (stops : list Stop.t) (g : random_state) :
  _initialize_population self stops [] g = Ok ([], g).
Proof.
  unfold _initialize_population.
  assert (H : forall l, mfold (fun (population : list Route.t) (_ : nat) =>
                                 mfold (fun population (bus : Bus.t) =>
                                          n <- randint 3 (length (map Stop.id stops)) ;;
                                          route_stops <-
                                            sample (map Stop.id stops)
                                              (Nat.min (length (map Stop.id stops)) n) ;;
                                          ret (population
                                               ++ [Route.new (Bus.id bus) route_stops]))
                                       [] population)
                              l [] g = Ok ([], g)).
  { induction l as [|x l IH]; simpl; auto. }
  unfold bind at 1. rewrite H. unfold ret. now rewrite firstn_nil.
Qed.

(** C2 -- A request without vehicles is not rejected before the search.
    No check of the vehicle list exists: population initialisation
    returns the empty population without error and without drawing, the
    search starts on it, and [optimize] crashes, on [population[0]] with
    an [IndexError] in the first generation (on the missing best route
    with an [AttributeError] when no generation is configured).  This
    holds whatever the stop list, so for every non-empty one; the
    [ConfigurationError] that should reject the request is never
    raised. *)
Theorem optimize_no_vehicles (self : t) (stops : list stop_dict)
    (constraints : dict) (g : random_state) :
  _initialize_population self (stop_objects stops) (bus_objects []) g
    = Ok ([], g)
  /\ optimize np self stops [] constraints g
     = Raise (match generations self with
              | S _ => IndexError
              | O => AttributeError
              end)
  /\ optimize np self stops [] constraints g <> Raise ConfigurationError.
Proof.
  assert (H : optimize np self stops [] constraints g
              = Raise (match generations self with
                       | S _ => IndexError
                       | O => AttributeError
                       end)).
  { unfold optimize, evolve, bind. simpl bus_objects.
    rewrite initialize_no_buses.
    destruct (generations self); reflexivity. }
  split; [apply initialize_no_buses|]. split; [exact H|].
  rewrite H. destruct (generations self); discriminate.
Qed.

(** Four stops and no vehicle, on the default optimizer: the search
    starts, and [optimize] crashes with an [IndexError] inside the first
    generation instead of rejecting the request with a
    [ConfigurationError]. *)
Lemma optimize_no_vehicles_index_error :
  let stops :=
    [ mkStopDict 1 0 0 (Some 5%Z); mkStopDict 2 0 (9 # 1000) (Some 5%Z);
      mkStopDict 3 (9 # 1000) 0 (Some 5%Z);
      mkStopDict 4 (9 # 1000) (9 # 1000) (Some 5%Z) ] in
  let g := mkRandom (fun n => N.of_nat n) 0 in
  stops <> []
  /\ evolve NumpyApprox.np default (stop_objects stops) (bus_objects []) 0 g
     = Ok (mkSearch [] None NegInf, g)
  /\ evolve NumpyApprox.np default (stop_objects stops) (bus_objects []) 1 g
     = Raise IndexError
  /\ optimize NumpyApprox.np default stops [] [] g = Raise IndexError
  /\ optimize NumpyApprox.np default stops [] [] g <> Raise ConfigurationError.
Proof.
  intros stops g. split; [discriminate|].
  split; [vm_compute; reflexivity|].
  split; [vm_compute; reflexivity|].
  split; [vm_compute; reflexivity|].
  vm_compute. discriminate.
Qed.

(** Without stops the first draw of a route size, [random.randint(3, 0)],
    raises. *)
Lemma initialize_no_stops (self : t) (bus : Bus.t) (buses : list Bus.t)
    (n : nat) (g : random_state) :
  population_size self = S n ->
  _initialize_population self [] (bus :: buses) g = Raise ValueError.
Proof.
  intro H. unfold _initialize_population. rewrite H. reflexivity.
Qed.

(** C3 -- With an empty stop list and at least one vehicle, [optimize]
    returns no result: a positive population size fails on
    [random.randint(3, 0)] during initialisation, a population size of
    zero on the empty population. *)
Theorem optimize_no_stops_raises (self : t) (bus : bus_dict)
    (buses : list bus_dict) (constraints : dict) (g : random_state) :
  optimize np self [] (bus :: buses) constraints g
  = Raise (match population_size self, generations self with
           | S _, _ => ValueError
           | O, S _ => IndexError
           | O, O => AttributeError
           end).
Proof.
  unfold optimize, evolve, bind. simpl bus_objects. simpl stop_objects.
  destruct (population_size self) as [|n] eqn:E.
  - unfold _initialize_population. rewrite E.
    destruct (generations self); reflexivity.
  - rewrite (@initialize_no_stops self _ _ n g E). reflexivity.
Qed.

(** The default optimizer on an empty stop list and one vehicle. *)
Example optimize_no_stops_default :
  optimize NumpyApprox.np default [] [mkBusDict 1 50] []
           (mkRandom (fun n => N.of_nat n) 0)
  = Raise ValueError.
Proof. vm_compute. reflexivity. Qed.

End DegenerateRequests.

(** ** The generational loop *)

Section Generations.
Import Py Loops GeneticAlgorithmOptimizer.

Variable np : numpy.
Variable self : t.
Variable stops : list Stop.t.
Variable buses : list Bus.t.

Lemma xltb_xle (x y : xfloat) : xltb x y = true -> xle x y.
Proof.
  destruct x, y; simpl; try discriminate; auto.
  intro H. apply Qltb_lt in H. now apply Qlt_le_weak.
Qed.

Lemma xle_refl (x : xfloat) : xle x x.
Proof. destruct x; simpl; auto. apply Qle_refl. Qed.

Lemma xle_trans (x y z : xfloat) : xle x y -> xle y z -> xle x z.
Proof.
  destruct x, y, z; simpl; auto; try contradiction.
  apply Qle_trans.
Qed.

(** Running one more generation is running the generations, then one. *)
Lemma run_generations_succ (k : nat) :
  forall (st : search) (g : random_state),
    run_generations np self stops buses (S k) st g
    = bind (run_generations np self stops buses k st)
           (generation np self stops buses) g.
Proof.
  induction k as [|k IH]; intros st g.
  - change (bind (generation np self stops buses st) ret g
            = generation np self stops buses st g).
    apply bind_ret.
  - change (bind (generation np self stops buses st)
                 (run_generations np self stops buses (S k)) g
            = bind (bind (generation np self stops buses st)
                         (run_generations np self stops buses k))
                   (generation np self stops buses) g).
    rewrite bind_assoc. apply bind_ext. intros st' g'. apply IH.
Qed.

(** A generation replaces the tracked best fitness only by a strictly
    greater one; the tracked best route changes with it and carries it. *)
Lemma generation_best (st st' : search) (g g' : random_state) :
  generation np self stops buses st g = Ok (st', g') ->
  (best_fitness st' = best_fitness st /\ best_solution st' = best_solution st)
  \/ (xltb (best_fitness st) (best_fitness st') = true
      /\ exists r, best_solution st' = Some r
                   /\ best_fitness st' = Fin (Route.fitness r)).
Proof.
  unfold generation, bind, lift.
  destruct (rmap _ (population st)) as [evaluated|]; [|discriminate].
  destruct (getitem (sort_desc evaluated) 0) as [first|]; [|discriminate].
  destruct (xltb (best_fitness st) (Fin (Route.fitness first))) eqn:E.
  - destruct (reproduce _ _ _ _ g) as [[new_population g1]|]; [|discriminate].
    unfold ret. intro H. inversion H; subst; simpl.
    right. split; auto. now exists first.
  - destruct (reproduce _ _ _ _ g) as [[new_population g1]|]; [|discriminate].
    unfold ret. intro H. inversion H; subst; simpl. now left.
Qed.

(** The search over one more generation is the search, then a
    generation. *)
Lemma evolve_succ (k : nat) (g : random_state) :
  evolve np self stops buses (S k) g
  = bind (evolve np self stops buses k) (generation np self stops buses) g.
Proof.
  unfold evolve. rewrite bind_assoc. apply bind_ext.
  intros p g0. apply run_generations_succ.
Qed.

(** The best fitness tracked grows, weakly, over a generation. *)
Lemma generation_best_fitness (st st' : search) (g g' : random_state) :
  generation np self stops buses st g = Ok (st', g') ->
  xle (best_fitness st) (best_fitness st')
  /\ (best_fitness st' = best_fitness st
      \/ xltb (best_fitness st) (best_fitness st') = true).
Proof.
  intro H. destruct (generation_best _ _ H) as [[Heq _]|[Hlt _]].
  - split; [rewrite Heq; apply xle_refl | now left].
  - split; [now apply xltb_xle | now right].
Qed.

(** C6 -- The best fitness tracked by [optimize] never decreases from
    one generation to the next: if the search reaches the end of
    generation [k] and of generation [k + 1], the value of [best_fitness]
    after the latter is at least its value after the former, and it
    differs only by being strictly greater.  It starts at minus
    infinity. *)
Theorem best_fitness_non_decreasing
    (k : nat) (g g1 g2 : random_state) (s1 s2 : search) :
  evolve np self stops buses k g = Ok (s1, g1) ->
  evolve np self stops buses (S k) g = Ok (s2, g2) ->
  xle (best_fitness s1) (best_fitness s2)
  /\ (best_fitness s2 = best_fitness s1
      \/ xltb (best_fitness s1) (best_fitness s2) = true)
  /\ (k = 0 -> best_fitness s1 = NegInf).
Proof.
  intros H1 H2.
  rewrite evolve_succ in H2. rewrite (@bind_Ok _ _ _ _ _ _ _ _ H1) in H2.
  destruct (generation_best_fitness _ _ H2) as [Hle Hstep].
  split; [exact Hle|]. split; [exact Hstep|].
  intros ->. unfold evolve, bind in H1.
  destruct (_initialize_population self stops buses g) as [[p g0]|];
    [|discriminate].
  simpl in H1. unfold ret in H1. now inversion H1.
Qed.

End Generations.

Section GenerationsExamples.
Import Py Loops GeneticAlgorithmOptimizer.

(** Four stops on a square of about one kilometre and one vehicle. *)
Lemma best_fitness_non_decreasing_witness :
  let self := __init__ 4 2 (1 # 10) (8 # 10) in
  let stops :=
    stop_objects
      [ mkStopDict 1 0 0 (Some 5%Z); mkStopDict 2 0 (9 # 1000) (Some 5%Z);
        mkStopDict 3 (9 # 1000) 0 (Some 5%Z);
        mkStopDict 4 (9 # 1000) (9 # 1000) (Some 5%Z) ] in
  let buses := bus_objects [ mkBusDict 1 50 ] in
  let g := mkRandom (fun n => (N.of_nat n * 2654435761 + 40503)%N) 0 in
  exists s1 g1 s2 g2,
    evolve NumpyApprox.np self stops buses 1 g = Ok (s1, g1)
    /\ evolve NumpyApprox.np self stops buses 2 g = Ok (s2, g2)
    /\ xle (best_fitness s1) (best_fitness s2)
    /\ (best_fitness s2 = best_fitness s1
        \/ xltb (best_fitness s1) (best_fitness s2) = true)
    /\ (1 = 0 -> best_fitness s1 = NegInf).
Proof.
  intros self stops buses g.
  eexists _, _, _, _.
  split; [vm_compute; reflexivity|].
  split; [vm_compute; reflexivity|].
  eapply (@best_fitness_non_decreasing NumpyApprox.np self stops buses 1 g);
    vm_compute; reflexivity.
Defined.

(** The scenario of the design document on a small configuration: the
    best route found visits the four corners in 3 km, within the perimeter
    of the square, and fills 40% of the vehicle. *)
Example optimize_square :
  let g := mkRandom (fun n => (N.of_nat n * 2654435761 + 40503)%N) 0 in
  Reference.entry
    (optimize NumpyApprox.np (__init__ 3 1 (1 # 10) (8 # 10)) Reference.square
              [ mkBusDict 1 50 ] [] g)
    "metrics"
  = Some (VDict [ ("total_distance_km"%string, VFloat (Fin (300 # 100)));
                  ("estimated_time_minutes"%string, VFloat (Fin (600 # 100)));
                  ("fuel_consumption_liters"%string, VFloat (Fin (38 # 100)));
                  ("students_served"%string, VInt 20);
                  ("capacity_utilization"%string, VFloat (Fin (4000 # 100)));
                  ("stops_count"%string, VInt 4) ]).
Proof. vm_compute. reflexivity. Qed.

End GenerationsExamples.

(** ** The search returns *)

Section SearchReturns.
Import Py Loops GeneticAlgorithmOptimizer Invariant.

Variable np : numpy.
Hypothesis np_ok : numpy_ok np.
Variable self : t.
Variable stops : list Stop.t.
Variable buses : list Bus.t.
Hypothesis request : request_ok self stops buses.

Lemma rmap_Forall {A B} (f : A -> result B) (P : A -> Prop) (Q : B -> Prop)
    (l : list A) :
  (forall x, P x -> exists y, f x = Ok y /\ Q y) ->
  Forall P l ->
  exists ys, rmap f l = Ok ys /\ Forall Q ys /\ length ys = length l.
Proof.
  intros Hf H. induction H as [|x l Hx _ (ys & Hys & HQ & Hlen)]; simpl.
  - exists []. auto.
  - destruct (Hf x Hx) as (y & -> & Hy). rewrite Hys. simpl.
    exists (y :: ys). simpl. auto.
Qed.

Lemma randint_run (a b : nat) (g : random_state) :
  a <= b ->
  exists v g', randint a b g = Ok (v, g') /\ a <= v <= b.
Proof.
  intro H. unfold randint.
  destruct (b <? a) eqn:E; [apply Nat.ltb_lt in E; lia|].
  unfold bind. rewrite randbelow_run. unfold ret.
  eexists _, _. split; [reflexivity|].
  pose proof (@randbelow_lt (b - a + 1) g ltac:(lia)) as Hr.
  set (r := N.to_nat _) in *. lia.
Qed.

Lemma random_run (g : random_state) :
  exists r g', random g = Ok (r, g').
Proof.
  unfold random, bind, draw, ret. eauto.
Qed.

(** One pass over the vehicles adds one route of the request per vehicle. *)
Lemma initialize_vehicles (bs : list Bus.t) :
  incl bs buses ->
  forall (population : list Route.t) (g : random_state),
    Forall (route_ok stops buses) population ->
    exists p g',
      mfold (fun population bus =>
               n <- randint 3 (length (map Stop.id stops)) ;;
               route_stops <-
                 sample (map Stop.id stops)
                        (Nat.min (length (map Stop.id stops)) n) ;;
               ret (population ++ [Route.new (Bus.id bus) route_stops]))
            bs population g = Ok (p, g')
      /\ Forall (route_ok stops buses) p
      /\ length p = length population + length bs.
Proof.
  destruct request as (_ & Hstops & _).
  induction bs as [|bus bs IH]; intros Hincl population g Hp; simpl.
  - exists population, g. unfold ret. repeat split; auto.
  - destruct (@randint_run 3 (length (map Stop.id stops)) g)
      as (n & g1 & Hn & Hrange); [rewrite length_map; lia|].
    unfold bind at 1. unfold bind at 1. rewrite Hn.
    destruct (@sample_ok _ (map Stop.id stops)
                (Nat.min (length (map Stop.id stops)) n) g1)
      as (l & rest & g2 & Hs & _ & Hperm); [lia|].
    unfold bind at 1. rewrite Hs. unfold ret at 1.
    destruct (IH (fun x Hx => Hincl x (or_intror Hx))
                 (population ++ [Route.new (Bus.id bus) l]) g2)
      as (p & g' & Hrun & Hok & Hlen).
    { apply Forall_app. split; auto. repeat constructor; simpl.
      - apply in_map. apply Hincl. simpl. auto.
      - eapply sample_incl; eauto. }
    exists p, g'. repeat split; auto.
    rewrite Hlen, length_app. simpl. lia.
Qed.

Lemma initialize_rounds (rounds : list nat) :
  forall (population : list Route.t) (g : random_state),
    Forall (route_ok stops buses) population ->
    exists p g',
      mfold (fun population (_ : nat) =>
               mfold (fun population bus =>
                        n <- randint 3 (length (map Stop.id stops)) ;;
                        route_stops <-
                          sample (map Stop.id stops)
                                 (Nat.min (length (map Stop.id stops)) n) ;;
                        ret (population ++ [Route.new (Bus.id bus) route_stops]))
                     buses population)
            rounds population g = Ok (p, g')
      /\ Forall (route_ok stops buses) p
      /\ length p = length population + length rounds * length buses.
Proof.
  induction rounds as [|x rounds IH]; intros population g Hp; simpl.
  - exists population, g. unfold ret. repeat split; auto.
  - destruct (@initialize_vehicles buses (incl_refl _) population g Hp)
      as (p1 & g1 & Hrun1 & Hok1 & Hlen1).
    unfold bind at 1. rewrite Hrun1.
    destruct (IH p1 g1 Hok1) as (p & g' & Hrun & Hok & Hlen).
    exists p, g'. repeat split; auto. lia.
Qed.

Lemma Forall_firstn {A} (P : A -> Prop) (n : nat) (l : list A) :
  Forall P l -> Forall P (firstn n l).
Proof.
  intro H. apply Forall_forall. intros x Hx.
  rewrite Forall_forall in H. apply H. eapply In_firstn; eauto.
Qed.

(** Initialisation returns a population of the configured size. *)
Lemma initialize_population_ok (g : random_state) :
  exists p g',
    _initialize_population self stops buses g = Ok (p, g')
    /\ population_ok self stops buses p.
Proof.
  destruct request as (Hps & _ & Hbuses & _).
  unfold _initialize_population. cbv zeta.
  destruct (@initialize_rounds (seq 0 (population_size self)) [] g)
    as (p & g' & Hrun & Hok & Hlen); [constructor|].
  step_with Hrun. unfold ret.
  eexists _, g'. split; [reflexivity|]. split.
  - rewrite length_firstn, Hlen, length_seq. simpl.
    destruct buses as [|b bs]; [contradiction|]. simpl. nia.
  - now apply Forall_firstn.
Qed.


Lemma bus_of_route (r : Route.t) :
  route_ok stops buses r ->
  exists bus,
    find (fun b => Z.eqb (Bus.id b) (Route.bus_id r)) buses = Some bus
    /\ Bus.capacity bus <> 0%Z
    /\ ~ (Bus.fuel_efficiency bus == 0)%Q.
Proof.
  intros [Hbus _]. destruct request as (_ & _ & _ & Hcap).
  destruct (find _ buses) as [bus|] eqn:E.
  - exists bus. split; auto.
    apply find_some in E. destruct E as [Hin _].
    rewrite Forall_forall in Hcap. now apply Hcap.
  - exfalso. apply in_map_iff in Hbus. destruct Hbus as (b & Hb & Hin).
    pose proof (find_none _ _ E b Hin) as Hn. simpl in Hn.
    rewrite Hb, Z.eqb_refl in Hn. discriminate.
Qed.

Lemma stops_of_route (r : Route.t) :
  route_ok stops buses r ->
  Forall (fun stop_id => In stop_id (map Stop.id stops)) (Route.stops r).
Proof.
  intros [_ H]. apply Forall_forall. exact H.
Qed.

(** The distance of a route of the request is defined and not negative. *)
Lemma total_distance_returns (r : Route.t) :
  route_ok stops buses r ->
  exists d, _calculate_total_distance np r stops = Ok d /\ (0 <= d)%Q.
Proof.
  intro Hr.
  destruct (locations_found stops (stops_of_route Hr)) as (locs & Hlocs).
  destruct (@total_distance_path_length np np_ok r stops locs Hlocs)
    as (d & Hd & _ & Hd0).
  eauto.
Qed.

(** The fitness of a route of the request is defined. *)
Lemma fitness_returns (r : Route.t) :
  route_ok stops buses r ->
  exists f, _calculate_fitness np self r stops buses = Ok f.
Proof.
  intro Hr.
  destruct (total_distance_returns Hr) as (d & Hd & Hd0).
  destruct (bus_of_route Hr) as (bus & Hbus & Hcap & _).
  rewrite (@fitness_of_distance np self r stops buses bus d Hd Hd0 Hbus Hcap).
  eauto.
Qed.

(** Evaluation keeps the population, up to the scores. *)
Lemma evaluate_population (p : list Route.t) :
  population_ok self stops buses p ->
  exists evaluated,
    rmap (fun route =>
            f <-! _calculate_fitness np self route stops buses ;;
            Ok (Route.set_fitness route f)) p = Ok evaluated
    /\ population_ok self stops buses evaluated.
Proof.
  intros [Hlen Hok].
  destruct (@rmap_Forall _ _
              (fun route =>
                 f <-! _calculate_fitness np self route stops buses ;;
                 Ok (Route.set_fitness route f))
              (route_ok stops buses) (route_ok stops buses) p)
    as (evaluated & Hrun & Hok' & Hlen'); auto.
  - intros r Hr. destruct (fitness_returns Hr) as (f & ->). simpl.
    eexists. split; [reflexivity|]. exact Hr.
  - exists evaluated. split; auto. split; auto. congruence.
Qed.

Lemma insert_desc_permutation (x : Route.t) (l : list Route.t) :
  Permutation (insert_desc x l) (x :: l).
Proof.
  induction l as [|y l IH]; simpl; auto.
  destruct (Qltb (Route.fitness x) (Route.fitness y)); auto.
  transitivity (y :: x :: l); [now apply perm_skip | apply perm_swap].
Qed.

(** Sorting rearranges the population. *)
Lemma sort_desc_permutation (l : list Route.t) : Permutation (sort_desc l) l.
Proof.
  unfold sort_desc. induction l as [|x l IH]; simpl; auto.
  transitivity (x :: fold_right insert_desc [] l).
  - apply insert_desc_permutation.
  - now apply perm_skip.
Qed.

Lemma population_ok_permutation (p p' : list Route.t) :
  Permutation p' p ->
  population_ok self stops buses p -> population_ok self stops buses p'.
Proof.
  intros Hp [Hlen Hok]. split.
  - rewrite <- Hlen. now apply Permutation_length.
  - eapply Permutation_Forall; [apply Permutation_sym, Hp | exact Hok].
Qed.

Lemma max_by_fitness_In (l : list Route.t) (x : Route.t) :
  In (fold_left
        (fun best y =>
           if Qltb (Route.fitness best) (Route.fitness y) then y else best)
        l x)
     (x :: l).
Proof.
  revert x. induction l as [|y l IH]; intro x; simpl; auto.
  destruct (Qltb (Route.fitness x) (Route.fitness y)).
  - destruct (IH y) as [H|H]; auto.
  - destruct (IH x) as [H|H]; auto.
Qed.

(** A tournament over a population of at least three routes returns one
    of them. *)
Lemma tournament_returns (p : list Route.t) (g : random_state) :
  3 <= length p ->
  exists r g', _tournament_selection p 3 g = Ok (r, g') /\ In r p.
Proof.
  intro H. unfold _tournament_selection.
  destruct (@sample_ok _ p 3 g H) as (l & rest & g' & Hs & Hl & Hperm).
  step_with Hs.
  destruct l as [|x l]; [discriminate|].
  unfold lift, max_by_fitness. eexists _, g'. split; [reflexivity|].
  eapply sample_incl; [exact Hperm|]. apply max_by_fitness_In.
Qed.

Lemma slice_incl {A} (l : list A) (a b : nat) : incl (slice l a b) l.
Proof.
  intros x Hx. unfold slice in Hx.
  apply In_skipn in Hx. now apply In_firstn in Hx.
Qed.

Lemma fill_incl (donor : list Z) (ids : list Z) :
  incl donor ids ->
  forall (child : list Z) (limit : nat),
    incl child ids -> incl (fill child donor limit) ids.
Proof.
  unfold fill. induction donor as [|stop donor IH]; intros Hd child limit Hc;
    simpl; auto.
  apply IH.
  - intros x Hx. apply Hd. simpl. auto.
  - destruct (negb (existsb (Z.eqb stop) child) && (length child <? limit));
      auto.
    apply incl_app; auto. intros x [<-|[]]. apply Hd. simpl. auto.
Qed.

(** Crossover of routes of the request gives routes of the request. *)
Lemma crossover_ok (parent1 parent2 : Route.t) (g : random_state) :
  route_ok stops buses parent1 -> route_ok stops buses parent2 ->
  exists child1 child2 g',
    _crossover parent1 parent2 g = Ok ((child1, child2), g')
    /\ route_ok stops buses child1 /\ route_ok stops buses child2.
Proof.
  intros [Hb1 Hs1] [Hb2 Hs2].
  destruct (crossover_returns parent1 parent2 g)
    as (child1 & child2 & g' & Hrun & Hbus1 & Hbus2 & Hshape).
  exists child1, child2, g'. split; [exact Hrun|].
  unfold route_ok. rewrite Hbus1, Hbus2.
  destruct Hshape as [[-> ->] | (start & end_ & -> & ->)].
  - auto.
  - repeat split; auto; apply fill_incl; auto;
      (eapply incl_tran; [apply slice_incl | assumption]).
Qed.

(** Mutation of a route of the request gives a route of the request. *)
Lemma mutate_ok (route : Route.t) (g : random_state) :
  route_ok stops buses route ->
  exists mutated g',
    _mutate route g = Ok (mutated, g') /\ route_ok stops buses mutated.
Proof.
  intros [Hb Hs].
  destruct (mutate_returns route g) as (mutated & g' & Hrun & Hbus & Hp & _).
  exists mutated, g'. split; [exact Hrun|].
  unfold route_ok. rewrite Hbus. split; auto.
  intros x Hx. apply Hs. eapply Permutation_in; eauto.
Qed.

Lemma maybe_mutate_ok (c : bool) (route : Route.t) (g : random_state) :
  route_ok stops buses route ->
  exists mutated g',
    (if c then _mutate route else ret route) g = Ok (mutated, g')
    /\ route_ok stops buses mutated.
Proof.
  intro H. destruct c.
  - now apply mutate_ok.
  - exists route, g. auto.
Qed.

(** One pass of the reproduction loop gives two routes of the request. *)
Lemma offspring_ok (p : list Route.t) (g : random_state) :
  3 <= length p ->
  Forall (route_ok stops buses) p ->
  exists child1 child2 g',
    offspring self p g = Ok ((child1, child2), g')
    /\ route_ok stops buses child1 /\ route_ok stops buses child2.
Proof.
  intros Hlen Hok. rewrite Forall_forall in Hok. unfold offspring.
  destruct (@tournament_returns p g Hlen) as (p1 & g1 & H1 & Hin1).
  step_with H1.
  destruct (@tournament_returns p g1 Hlen) as (p2 & g2 & H2 & Hin2).
  step_with H2.
  destruct (random_run g2) as (r & g3 & Hr).
  step_with Hr.
  assert (Hcross : exists c1 c2 g4,
             (if Qltb r (crossover_rate self) then _crossover p1 p2
              else ret (p1, p2)) g3 = Ok ((c1, c2), g4)
             /\ route_ok stops buses c1 /\ route_ok stops buses c2).
  { destruct (Qltb r (crossover_rate self)).
    - apply crossover_ok; auto.
    - exists p1, p2, g3. auto. }
  destruct Hcross as (c1 & c2 & g4 & Hc & Hc1 & Hc2).
  step_with Hc.
  destruct (random_run g4) as (r1 & g5 & Hr1).
  step_with Hr1.
  destruct (@maybe_mutate_ok (Qltb r1 (mutation_rate self)) c1 g5 Hc1)
    as (m1 & g6 & Hm1 & Hok1).
  step_with Hm1.
  destruct (random_run g6) as (r2 & g7 & Hr2).
  step_with Hr2.
  destruct (@maybe_mutate_ok (Qltb r2 (mutation_rate self)) c2 g7 Hc2)
    as (m2 & g8 & Hm2 & Hok2).
  step_with Hm2.
  exists m1, m2, g8. auto.
Qed.


(** The reproduction loop adds routes of the request until none is
    missing.  It draws only when routes are missing, and then from a
    population of at least three. *)
Lemma reproduce_ok (p : list Route.t) (deficit : nat) :
  deficit = 0 \/ 3 <= length p ->
  Forall (route_ok stops buses) p ->
  forall (new_population : list Route.t) (g : random_state),
    Forall (route_ok stops buses) new_population ->
    exists refilled g',
      reproduce self deficit p new_population g = Ok (refilled, g')
      /\ Forall (route_ok stops buses) refilled
      /\ length new_population + deficit <= length refilled.
Proof.
  intros Hd Hp.
  induction deficit as [d IH] using lt_wf_ind. intros new_population g Hn.
  destruct d as [|d].
  - exists new_population, g. simpl. unfold ret. repeat split; auto. lia.
  - destruct Hd as [Hd|Hd]; [discriminate|].
    destruct (@offspring_ok p g Hd Hp) as (c1 & c2 & g1 & Hrun & Hc1 & Hc2).
    cbn [reproduce]. step_with Hrun. cbv beta iota.
    assert (Hn1 : Forall (route_ok stops buses) (new_population ++ [c1; c2])).
    { apply Forall_app. split; auto. }
    destruct d as [|d].
    + eexists _, g1. unfold ret. split; [reflexivity|]. split; auto.
      rewrite length_app. simpl. lia.
    + destruct (IH d ltac:(lia) (or_intror Hd) (new_population ++ [c1; c2]) g1 Hn1)
        as (refilled & g' & Hr & Hok & Hlen).
      exists refilled, g'. repeat split; auto.
      rewrite length_app in Hlen. simpl in Hlen. lia.
Qed.

Lemma slice_from_start {A} (l : list A) (n : nat) : slice l 0 n = firstn n l.
Proof. reflexivity. Qed.

(** A generation on a population of the request returns: the next
    population is again a population of the request, and a best route is
    tracked from then on. *)
Lemma generation_returns (st : search) (g : random_state) :
  population_ok self stops buses (population st) ->
  best_fitness st = NegInf \/ best_ok stops buses st ->
  exists st' g',
    generation np self stops buses st g = Ok (st', g')
    /\ population_ok self stops buses (population st')
    /\ best_ok stops buses st'.
Proof.
  intros Hpop Hbest.
  destruct request as (Hps & _).
  destruct (evaluate_population Hpop) as (evaluated & Heval & Hev).
  pose proof (population_ok_permutation (sort_desc_permutation evaluated) Hev)
    as [Hslen Hsok].
  unfold generation.
  step_pure Heval.
  set (sorted := sort_desc evaluated) in *.
  destruct (@getitem_lt _ sorted 0) as (first & Hnth & Hget); [lia|].
  step_pure Hget.
  assert (Hfirst : route_ok stops buses first).
  { rewrite Forall_forall in Hsok. apply Hsok. eapply nth_error_In; eauto. }
  set (kept := slice sorted 0 2).
  assert (Hkept : Forall (route_ok stops buses) kept).
  { unfold kept. rewrite slice_from_start. now apply Forall_firstn. }
  assert (Hklen : length kept = Nat.min 2 (population_size self)).
  { unfold kept. rewrite slice_from_start, length_firstn. lia. }
  destruct (@reproduce_ok sorted (population_size self - length kept)
              ltac:(lia) Hsok kept g Hkept)
    as (refilled & g' & Hrun & Hrok & Hrlen).
  assert (Hnext : population_ok self stops buses
                    (slice refilled 0 (population_size self))).
  { split.
    - rewrite slice_from_start, length_firstn. lia.
    - rewrite slice_from_start. now apply Forall_firstn. }
  destruct (xltb (best_fitness st) (Fin (Route.fitness first))) eqn:E.
  - step_with Hrun. unfold ret.
    eexists _, g'. split; [reflexivity|]. split; [exact Hnext|].
    exists first. auto.
  - step_with Hrun. unfold ret.
    eexists _, g'. split; [reflexivity|]. split; [exact Hnext|].
    destruct Hbest as [Hinf|Hbest]; [rewrite Hinf in E; discriminate|].
    exact Hbest.
Qed.

(** Any number of generations from a population of the request returns. *)
Lemma run_generations_returns (k : nat) :
  forall (st : search) (g : random_state),
    population_ok self stops buses (population st) ->
    best_fitness st = NegInf \/ best_ok stops buses st ->
    exists st' g',
      run_generations np self stops buses k st g = Ok (st', g')
      /\ population_ok self stops buses (population st')
      /\ (1 <= k -> best_ok stops buses st').
Proof.
  induction k as [|k IH]; intros st g Hpop Hbest.
  - exists st, g. split; [reflexivity|]. split; [exact Hpop|]. intro H. lia.
  - destruct (@generation_returns st g Hpop Hbest) as (st1 & g1 & Hgen & Hpop1 & Hb1).
    destruct (IH st1 g1 Hpop1 (or_intror Hb1)) as (st' & g' & Hrun & Hpop' & Hb').
    exists st', g'. split; [|split; auto].
    + cbn [run_generations]. step_with Hgen. exact Hrun.
    + intros _. destruct k as [|k]; [|apply Hb'; lia].
      simpl in Hrun. unfold ret in Hrun. inversion Hrun; subst. exact Hb1.
Qed.

(** On a request the search can run on, it returns after any number of
    generations, whatever the generator state: the population keeps the
    configured size, and from the first generation on a best route is
    tracked. *)
Lemma evolve_returns (k : nat) (g : random_state) :
  exists st g',
    evolve np self stops buses k g = Ok (st, g')
    /\ population_ok self stops buses (population st)
    /\ (1 <= k -> best_ok stops buses st).
Proof.
  destruct (initialize_population_ok g) as (p & g0 & Hinit & Hpop).
  destruct (@run_generations_returns k (mkSearch p None NegInf) g0 Hpop
              (or_introl eq_refl))
    as (st & g' & Hrun & Hok & Hbest).
  exists st, g'. split; auto.
  unfold evolve. step_with Hinit. exact Hrun.
Qed.

(** On such a request the best fitness is defined after every generation
    and never decreases. *)
Corollary best_fitness_trajectory (k : nat) (g : random_state) :
  exists s1 g1 s2 g2,
    evolve np self stops buses k g = Ok (s1, g1)
    /\ evolve np self stops buses (S k) g = Ok (s2, g2)
    /\ xle (best_fitness s1) (best_fitness s2).
Proof.
  destruct (evolve_returns k g) as (s1 & g1 & H1 & _).
  destruct (evolve_returns (S k) g) as (s2 & g2 & H2 & _).
  exists s1, g1, s2, g2. split; [exact H1|]. split; [exact H2|].
  rewrite evolve_succ in H2. rewrite (@bind_Ok _ _ _ _ _ _ _ _ H1) in H2.
  now destruct (@generation_best_fitness np self stops buses s1 s2 g1 g2 H2).
Qed.

End SearchReturns.

Section OptimizeReturns.
Import Py Loops GeneticAlgorithmOptimizer Invariant.

Variable np : numpy.
Hypothesis np_ok : numpy_ok np.

Lemma request_objects_ok (self : t) (stops : list stop_dict)
    (buses : list bus_dict) :
  1 <= population_size self ->
  3 <= length stops ->
  buses <> [] ->
  Forall (fun b => bd_capacity b <> 0%Z) buses ->
  request_ok self (stop_objects stops) (bus_objects buses).
Proof.
  intros Hps Hstops Hbuses Hcap. unfold request_ok, stop_objects, bus_objects.
  rewrite length_map. repeat split; auto.
  - destruct buses; [contradiction | discriminate].
  - apply Forall_map. eapply Forall_impl; [|exact Hcap].
    intros b Hb. simpl. split; [exact Hb | discriminate].
Qed.

(** A best route of the request is formatted without a failed lookup. *)
Lemma format_routes_returns (stops : list Stop.t) (buses : list Bus.t)
    (r : Route.t) :
  route_ok stops buses r ->
  exists formatted,
    _format_routes [r] stops
    = Ok [ VDict [ ("bus_id"%string, VInt (Route.bus_id r));
                   ("stops"%string, VList formatted);
                   ("fitness_score"%string,
                     VFloat (Fin (round (Route.fitness r) 4))) ] ]
    /\ length formatted = length (Route.stops r).
Proof.
  intros [_ Hs]. unfold _format_routes. cbn [rmap].
  destruct (@rmap_total _ _
              (fun '(idx, stop_id) =>
                 stop <-! stop_by_id stops stop_id ;;
                 Ok (VDict [ ("id"%string, VInt stop_id);
                             ("location"%string,
                               VTuple [ VFloat (Fin (fst (Stop.location stop)));
                                        VFloat (Fin (snd (Stop.location stop))) ]);
                             ("sequence"%string, VInt (Z.of_nat idx)) ]))
              (enumerate (Route.stops r)))
    as (formatted & Hf & Hlen).
  { intros [idx stop_id] Hin. apply in_combine_r in Hin.
    destruct (@stop_by_id_found stops stop_id (Hs _ Hin)) as (s & -> & _).
    simpl. eauto. }
  rewrite Hf. cbn [rbind]. exists formatted. split; [reflexivity|].
  rewrite Hlen. unfold enumerate.
  rewrite length_combine, length_seq. apply Nat.min_id.
Qed.

(** On a request with at least three stops and at least one vehicle, none
    of zero capacity, an optimizer configured with at least one route and
    one generation returns a result, whatever the generator state: one
    formatted route, its metrics, and a finite best fitness. *)
Theorem optimize_returns (self : t) (stops : list stop_dict)
    (buses : list bus_dict) (constraints : dict) (g : random_state) :
  1 <= population_size self ->
  1 <= generations self ->
  3 <= length stops ->
  buses <> [] ->
  Forall (fun b => bd_capacity b <> 0%Z) buses ->
  exists route metrics fitness g',
    optimize np self stops buses constraints g
    = Ok ([ ("routes"%string, VList [route]);
            ("metrics"%string, VDict metrics);
            ("generations"%string, VInt (Z.of_nat (generations self)));
            ("final_fitness"%string, VFloat (Fin fitness)) ], g').
Proof.
  intros Hps Hgen Hstops Hbuses Hcap.
  pose proof (@request_objects_ok self stops buses Hps Hstops Hbuses Hcap)
    as Hreq.
  destruct (@evolve_returns np np_ok self _ _ Hreq (generations self) g)
    as (st & g' & Hrun & _ & Hbest).
  destruct (Hbest Hgen) as (r & Hsol & Hr & Hfit).
  destruct (@total_distance_returns np np_ok _ _ r Hr) as (d & Hd & _).
  destruct (@bus_of_route self _ _ Hreq r Hr) as (bus & Hbus & Hc & Hfuel).
  pose proof (@route_metrics_value np r _ _ bus d Hd Hbus Hfuel Hc) as Hm.
  destruct (@format_routes_returns _ (bus_objects buses) r Hr)
    as (formatted & Hf & _).
  unfold optimize. cbv zeta.
  step_with Hrun.
  rewrite Hsol, Hfit.
  step_pure Hm. step_pure Hf.
  unfold ret. eexists _, _, _, g'. reflexivity.
Qed.

End OptimizeReturns.

(** ** Reproducibility *)

Section Reproducibility.
Import Py Loops GeneticAlgorithmOptimizer Invariant.

Variable np : numpy.
Hypothesis np_ok : numpy_ok np.

Lemma reproducible_ret {A} (a : A) : reproducible (ret a).
Proof. intros g1 g2 H. unfold ret. simpl. auto. Qed.

Lemma reproducible_raise {A} (e : exn) : reproducible (@raise random_state A e).
Proof. intros g1 g2 H. reflexivity. Qed.

Lemma reproducible_lift {A} (r : result A) : reproducible (lift r).
Proof. intros g1 g2 H. unfold lift. destruct r; simpl; auto. Qed.

Lemma reproducible_bind {A B} (m : M A) (k : A -> M B) :
  reproducible m -> (forall a, reproducible (k a)) -> reproducible (bind m k).
Proof.
  intros Hm Hk g1 g2 H. specialize (Hm g1 g2 H). unfold bind.
  destruct (m g1) as [[a1 g1']|e1], (m g2) as [[a2 g2']|e2];
    simpl in Hm; try contradiction.
  - destruct Hm as [-> Hs]. now apply Hk.
  - exact Hm.
Qed.

(** A raw draw reads the stream at the cursor and moves the cursor on. *)
Lemma reproducible_draw : reproducible draw.
Proof.
  intros g1 g2 [Hc Hs]. unfold draw. simpl. split; [|split].
  - rewrite <- Hc. apply Hs. lia.
  - simpl. now rewrite Hc.
  - simpl. intros n Hn. apply Hs. lia.
Qed.

Ltac repro_step :=
  first
    [ apply reproducible_ret
    | apply reproducible_raise
    | apply reproducible_lift
    | apply reproducible_draw
    | assumption
    | apply reproducible_bind; [|intro]
    | match goal with
      | |- reproducible (if ?c then _ else _) => destruct c
      | |- reproducible (match ?x with _ => _ end) => destruct x
      end ].

Ltac repro := cbv zeta; repeat repro_step.

Lemma reproducible_randbelow (n : nat) : reproducible (randbelow n).
Proof. unfold randbelow. repro. Qed.

Lemma reproducible_random : reproducible random.
Proof. unfold random. repro. Qed.

Lemma reproducible_randint (a b : nat) : reproducible (randint a b).
Proof. unfold randint. repro. Qed.

Lemma reproducible_sample_pool {A} (k : nat) :
  forall pool : list A, reproducible (sample_pool k pool).
Proof.
  induction k as [|k IH]; intro pool; cbn [sample_pool].
  - apply reproducible_ret.
  - cbv zeta. apply reproducible_bind; [apply reproducible_randbelow|].
    intro j.
    destruct (nth_error pool j), (nth_error pool (length pool - 1));
      try apply reproducible_raise.
    apply reproducible_bind; [apply IH | intro; apply reproducible_ret].
Qed.

Lemma reproducible_sample {A} (population : list A) (k : nat) :
  reproducible (sample population k).
Proof.
  unfold sample. destruct (length population <? k).
  - apply reproducible_raise.
  - apply reproducible_sample_pool.
Qed.

Lemma reproducible_mfold {A B} (f : A -> B -> M A) (l : list B) :
  (forall a x, reproducible (f a x)) ->
  forall a, reproducible (mfold f l a).
Proof.
  intro Hf. induction l as [|x l IH]; intro a; cbn [mfold].
  - apply reproducible_ret.
  - apply reproducible_bind; [apply Hf | exact IH].
Qed.

Lemma reproducible_initialize_population (self : t) (stops : list Stop.t)
    (buses : list Bus.t) :
  reproducible (_initialize_population self stops buses).
Proof.
  unfold _initialize_population. cbv zeta.
  apply reproducible_bind; [|intro; apply reproducible_ret].
  apply reproducible_mfold. intros population _.
  apply reproducible_mfold. intros population' bus.
  apply reproducible_bind; [apply reproducible_randint | intro n].
  apply reproducible_bind; [apply reproducible_sample | intro route_stops].
  apply reproducible_ret.
Qed.

Lemma reproducible_tournament_selection (population : list Route.t)
    (tournament_size : nat) :
  reproducible (_tournament_selection population tournament_size).
Proof.
  unfold _tournament_selection.
  apply reproducible_bind; [apply reproducible_sample|].
  intro. apply reproducible_lift.
Qed.

Lemma reproducible_crossover (parent1 parent2 : Route.t) :
  reproducible (_crossover parent1 parent2).
Proof.
  unfold _crossover.
  destruct ((length (Route.stops parent1) <? 2)
            || (length (Route.stops parent2) <? 2));
    [apply reproducible_ret|].
  cbv zeta. apply reproducible_bind; [apply reproducible_sample | intro cuts].
  destruct (sorted cuts) as [|start [|end_ [|]]];
    first [apply reproducible_raise | apply reproducible_ret].
Qed.

Lemma reproducible_mutate (route : Route.t) : reproducible (_mutate route).
Proof.
  unfold _mutate.
  destruct (length (Route.stops route) <? 2); [apply reproducible_ret|].
  cbv zeta. apply reproducible_bind; [apply reproducible_sample | intro picks].
  destruct picks as [|i [|j [|]]]; try apply reproducible_raise.
  repro.
Qed.

Lemma reproducible_offspring (self : t) (population : list Route.t) :
  reproducible (offspring self population).
Proof.
  unfold offspring.
  apply reproducible_bind; [apply reproducible_tournament_selection|].
  intro parent1.
  apply reproducible_bind; [apply reproducible_tournament_selection|].
  intro parent2.
  apply reproducible_bind; [apply reproducible_random | intro r].
  apply reproducible_bind.
  { destruct (Qltb r (crossover_rate self));
      [apply reproducible_crossover | apply reproducible_ret]. }
  intros [child1 child2].
  apply reproducible_bind; [apply reproducible_random | intro r1].
  apply reproducible_bind.
  { destruct (Qltb r1 (mutation_rate self));
      [apply reproducible_mutate | apply reproducible_ret]. }
  intro child1'.
  apply reproducible_bind; [apply reproducible_random | intro r2].
  apply reproducible_bind.
  { destruct (Qltb r2 (mutation_rate self));
      [apply reproducible_mutate | apply reproducible_ret]. }
  intro child2'. apply reproducible_ret.
Qed.

Lemma reproducible_reproduce (self : t) (population : list Route.t)
    (deficit : nat) :
  forall new_population,
    reproducible (reproduce self deficit population new_population).
Proof.
  induction deficit as [deficit IH] using lt_wf_ind. intro new_population.
  destruct deficit as [|[|d]]; cbn [reproduce].
  - apply reproducible_ret.
  - apply reproducible_bind; [apply reproducible_offspring|].
    intros [child1 child2]. apply reproducible_ret.
  - apply reproducible_bind; [apply reproducible_offspring|].
    intros [child1 child2]. apply IH. lia.
Qed.

Lemma reproducible_generation (self : t) (stops : list Stop.t)
    (buses : list Bus.t) (st : search) :
  reproducible (generation np self stops buses st).
Proof.
  unfold generation.
  apply reproducible_bind; [apply reproducible_lift | intro evaluated].
  cbv zeta.
  apply reproducible_bind; [apply reproducible_lift | intro first].
  destruct (xltb (best_fitness st) (Fin (Route.fitness first)));
    (apply reproducible_bind;
     [apply reproducible_reproduce | intro; apply reproducible_ret]).
Qed.

Lemma reproducible_run_generations (self : t) (stops : list Stop.t)
    (buses : list Bus.t) (g : nat) :
  forall st, reproducible (run_generations np self stops buses g st).
Proof.
  induction g as [|g IH]; intro st; cbn [run_generations].
  - apply reproducible_ret.
  - apply reproducible_bind; [apply reproducible_generation | exact IH].
Qed.

(** The outcome of [optimize] depends on the generator through the draws
    it delivers only. *)
Lemma reproducible_optimize (self : t) (stops : list stop_dict)
    (buses : list bus_dict) (constraints : dict) :
  reproducible (optimize np self stops buses constraints).
Proof.
  unfold optimize, evolve. cbv zeta.
  apply reproducible_bind.
  { apply reproducible_bind; [apply reproducible_initialize_population|].
    intro. apply reproducible_run_generations. }
  intro st.
  apply reproducible_bind; [apply reproducible_lift | intro metrics].
  apply reproducible_bind; [apply reproducible_lift | intro routes].
  apply reproducible_ret.
Qed.

(** C7 -- The genetic optimizer is reproducible.  The search draws from
    the [random] module only, whose state is the generator given to a
    run: two runs of [optimize] on the same stops, vehicles and
    constraints, from generator states that deliver the same draws (as
    the states set from one seed do), end alike, either with the same
    result, leaving generators that again deliver the same draws, or
    with the same exception.  On a request with at least three stops and
    a vehicle, none of zero capacity, for at least one route and one
    generation, both runs return, with the same formatted route and the
    same metrics. *)
Theorem optimize_reproducible (self : t) (stops : list stop_dict)
    (buses : list bus_dict) (constraints : dict) (g1 g2 : random_state) :
  same_draws g1 g2 ->
  same_outcome (optimize np self stops buses constraints g1)
               (optimize np self stops buses constraints g2)
  /\ (1 <= population_size self ->
      1 <= generations self ->
      3 <= length stops ->
      buses <> [] ->
      Forall (fun b => bd_capacity b <> 0%Z) buses ->
      exists route metrics fitness g1' g2',
        let result :=
          [ ("routes"%string, VList [route]);
            ("metrics"%string, VDict metrics);
            ("generations"%string, VInt (Z.of_nat (generations self)));
            ("final_fitness"%string, VFloat (Fin fitness)) ] in
        optimize np self stops buses constraints g1 = Ok (result, g1')
        /\ optimize np self stops buses constraints g2 = Ok (result, g2')
        /\ same_draws g1' g2').
Proof.
  intro Hsame.
  pose proof (@reproducible_optimize self stops buses constraints g1 g2 Hsame)
    as Hout.
  split; [exact Hout|].
  intros Hps Hgen Hstops Hbuses Hcap.
  destruct (@optimize_returns np np_ok self stops buses constraints g1
              Hps Hgen Hstops Hbuses Hcap)
    as (route & metrics & fitness & g1' & H1).
  destruct (@optimize_returns np np_ok self stops buses constraints g2
              Hps Hgen Hstops Hbuses Hcap)
    as (route2 & metrics2 & fitness2 & g2' & H2).
  rewrite H1, H2 in Hout. simpl in Hout. destruct Hout as [Heq Hs].
  exists route, metrics, fitness, g1', g2'. cbv zeta.
  split; [exact H1|]. split; [|exact Hs].
  rewrite H2. now rewrite <- Heq.
Qed.

End Reproducibility.

Section ReproducibilityExamples.
Import Py Loops GeneticAlgorithmOptimizer Invariant.

(** Two generators that differ in what they held before their cursor. *)
Lemma optimize_reproducible_witness :
  let g1 := mkRandom (fun n => N.of_nat (7 * n + 3)) 5 in
  let g2 := mkRandom (fun n => if n <? 5 then 0%N else N.of_nat (7 * n + 3)) 5 in
  let buses := [ mkBusDict 1 50 ] in
  same_outcome (optimize NumpyApprox.np default Reference.square buses [] g1)
               (optimize NumpyApprox.np default Reference.square buses [] g2)
  /\ exists route metrics fitness g1' g2',
       let result :=
         [ ("routes"%string, VList [route]);
           ("metrics"%string, VDict metrics);
           ("generations"%string, VInt 100);
           ("final_fitness"%string, VFloat (Fin fitness)) ] in
       optimize NumpyApprox.np default Reference.square buses [] g1
       = Ok (result, g1')
       /\ optimize NumpyApprox.np default Reference.square buses [] g2
          = Ok (result, g2')
       /\ same_draws g1' g2'.
Proof.
  intros g1 g2 buses.
  assert (Hsame : same_draws g1 g2).
  { split; [reflexivity|]. intros n Hn. cbn [stream cursor g1 g2] in *.
    destruct (n <? 5) eqn:E; [apply Nat.ltb_lt in E; lia | reflexivity]. }
  pose proof (@optimize_reproducible NumpyApprox.np approx_ok default
                Reference.square buses [] g1 g2 Hsame) as [Hout Hret].
  split; [exact Hout|].
  apply Hret.
  - cbn. lia.
  - cbn. lia.
  - cbn. lia.
  - discriminate.
  - repeat constructor. discriminate.
Defined.

End ReproducibilityExamples.

(** ** Bounds on powers *)

Section PowerBounds.
Import Interval.

Lemma round_down_le (x : Q) : (round_down x <= x)%Q.
Proof.
  unfold round_down.
  pose proof (Qfloor_le (x * inject_Z (Zpos unit_in_last_place))) as H.
  set (f := Qfloor _) in *.
  rewrite (Qmake_Qdiv f unit_in_last_place).
  apply Qle_shift_div_r; [reflexivity | exact H].
Qed.

Lemma round_up_ge (x : Q) : (x <= round_up x)%Q.
Proof.
  unfold round_up.
  pose proof (Qle_ceiling (x * inject_Z (Zpos unit_in_last_place))) as H.
  set (c := Qceiling _) in *.
  rewrite (Qmake_Qdiv c unit_in_last_place).
  apply Qle_shift_div_l; [reflexivity | exact H].
Qed.

Lemma round_down_nonneg (x : Q) : (0 <= x)%Q -> (0 <= round_down x)%Q.
Proof.
  intro H. unfold round_down.
  set (y := (x * inject_Z (Z.pos unit_in_last_place))%Q).
  assert (Hy : (0 <= Qfloor y)%Z).
  { change 0%Z with (Qfloor 0). apply Qfloor_resp_le.
    apply Qmult_le_0_compat; auto. discriminate. }
  unfold Qle. cbn [Qnum Qden]. lia.
Qed.

Lemma two_pow_pos (n : nat) : (0 < two_pow n)%Z.
Proof.
  induction n as [|n IH]; [reflexivity|].
  change (two_pow (S n)) with (2 * two_pow n)%Z. lia.
Qed.

Lemma power_double (x : Q) (e : Z) :
  (0 < e)%Z -> (x ^ (2 * e) == x ^ e * x ^ e)%Q.
Proof.
  intro H. replace (2 * e)%Z with (e + e)%Z by lia.
  apply Qpower_plus'. lia.
Qed.

(** Repeated squaring with outward rounding encloses the power. *)
Lemma squared_encloses (x : Q) (n : nat) :
  (0 <= x)%Q ->
  (0 <= squared_down n x)%Q
  /\ (squared_down n x <= x ^ two_pow n)%Q
  /\ (x ^ two_pow n <= squared_up n x)%Q.
Proof.
  intro Hx. induction n as [|n (Hl0 & Hl & Hu)].
  - simpl. repeat split; auto; apply Qle_refl.
  - cbn [squared_down squared_up two_pow].
    set (l := squared_down n x) in *. set (u := squared_up n x) in *.
    rewrite (power_double x (two_pow_pos n)).
    set (p := (x ^ two_pow n)%Q) in *.
    assert (Hp : (0 <= p)%Q) by (now apply Qpower_0_le).
    repeat split.
    + apply round_down_nonneg. now apply Qmult_le_0_compat.
    + eapply Qle_trans; [apply round_down_le|].
      apply Qmult_le_compat_nonneg; split; auto.
    + eapply Qle_trans; [|apply round_up_ge].
      apply Qmult_le_compat_nonneg; split; auto.
Qed.

Lemma bits_exponent_nonneg (bits : list nat) : (0 <= exponent bits)%Z.
Proof.
  induction bits as [|n bits IH]; [discriminate|].
  change (exponent (n :: bits)) with (two_pow n + exponent bits)%Z.
  pose proof (two_pow_pos n). lia.
Qed.

(** The products of the rounded squarings enclose the power. *)
Lemma product_encloses (x : Q) (bits : list nat) :
  (0 <= x)%Q ->
  (0 <= product_down bits x)%Q
  /\ (product_down bits x <= x ^ exponent bits)%Q
  /\ (x ^ exponent bits <= product_up bits x)%Q.
Proof.
  intro Hx. induction bits as [|n bits (Hl0 & Hl & Hu)].
  - simpl. repeat split; discriminate.
  - cbn [product_down product_up exponent].
    destruct (squared_encloses n Hx) as (Hs0 & Hs & Ht).
    assert (Hne : (two_pow n + exponent bits <> 0)%Z).
    { pose proof (two_pow_pos n). pose proof (bits_exponent_nonneg bits). lia. }
    rewrite (Qpower_plus' x _ _ Hne).
    assert (Hp : (0 <= x ^ two_pow n)%Q) by (now apply Qpower_0_le).
    assert (Hq : (0 <= x ^ exponent bits)%Q) by (now apply Qpower_0_le).
    repeat split.
    + now apply Qmult_le_0_compat.
    + apply Qmult_le_compat_nonneg; split; auto.
    + apply Qmult_le_compat_nonneg; split; auto.
Qed.

Lemma power_succ (q : Q) (k : nat) :
  ~ (q == 0)%Q -> (q ^ Z.of_nat (S k) == q ^ Z.of_nat k * q)%Q.
Proof.
  intro H. rewrite Nat2Z.inj_succ. unfold Z.succ.
  rewrite Qpower_plus by exact H. reflexivity.
Qed.

Lemma power_unit (q : Q) (k : nat) :
  (0 < q <= 1)%Q -> (0 < q ^ Z.of_nat k <= 1)%Q.
Proof.
  intros [H0 H1]. induction k as [|k [IH0 IH1]].
  - simpl. split; [reflexivity | apply Qle_refl].
  - rewrite power_succ by lra. split.
    + now apply Qmult_lt_0_compat.
    + setoid_replace 1%Q with (1 * 1)%Q by reflexivity.
      apply Qmult_le_compat_nonneg; split; auto; now apply Qlt_le_weak.
Qed.

(** While the rate stays above the floor, [k] decays multiply it by the
    [k]-th power of the decay factor. *)
Lemma decayed_power (floor q : Q) (k : nat) :
  (0 <= floor)%Q -> (0 < q <= 1)%Q ->
  forall e : Q,
    (floor < e * q ^ Z.of_nat k)%Q ->
    (Reference.decayed floor q (S k) e == e * q ^ Z.of_nat (S k))%Q.
Proof.
  intros Hf Hq. induction k as [|k IH]; intros e He.
  - simpl in He. rewrite Qmult_1_r in He.
    apply Qltb_lt in He. simpl. rewrite He. reflexivity.
  - destruct (power_unit (S k) Hq) as [Hp0 Hp1].
    assert (He0 : (0 < e)%Q).
    { destruct (Qlt_le_dec 0 e) as [|Hneg]; auto. exfalso.
      assert ((e * q ^ Z.of_nat (S k) <= 0)%Q) by nra. lra. }
    assert (Hfe : (floor < e)%Q) by nra.
    apply Qltb_lt in Hfe.
    change (Reference.decayed floor q (S (S k)) e)
      with (Reference.decayed floor q (S k)
              (if Py.Qltb floor e then (e * q)%Q else e)).
    rewrite Hfe. rewrite IH.
    + rewrite (@power_succ q (S k)) by lra. ring.
    + rewrite power_succ in He by lra.
      setoid_replace (e * q * q ^ Z.of_nat k)%Q
        with (e * (q ^ Z.of_nat k * q))%Q by ring.
      exact He.
Qed.

Lemma decayed_919 :
  (Reference.decayed (1 # 100) (995 # 1000) 919 1 == (995 # 1000) ^ 919)%Q
  /\ (Reference.decayed (1 # 100) (995 # 1000) 919 1 < 1 # 100)%Q.
Proof.
  assert (Hq : (0 <= 995 # 1000)%Q) by discriminate.
  destruct (product_encloses [9; 8; 7; 4; 2; 1] Hq) as (_ & Hlo & _).
  destruct (product_encloses [9; 8; 7; 4; 2; 1; 0] Hq) as (_ & _ & Hhi).
  change (exponent [9; 8; 7; 4; 2; 1]) with (Z.of_nat 918) in Hlo.
  change (exponent [9; 8; 7; 4; 2; 1; 0]) with 919%Z in Hhi.
  assert (Hlow : (1 # 100 < product_down [9; 8; 7; 4; 2; 1]%nat (995 # 1000))%Q)
    by (vm_compute; reflexivity).
  assert (Hhigh : (product_up [9; 8; 7; 4; 2; 1; 0]%nat (995 # 1000) < 1 # 100)%Q)
    by (vm_compute; reflexivity).
  assert (Habove : (1 # 100 < 1 * (995 # 1000) ^ Z.of_nat 918)%Q).
  { rewrite Qmult_1_l. exact (Qlt_le_trans _ _ _ Hlow Hlo). }
  assert (Hunit : (0 < 995 # 1000 <= 1)%Q)
    by (split; [reflexivity | discriminate]).
  assert (Hfloor : (0 <= 1 # 100)%Q) by discriminate.
  pose proof (@decayed_power (1 # 100) (995 # 1000) 918 Hfloor Hunit 1 Habove)
    as Hd.
  change (Z.of_nat 919) with 919%Z in Hd.
  rewrite Qmult_1_l in Hd. split.
  - exact Hd.
  - rewrite Hd. exact (Qle_lt_trans _ _ _ Hhi Hhigh).
Qed.


End PowerBounds.

(** ** The agent's exploration rate *)

Section Agent.
Import Py Loops DQN Reference.

Lemma key_eqb_refl (k : list Q) : key_eqb k k = true.
Proof.
  induction k as [|x k IH]; simpl; auto.
  now rewrite Qeq_bool_refl, IH.
Qed.

Lemma table_get_set_same (tbl : list (list Q * list Q)) (k row : list Q) :
  table_get (table_set tbl k row) k = Some row.
Proof.
  induction tbl as [|[k' r'] tbl IH]; simpl.
  - now rewrite key_eqb_refl.
  - destruct (key_eqb k k') eqn:E; simpl; rewrite E; auto.
Qed.

Lemma table_get_set_defined (tbl : list (list Q * list Q))
    (k k2 row : list Q) :
  table_get tbl k <> None -> table_get (table_set tbl k2 row) k <> None.
Proof.
  induction tbl as [|[k' r'] tbl IH]; simpl; intro H.
  - contradiction.
  - destruct (key_eqb k2 k'); simpl; destruct (key_eqb k k'); auto;
      discriminate.
Qed.

Lemma table_get_ensure (n : nat) (tbl : list (list Q * list Q)) (k : list Q) :
  table_get (ensure_row n tbl k) k <> None.
Proof.
  unfold ensure_row. destruct (table_get tbl k) eqn:E.
  - rewrite E. discriminate.
  - rewrite table_get_set_same. discriminate.
Qed.

Lemma table_get_ensure_defined (n : nat) (tbl : list (list Q * list Q))
    (k k2 : list Q) :
  table_get tbl k <> None -> table_get (ensure_row n tbl k2) k <> None.
Proof.
  intro H. unfold ensure_row. destruct (table_get tbl k2); auto.
  now apply table_get_set_defined.
Qed.

Lemma rows_sized_get (n : nat) (tbl : list (list Q * list Q))
    (k row : list Q) :
  rows_sized n tbl -> table_get tbl k = Some row -> length row = n.
Proof.
  unfold rows_sized. induction 1 as [|[k' r'] tbl Hr _ IH]; simpl.
  - discriminate.
  - destruct (key_eqb k k'); auto. intro H. now inversion H; subst.
Qed.

Lemma rows_sized_set (n : nat) (tbl : list (list Q * list Q))
    (k row : list Q) :
  rows_sized n tbl -> length row = n -> rows_sized n (table_set tbl k row).
Proof.
  unfold rows_sized. intros H Hrow.
  induction H as [|[k' r'] tbl Hr Ht IH]; simpl.
  - repeat constructor. exact Hrow.
  - destruct (key_eqb k k'); constructor; simpl; auto.
Qed.

Lemma rows_sized_ensure (n : nat) (tbl : list (list Q * list Q)) (k : list Q) :
  rows_sized n tbl -> rows_sized n (ensure_row n tbl k).
Proof.
  intro H. unfold ensure_row. destruct (table_get tbl k); auto.
  apply rows_sized_set; auto. apply repeat_length.
Qed.

Lemma array_index_valid (n : nat) (a : Z) :
  valid_action n a -> exists i, array_index n a = Ok i /\ i < n.
Proof.
  unfold valid_action, array_index. intro H.
  destruct ((0 <=? a)%Z && (a <? Z.of_nat n)%Z) eqn:E1.
  - apply andb_true_iff in E1. destruct E1 as [E1 E2].
    apply Z.leb_le in E1. apply Z.ltb_lt in E2.
    exists (Z.to_nat a). split; auto. lia.
  - destruct ((- Z.of_nat n <=? a)%Z && (a <? 0)%Z) eqn:E2.
    + apply andb_true_iff in E2. destruct E2 as [E2 E3].
      apply Z.leb_le in E2. apply Z.ltb_lt in E3.
      exists (Z.to_nat (a + Z.of_nat n)). split; auto. lia.
    + apply andb_false_iff in E1. apply andb_false_iff in E2.
      rewrite Z.leb_gt, Z.ltb_ge in E1. rewrite Z.leb_gt, Z.ltb_ge in E2.
      lia.
Qed.

(** One learning step on a well-formed table succeeds and keeps the
    table well formed. *)
Lemma learn_ok (self : t) (tbl : list (list Q * list Q)) (e : experience) :
  0 < action_size self ->
  rows_sized (action_size self) tbl ->
  valid_action (action_size self) (action e) ->
  exists tbl', learn self tbl e = Ok tbl'
               /\ rows_sized (action_size self) tbl'.
Proof.
  intros Hn Hs Ha. unfold learn.
  set (n := action_size self) in *.
  set (sk := state_key (state e)).
  set (nk := state_key (next_state e)).
  set (tbl1 := ensure_row n (ensure_row n tbl sk) nk).
  assert (Hs1 : rows_sized n tbl1) by (now repeat apply rows_sized_ensure).
  assert (Hsk : table_get tbl1 sk <> None)
    by (apply table_get_ensure_defined, table_get_ensure).
  assert (Hnk : table_get tbl1 nk <> None) by apply table_get_ensure.
  destruct (table_get tbl1 sk) as [row|] eqn:Erow; [|contradiction].
  destruct (table_get tbl1 nk) as [next_row|] eqn:Enext; [|contradiction].
  pose proof (rows_sized_get _ Hs1 Erow) as Hlen.
  pose proof (rows_sized_get _ Hs1 Enext) as Hlen'.
  assert (Htarget : exists target,
             (if done e then Ok (reward e)
              else next_row <-! Ok next_row ;;
                   best <-! np_max next_row ;;
                   Ok (reward e + gamma self * best)%Q) = Ok target).
  { destruct (done e); [eauto|].
    destruct next_row as [|x r]; [simpl in Hlen'; lia|]. simpl. eauto. }
  destruct Htarget as (target & ->). cbn [rbind].
  rewrite Hlen.
  destruct (array_index_valid Ha) as (i & -> & Hi). cbn [rbind].
  rewrite setitem_lt by lia. cbn [rbind].
  eexists. split; [reflexivity|].
  apply rows_sized_set; auto. now rewrite set_nth_length.
Qed.

Lemma learn_all (self : t) (batch : list experience) :
  0 < action_size self ->
  Forall (fun e => valid_action (action_size self) (action e)) batch ->
  forall tbl,
    rows_sized (action_size self) tbl ->
    exists tbl', rfold (learn self) batch tbl = Ok tbl'
                 /\ rows_sized (action_size self) tbl'.
Proof.
  intros Hn Hb. induction Hb as [|e batch He _ IH]; intros tbl Hs; simpl.
  - eauto.
  - destruct (@learn_ok self tbl e Hn Hs He) as (tbl1 & -> & Hs1). simpl.
    now apply IH.
Qed.

(** A replay over a buffer that holds the batch trains: it succeeds
    whatever the generator state, decays the exploration rate once and
    leaves the agent well formed. *)
Lemma replay_trains (self : t) (batch_size : nat) (g : random_state) :
  agent_ok self ->
  batch_size <= length (memory self) ->
  exists self' g',
    replay self batch_size g = Ok (self', g')
    /\ epsilon self' = decay self
    /\ epsilon_min self' = epsilon_min self
    /\ epsilon_decay self' = epsilon_decay self
    /\ memory self' = memory self
    /\ action_size self' = action_size self
    /\ agent_ok self'.
Proof.
  intros (Hn & Hs & Hm) Hb. unfold replay.
  destruct (length (memory self) <? batch_size) eqn:E;
    [apply Nat.ltb_lt in E; lia|].
  destruct (@sample_ok _ (memory self) batch_size g Hb)
    as (l & rest & g' & Hrun & _ & Hp).
  unfold bind at 1. rewrite Hrun.
  assert (Hl : Forall (fun e => valid_action (action_size self) (action e)) l).
  { rewrite Forall_forall in *. intros e He. apply Hm.
    eapply sample_incl; eauto. }
  destruct (@learn_all self l Hn Hl (q_table self) Hs) as (tbl' & Htbl & Hs').
  unfold bind, lift. rewrite Htbl.
  eexists _, g'. split; [reflexivity|]. simpl.
  repeat split; auto.
Qed.

(** A replay over a buffer shorter than the batch changes nothing. *)
Lemma replay_skips (self : t) (batch_size : nat) (g : random_state) :
  length (memory self) < batch_size ->
  replay self batch_size g = Ok (self, g).
Proof.
  intro H. unfold replay.
  destruct (length (memory self) <? batch_size) eqn:E; auto.
  apply Nat.ltb_ge in E. lia.
Qed.

Lemma mfold_app {A B} (f : A -> B -> M A) (l1 l2 : list B) :
  forall (a : A) (g : random_state),
    mfold f (l1 ++ l2) a g = bind (mfold f l1 a) (mfold f l2) g.
Proof.
  induction l1 as [|x l1 IH]; intros a g; simpl.
  - reflexivity.
  - rewrite bind_assoc. apply bind_ext. intros a' g'. apply IH.
Qed.

(** [k] replays of a batch the buffer holds: all of them train. *)
Lemma replays_train (batch_size k : nat) :
  forall (self : t) (g : random_state),
    agent_ok self ->
    batch_size <= length (memory self) ->
    exists self' g',
      run (repeat (Replay batch_size) k) self g = Ok (self', g')
      /\ epsilon self'
         = decayed (epsilon_min self) (epsilon_decay self) k (epsilon self)
      /\ epsilon_min self' = epsilon_min self.
Proof.
  induction k as [|k IH]; intros self g Hok Hb.
  - exists self, g. simpl. auto.
  - destruct (@replay_trains self batch_size g Hok Hb)
      as (self1 & g1 & Hrun & He & Hmin & Hdec & Hmem & _ & Hok1).
    destruct (IH self1 g1 Hok1) as (self2 & g2 & Hrun2 & He2 & Hmin2).
    { now rewrite Hmem. }
    exists self2, g2. split; [|split].
    + simpl repeat. unfold run in *. simpl mfold. unfold bind at 1.
      simpl step. rewrite Hrun. exact Hrun2.
    + rewrite He2, Hmin, Hdec, He. reflexivity.
    + congruence.
Qed.

Lemma remembers_run (e : experience) (n : nat) :
  forall (self : t) (g : random_state),
    run (repeat (Remember e) n) self g
    = Ok (fold_left remember (repeat e n) self, g).
Proof.
  unfold run. induction n as [|n IH]; intros self g; simpl.
  - reflexivity.
  - unfold bind, ret at 1. apply IH.
Qed.

Lemma remembers_fields (l : list experience) :
  forall self : t,
    let self' := fold_left remember l self in
    action_size self' = action_size self
    /\ q_table self' = q_table self
    /\ epsilon self' = epsilon self
    /\ epsilon_min self' = epsilon_min self
    /\ epsilon_decay self' = epsilon_decay self.
Proof.
  induction l as [|e l IH]; intro self; simpl.
  - auto.
  - destruct (IH (remember self e)) as (H1 & H2 & H3 & H4 & H5).
    simpl in *. auto.
Qed.

Lemma remembers_memory :
  memory (fold_left remember (repeat terminal_step 32) (__init__ 24 10))
  = repeat terminal_step 32.
Proof. vm_compute. reflexivity. Qed.

Lemma filled_ok :
  agent_ok (fold_left remember (repeat terminal_step 32) (__init__ 24 10)).
Proof.
  destruct (remembers_fields (repeat terminal_step 32) (__init__ 24 10))
    as (Hsize & Htbl & _).
  unfold agent_ok. rewrite Hsize, Htbl, remembers_memory. repeat split.
  - cbn. lia.
  - constructor.
  - apply Forall_forall. intros e He.
    apply repeat_spec in He. subst e. unfold valid_action. cbn. lia.
Qed.

(** Thirty-two remembered transitions and [k] replays from a fresh agent
    succeed whatever the generator state, and decay the rate [k] times. *)
Lemma training_run (k : nat) (g : random_state) :
  exists agent g',
    run (training k) (__init__ 24 10) g = Ok (agent, g')
    /\ epsilon agent = decayed (1 # 100) (995 # 1000) k 1
    /\ epsilon_min agent = (1 # 100)%Q.
Proof.
  pose proof (remembers_run terminal_step 32 (__init__ 24 10) g) as Hfill.
  destruct (remembers_fields (repeat terminal_step 32) (__init__ 24 10))
    as (_ & _ & Heps & Hmin0 & Hdec).
  pose proof filled_ok as Hok.
  pose proof remembers_memory as Hmem.
  set (filled := fold_left remember (repeat terminal_step 32) (__init__ 24 10))
    in *.
  destruct (@replays_train 32 k filled g Hok) as (agent & g' & Hrun & He & Hmin).
  { rewrite Hmem, repeat_length. lia. }
  rewrite Hmin0, Hdec, Heps in He. rewrite Hmin0 in Hmin.
  exists agent, g'. split; [|split].
  - unfold training, run. rewrite mfold_app.
    unfold run in Hfill, Hrun.
    rewrite (@bind_Ok _ _ _ _ (mfold step (repeat (Replay 32) k)) _ _ _ Hfill).
    exact Hrun.
  - exact He.
  - exact Hmin.
Qed.

(** What a replay that returns does to the rate: nothing when the buffer
    is short of the batch, one decay otherwise; the floor and the factor
    stay. *)
Lemma replay_rate (self self' : t) (batch_size : nat) (g g' : random_state) :
  replay self batch_size g = Ok (self', g') ->
  epsilon self'
  = (if length (memory self) <? batch_size then epsilon self else decay self)
  /\ epsilon_min self' = epsilon_min self
  /\ epsilon_decay self' = epsilon_decay self.
Proof.
  unfold replay. destruct (length (memory self) <? batch_size).
  - unfold ret. intro H. inversion H; subst. auto.
  - unfold bind, lift, ret.
    destruct (sample (memory self) batch_size g) as [[minibatch g1]|];
      [|discriminate].
    destruct (rfold (learn self) minibatch (q_table self)); [|discriminate].
    intro H. inversion H; subst. auto.
Qed.

(** X10 -- Whatever is remembered and replayed, the exploration rate
    never goes up: after any sequence of [remember] and [replay] calls
    that returns, it is at most what it was before.  A rate that starts
    in [[epsilon_min * epsilon_decay, 1]] also stays in that interval, and
    the floor and the factor never change: [replay] never lets the rate
    fall below 0.995 of the floor, although it can fall below the floor
    itself. *)
Lemma epsilon_range (ops : list op) :
  forall (self self' : t) (g g' : random_state),
    run ops self g = Ok (self', g') ->
    (0 <= epsilon_min self)%Q ->
    (0 < epsilon_decay self <= 1)%Q ->
    (epsilon_min self * epsilon_decay self <= epsilon self <= 1)%Q ->
    (epsilon self' <= epsilon self)%Q
    /\ (epsilon_min self * epsilon_decay self <= epsilon self' <= 1)%Q
    /\ epsilon_min self' = epsilon_min self
    /\ epsilon_decay self' = epsilon_decay self.
Proof.
  unfold run. induction ops as [|o ops IH]; intros self self' g g' Hrun Hm Hd He.
  - simpl in Hrun. unfold ret in Hrun. inversion Hrun; subst.
    split; [apply Qle_refl|auto].
  - simpl in Hrun. unfold bind in Hrun.
    destruct (step self o g) as [[self1 g1]|] eqn:Hstep; [|discriminate].
    assert (H1 : (epsilon self1 <= epsilon self)%Q
                 /\ (epsilon_min self * epsilon_decay self
                     <= epsilon self1 <= 1)%Q
                 /\ epsilon_min self1 = epsilon_min self
                 /\ epsilon_decay self1 = epsilon_decay self).
    { destruct o as [e|b]; simpl in Hstep.
      - unfold ret in Hstep. inversion Hstep; subst. simpl.
        split; [apply Qle_refl|auto].
      - destruct (@replay_rate self self1 b g g1 Hstep) as (Heps & Hmin & Hdec).
        rewrite Heps.
        destruct (length (memory self) <? b);
          [split; [apply Qle_refl|auto]|].
        unfold decay. destruct (Qltb (epsilon_min self) (epsilon self)) eqn:E;
          [|split; [apply Qle_refl|auto]].
        apply Qltb_lt in E. split; [nra|]. split; [split; nra|auto]. }
    destruct H1 as (Hle1 & He1 & Hmin1 & Hdec1).
    destruct (IH self1 self' g1 g' Hrun) as (Hle' & He' & Hmin' & Hdec').
    + now rewrite Hmin1.
    + now rewrite Hdec1.
    + now rewrite Hmin1, Hdec1.
    + rewrite Hmin1, Hdec1 in He'. split; [|split; [exact He'|split; congruence]].
      exact (Qle_trans _ _ _ Hle' Hle1).
Qed.

(** C8 -- The exploration rate starts at 1.0 and each training replay
    multiplies it by 0.995 while it is above 0.01, but the product is not
    clamped: from a fresh agent, thirty-two remembered transitions and
    919 replays succeed whatever the generator state and leave epsilon at
    [0.995 ^ 919], which is below [epsilon_min = 0.01]. *)
Theorem epsilon_falls_below_floor (g : random_state) :
  epsilon (__init__ 24 10) = 1%Q
  /\ exists agent g',
       run (training 919) (__init__ 24 10) g = Ok (agent, g')
       /\ epsilon_min agent = (1 # 100)%Q
       /\ (epsilon agent == (995 # 1000) ^ 919)%Q
       /\ (epsilon agent < epsilon_min agent)%Q.
Proof.
  split; [reflexivity|].
  destruct (training_run 919 g) as (agent & g' & Hrun & He & Hmin).
  destruct decayed_919 as [Hv Hlt].
  exists agent, g'. split; [exact Hrun|]. split; [exact Hmin|]. split.
  - rewrite He. exact Hv.
  - rewrite He, Hmin. exact Hlt.
Qed.

End Agent.

(** ** Formatting the learning optimizer's result *)

Section FormatResults.
Import Py Loops RLOptimizer.

Variable np : numpy.

Lemma stop_dict_found (stops : list stop_dict) (stop_id : Z) :
  In stop_id (map sd_id stops) ->
  exists s, stop_by_id stops stop_id = Ok s.
Proof.
  intro H. unfold stop_by_id, next_match.
  destruct (find _ stops) as [s|] eqn:E; [eauto|].
  exfalso. apply in_map_iff in H. destruct H as (s & Hs & Hin).
  pose proof (find_none _ _ E s Hin) as Hn. simpl in Hn.
  rewrite Hs, Z.eqb_refl in Hn. discriminate.
Qed.

(** A route made of ids of the stop list is formatted without a failed
    lookup. *)
Lemma format_results_total (self : t) (stops : list stop_dict)
    (route : list Z) (buses : list bus_dict) (reward : xfloat) :
  incl route (map sd_id stops) ->
  exists result,
    _format_results np self (Some route) stops buses reward = Ok result.
Proof.
  intro Hids. unfold _format_results.
  destruct route as [|stop_id route]; [eauto|].
  destruct buses as [|bus buses]; [eauto|].
  set (r := stop_id :: route) in *.
  assert (Hfold : exists d,
             rfold (fun total_distance i =>
                      id1 <-! getitem r i ;;
                      stop1 <-! stop_by_id stops id1 ;;
                      id2 <-! getitem r (i + 1) ;;
                      stop2 <-! stop_by_id stops id2 ;;
                      Ok (total_distance
                          + _calculate_distance np (location stop1)
                                                (location stop2))%Q)
                   (seq 0 (length r - 1)) 0%Q = Ok d).
  { apply rfold_total. intros a i Hi. apply in_seq in Hi.
    destruct (@getitem_lt _ r i) as (id1 & Hn1 & ->); [lia|].
    cbn [rbind].
    destruct (@stop_dict_found stops id1) as (s1 & ->).
    { apply Hids. eapply nth_error_In; eauto. }
    cbn [rbind].
    destruct (@getitem_lt _ r (i + 1)) as (id2 & Hn2 & ->); [lia|].
    cbn [rbind].
    destruct (@stop_dict_found stops id2) as (s2 & ->).
    { apply Hids. eapply nth_error_In; eauto. }
    cbn [rbind]. eauto. }
  assert (Hmap : exists formatted,
             rmap (fun '(idx, stop_id) =>
                     stop <-! stop_by_id stops stop_id ;;
                     Ok (VDict [ ("id"%string, VInt stop_id);
                                 ("location"%string, location_value stop);
                                 ("sequence"%string, VInt (Z.of_nat idx)) ]))
                  (enumerate r) = Ok formatted
             /\ length formatted = length (enumerate r)).
  { apply rmap_total. intros [idx sid] Hin.
    apply in_combine_r in Hin.
    destruct (@stop_dict_found stops sid) as (s & ->); [now apply Hids|].
    simpl. eauto. }
  destruct Hfold as (d & Hd). destruct Hmap as (formatted & Hf & Hlen).
  rewrite Hd. cbn [rbind]. rewrite Hf. cbn [rbind]. eauto.
Qed.

Lemma rmap_length {A B} (f : A -> result B) (l : list A) :
  forall ys, rmap f l = Ok ys -> length ys = length l.
Proof.
  induction l as [|x l IH]; intros ys H; simpl in H.
  - inversion H. reflexivity.
  - destruct (f x) as [y|]; [|discriminate]. cbn [rbind] in H.
    destruct (rmap f l) as [ys'|]; [|discriminate]. cbn [rbind] in H.
    inversion H. simpl. f_equal. now apply IH.
Qed.

(** C9 -- [_format_results] assigns the whole route to the first
    vehicle.  With an empty (or absent) best route or an empty vehicle
    list the result is exactly [{'routes': [], 'metrics': {}}].  With a
    non-empty vehicle list and a non-empty best route, whatever the call
    returns holds exactly one route, its [bus_id] the id of the first
    vehicle whatever the other vehicles and their capacities are, with
    one formatted stop per stop of the route.  The call does return when
    the stop ids of the route occur in the stop list, which is the case
    of the best route [optimize] passes, built from the stops of the
    request. *)
Theorem format_results_first_bus (self : t) (stops : list stop_dict)
    (reward : xfloat) :
  (forall route buses,
      route = None \/ route = Some [] \/ buses = [] ->
      _format_results np self route stops buses reward
      = Ok [ ("routes"%string, VList []); ("metrics"%string, VDict []) ])
  /\ (forall stop_id route bus buses result,
         _format_results np self (Some (stop_id :: route)) stops
                         (bus :: buses) reward = Ok result ->
         exists formatted metrics,
           result
           = [ ("routes"%string,
                 VList [ VDict [ ("bus_id"%string, VInt (bd_id bus));
                                 ("stops"%string, VList formatted);
                                 ("rl_reward"%string,
                                   VFloat (xround reward 2)) ] ]);
               ("metrics"%string, VDict metrics) ]
           /\ length formatted = length (stop_id :: route))
  /\ (forall stop_id route bus buses,
         Forall (fun i => In i (map sd_id stops)) (stop_id :: route) ->
         exists formatted metrics,
           _format_results np self (Some (stop_id :: route)) stops
                           (bus :: buses) reward
           = Ok [ ("routes"%string,
                    VList [ VDict [ ("bus_id"%string, VInt (bd_id bus));
                                    ("stops"%string, VList formatted);
                                    ("rl_reward"%string,
                                      VFloat (xround reward 2)) ] ]);
                  ("metrics"%string, VDict metrics) ]
           /\ length formatted = length (stop_id :: route)).
Proof.
  assert (Hshape : forall stop_id route bus buses result,
             _format_results np self (Some (stop_id :: route)) stops
                             (bus :: buses) reward = Ok result ->
             exists formatted metrics,
               result
               = [ ("routes"%string,
                     VList [ VDict [ ("bus_id"%string, VInt (bd_id bus));
                                     ("stops"%string, VList formatted);
                                     ("rl_reward"%string,
                                       VFloat (xround reward 2)) ] ]);
                   ("metrics"%string, VDict metrics) ]
               /\ length formatted = length (stop_id :: route)).
  { intros stop_id route bus buses result. unfold _format_results.
    set (r := stop_id :: route).
    destruct (rfold _ (seq 0 (length r - 1)) 0%Q) as [d|]; [|discriminate].
    cbn [rbind].
    destruct (rmap _ (enumerate r)) as [formatted|] eqn:Ef; [|discriminate].
    cbn [rbind]. intro H. inversion H; subst result.
    exists formatted. eexists. split; [reflexivity|].
    rewrite (rmap_length _ _ Ef). unfold enumerate.
    rewrite length_combine, length_seq. apply Nat.min_id. }
  split; [|split; [exact Hshape|]].
  - intros route buses [-> | [-> | ->]]; try reflexivity.
    destruct route as [[|x r]|]; reflexivity.
  - intros stop_id route bus buses Hids.
    destruct (@format_results_total self stops (stop_id :: route)
                (bus :: buses) reward) as (result & Hres).
    { intros i Hi. revert i Hi. now apply Forall_forall. }
    destruct (Hshape _ _ _ _ _ Hres) as (formatted & metrics & -> & Hlen).
    exists formatted, metrics. auto.
Qed.

End FormatResults.

Section FormatResultsExamples.
Import Py Loops RLOptimizer.

Lemma format_results_first_bus_witness :
  exists formatted metrics,
    _format_results NumpyApprox.np __init__ (Some [1; 4; 2]%Z)
                    Reference.square [mkBusDict 7 50; mkBusDict 8 10] (Fin 27)
    = Ok [ ("routes"%string,
             VList [ VDict [ ("bus_id"%string, VInt 7);
                             ("stops"%string, VList formatted);
                             ("rl_reward"%string, VFloat (xround (Fin 27) 2)) ] ]);
           ("metrics"%string, VDict metrics) ]
    /\ length formatted = 3.
Proof.
  apply (proj2 (proj2 (format_results_first_bus NumpyApprox.np __init__
                         Reference.square (Fin 27)))
               1%Z [4; 2]%Z (mkBusDict 7 50) [mkBusDict 8 10]).
  repeat constructor; simpl; tauto.
Defined.

End FormatResultsExamples.

(** ** The distances the orchestrator reads *)

Section ResultDistances.
Import Py Loops.

Variable np : numpy.

(** The metrics of the genetic optimizer carry a distance. *)
Lemma route_metrics_distance (route : option Route.t) (stops : list Stop.t)
    (buses : list Bus.t) (m : dict) :
  GeneticAlgorithmOptimizer._calculate_route_metrics np route stops buses = Ok m ->
  exists km, dict_get m "total_distance_km" = Some (VFloat (Fin km)).
Proof.
  unfold GeneticAlgorithmOptimizer._calculate_route_metrics.
  destruct route as [r|]; [|discriminate].
  destruct (GeneticAlgorithmOptimizer._calculate_total_distance np r stops)
    as [d|]; [|discriminate].
  cbn [rbind].
  destruct (GeneticAlgorithmOptimizer.bus_by_id buses (Route.bus_id r))
    as [bus|]; [|discriminate].
  cbn [rbind].
  destruct (div d (Bus.fuel_efficiency bus)) as [fuel|]; [|discriminate].
  cbn [rbind].
  destruct (div _ (inject_Z (Bus.capacity bus))) as [ratio|]; [|discriminate].
  cbn [rbind]. intro H. inversion H; subst. simpl. eauto.
Qed.

(** A result of the genetic optimizer has a finite distance to compare. *)
Lemma genetic_result_distance (self : GeneticAlgorithmOptimizer.t)
    (stops : list stop_dict) (buses : list bus_dict) (constraints : dict)
    (g g' : random_state) (result : dict) :
  GeneticAlgorithmOptimizer.optimize np self stops buses constraints g
    = Ok (result, g') ->
  exists km, Reference.total_distance_km result = Some (Fin km).
Proof.
  unfold GeneticAlgorithmOptimizer.optimize, bind, lift, ret.
  destruct (GeneticAlgorithmOptimizer.evolve _ _ _ _ _ g) as [[st g1]|];
    [|discriminate].
  destruct (GeneticAlgorithmOptimizer._calculate_route_metrics _ _ _ _)
    as [m|] eqn:Hm; [|discriminate].
  destruct (GeneticAlgorithmOptimizer._format_routes _ _) as [routes|];
    [|discriminate].
  intro H. inversion H; subst.
  destruct (route_metrics_distance _ _ _ Hm) as (km & Hkm).
  exists km. unfold Reference.total_distance_km. simpl. now rewrite Hkm.
Qed.

(** A result of the learning optimizer has a distance to compare: plus
    infinity when it holds no route. *)
Lemma format_results_distance (self : RLOptimizer.t) (route : option (list Z))
    (stops : list stop_dict) (buses : list bus_dict) (reward : xfloat)
    (result : dict) :
  RLOptimizer._format_results np self route stops buses reward = Ok result ->
  exists x, Reference.total_distance_km result = Some x.
Proof.
  unfold RLOptimizer._format_results.
  destruct route as [[|stop_id route]|]; destruct buses as [|bus buses];
    try (intro H; inversion H; subst; exists PosInf; reflexivity).
  destruct (rfold _ _ _) as [d|]; [|discriminate]. cbn [rbind].
  destruct (rmap _ _) as [formatted|]; [|discriminate]. cbn [rbind].
  intro H. inversion H; subst. eexists. reflexivity.
Qed.

End ResultDistances.

(** ** The hybrid orchestrator *)

Section HybridSelection.
Import Py RouteOptimizer.

Variable World : Type.
Variable self : t World.
Variable stops : list stop_dict.
Variable buses : list bus_dict.
Variable constraints : dict.

Lemma dict_get_set_same (d : dict) (k : string) (v : value) :
  dict_get (dict_set d k v) k = Some v.
Proof.
  induction d as [|[k' v'] d IH]; simpl.
  - now rewrite String.eqb_refl.
  - destruct (String.eqb k k') eqn:E; simpl; rewrite E; auto.
Qed.

Lemma dict_get_set_other (d : dict) (k k' : string) (v : value) :
  String.eqb k k' = false ->
  dict_get (dict_set d k' v) k = dict_get d k.
Proof.
  intro H. induction d as [|[k0 v0] d IH]; simpl.
  - now rewrite H.
  - destruct (String.eqb k' k0) eqn:E; simpl.
    + apply String.eqb_eq in E. subst k0. now rewrite H.
    + destruct (String.eqb k k0); auto.
Qed.

(** The heuristics pass leaves the routes, the metrics and the tag. *)
Lemma apply_heuristics_keeps (result : dict) (k : string) :
  String.eqb k "heuristics_applied" = false ->
  String.eqb k "optimization_approach" = false ->
  dict_get (_apply_heuristics self result stops buses constraints) k
  = dict_get result k.
Proof.
  intros H1 H2. unfold _apply_heuristics.
  now rewrite !dict_get_set_other.
Qed.

(** The comparison of the code reads the distances of the reference. *)
Lemma less_total_distance (rl_result ga_result : dict)
    (rl_score ga_score : xfloat) :
  Reference.total_distance_km rl_result = Some rl_score ->
  Reference.total_distance_km ga_result = Some ga_score ->
  exists a b,
    score rl_result = Ok a /\ score ga_result = Ok b
    /\ less a b = Ok (xltb rl_score ga_score).
Proof.
  unfold Reference.total_distance_km, score, dict_item, less.
  intros Hr Hg.
  destruct (dict_get rl_result "metrics") as [[| | | | | |mr]|];
    try discriminate.
  destruct (dict_get ga_result "metrics") as [[| | | | | |mg]|];
    try discriminate.
  cbn [rbind].
  destruct (dict_get mr "total_distance_km") as [[| | | | | |]|];
    try discriminate;
    destruct (dict_get mg "total_distance_km") as [[| | | | | |]|];
    try discriminate;
    inversion Hr; inversion Hg; subst;
    eexists _, _; repeat split; reflexivity.
Qed.

(** The genetic optimizer runs first: when it raises, so does [optimize],
    and nothing else has run. *)
Lemma hybrid_genetic_raises (w : World) (e : exn) :
  ga_optimizer self stops buses constraints w = Raise e ->
  optimize self stops buses constraints w = Raise e.
Proof.
  intro H. unfold optimize, bind. now rewrite H.
Qed.

(** C4 -- The hybrid orchestrator.  The genetic optimizer always runs
    first.  When it has returned, the learning optimizer runs, on the
    world the genetic optimizer left, if and only if there are more than
    20 stops: with at most 20 stops the world is left as the genetic
    optimizer left it and the result is the genetic one tagged
    ["genetic"]; with more, the two [total_distance_km] metrics are
    compared, a missing one counting as plus infinity, and the result is
    the learning optimizer's, tagged ["rl"], exactly when its distance is
    strictly lower, otherwise (ties included) the genetic one tagged
    ["genetic"]. *)
Theorem hybrid_selection (w w1 : World) (ga_result : dict) :
  ga_optimizer self stops buses constraints w = Ok (ga_result, w1) ->
  (length stops <= 20 ->
   exists final,
     optimize self stops buses constraints w = Ok (final, w1)
     /\ final = _apply_heuristics self
                  (dict_set ga_result "algorithm_used" (VStr "genetic"))
                  stops buses constraints
     /\ dict_get final "algorithm_used" = Some (VStr "genetic"))
  /\ (20 < length stops ->
      (forall e,
          rl_optimizer self stops buses constraints w1 = Raise e ->
          optimize self stops buses constraints w = Raise e)
      /\ forall rl_result w2 ga_score rl_score,
          rl_optimizer self stops buses constraints w1 = Ok (rl_result, w2) ->
          Reference.total_distance_km ga_result = Some ga_score ->
          Reference.total_distance_km rl_result = Some rl_score ->
          exists final,
            optimize self stops buses constraints w = Ok (final, w2)
            /\ (xltb rl_score ga_score = true ->
                final = _apply_heuristics self
                          (dict_set rl_result "algorithm_used" (VStr "rl"))
                          stops buses constraints
                /\ dict_get final "algorithm_used" = Some (VStr "rl"))
            /\ (xltb rl_score ga_score = false ->
                final = _apply_heuristics self
                          (dict_set ga_result "algorithm_used" (VStr "genetic"))
                          stops buses constraints
                /\ dict_get final "algorithm_used" = Some (VStr "genetic"))).
Proof.
  intro Hga. split.
  - intro Hlen. eexists. unfold optimize.
    step_with Hga.
    destruct (20 <? length stops) eqn:E; [apply Nat.ltb_lt in E; lia|].
    split; [reflexivity|]. split; [reflexivity|].
    rewrite apply_heuristics_keeps by reflexivity.
    apply dict_get_set_same.
  - intro Hlen. apply Nat.ltb_lt in Hlen. split.
    + intros e Hrl. unfold optimize.
      step_with Hga. rewrite Hlen.
      unfold bind. rewrite Hrl. reflexivity.
    + intros rl_result w2 ga_score rl_score Hrl Hg Hr.
      destruct (less_total_distance _ _ Hr Hg) as (a & b & Ha & Hb & Hless).
      unfold optimize.
      step_with Hga. rewrite Hlen.
      unfold bind at 1. unfold bind at 1. rewrite Hrl.
      unfold bind, lift. rewrite Hb, Ha, Hless.
      destruct (xltb rl_score ga_score); eexists; (split; [reflexivity|]);
        split; intro H; try discriminate;
        (split; [reflexivity|]);
        rewrite apply_heuristics_keeps by reflexivity;
        apply dict_get_set_same.
Qed.

End HybridSelection.

Section HybridSelectionExamples.
Import Py RouteOptimizer.

(** A genetic result of 40 km against a learned one of 25 km, on 21 stops:
    both optimizers are called, in that order, and the learned result is
    returned. *)
Lemma hybrid_selection_witness :
  let self := mk (Reference.fixed_optimizer "genetic"
                    (Reference.result_of_distance 40))
                 (Reference.fixed_optimizer "rl"
                    (Reference.result_of_distance 25)) in
  let stops := repeat (mkStopDict 1 0 0 None) 21 in
  exists final,
    optimize self stops [] [] [] = Ok (final, ["genetic"; "rl"]%string)
    /\ (xltb (Fin 25) (Fin 40) = true ->
        final = _apply_heuristics self
                  (dict_set (Reference.result_of_distance 25)
                            "algorithm_used" (VStr "rl"))
                  stops [] []
        /\ dict_get final "algorithm_used" = Some (VStr "rl"))
    /\ (xltb (Fin 25) (Fin 40) = false ->
        final = _apply_heuristics self
                  (dict_set (Reference.result_of_distance 40)
                            "algorithm_used" (VStr "genetic"))
                  stops [] []
        /\ dict_get final "algorithm_used" = Some (VStr "genetic")).
Proof.
  intros self stops.
  refine (proj2 (proj2 (@hybrid_selection (list string) self stops [] []
                          [] ["genetic"%string]
                          (Reference.result_of_distance 40) eq_refl)
                       _)
                (Reference.result_of_distance 25) ["genetic"; "rl"]%string
                (Fin 40) (Fin 25) eq_refl eq_refl eq_refl).
  unfold stops. rewrite repeat_length. lia.
Defined.

Example hybrid_selection_rl :
  let self := mk (Reference.fixed_optimizer "genetic"
                    (Reference.result_of_distance 40))
                 (Reference.fixed_optimizer "rl"
                    (Reference.result_of_distance 25)) in
  Reference.entry (optimize self (repeat (mkStopDict 1 0 0 None) 21) [] [] [])
                  "algorithm_used"
  = Some (VStr "rl").
Proof. vm_compute. reflexivity. Qed.

(** On a tie the genetic result is kept. *)
Example hybrid_selection_tie :
  let self := mk (Reference.fixed_optimizer "genetic"
                    (Reference.result_of_distance 25))
                 (Reference.fixed_optimizer "rl"
                    (Reference.result_of_distance 25)) in
  Reference.entry (optimize self (repeat (mkStopDict 1 0 0 None) 21) [] [] [])
                  "algorithm_used"
  = Some (VStr "genetic").
Proof. vm_compute. reflexivity. Qed.

End HybridSelectionExamples.

(** * Further properties

    Properties of the code around the claims: the state, the policy and
    the episodes of the learning optimizer, the agent's memory and
    table, and the operators, the search and the result of the genetic
    optimizer. *)

(** ** Generators and lists *)

Section StateFacts.
Import Py Loops.

Lemma bind_pure {S A B} (r : result A) (k : A -> ST S B) (a : A) (w : S) :
  r = Ok a -> bind (lift r) k w = k a w.
Proof. now intros ->. Qed.

Lemma py_random_run {A} (m : M A) (a : A) (g g' gn : random_state) :
  m g = Ok (a, g') -> py_random m (g, gn) = Ok (a, (g', gn)).
Proof. intro H. unfold py_random. simpl. now rewrite H. Qed.

Lemma np_random_run {A} (m : M A) (a : A) (g gn gn' : random_state) :
  m gn = Ok (a, gn') -> np_random m (g, gn) = Ok (a, (g, gn')).
Proof. intro H. unfold np_random. simpl. now rewrite H. Qed.

(** [random.random()] returns a float of [[0, 1)]. *)
Lemma random_unit (g : random_state) :
  exists r, random g = Ok (r, mkRandom (stream g) (S (cursor g)))
            /\ (0 <= r < 1)%Q.
Proof.
  unfold random, bind, draw, ret. eexists. split; [reflexivity|].
  set (x := N.modulo _ _).
  assert (Hx : (x < N.pos two53)%N) by (apply N.mod_lt; discriminate).
  unfold Qle, Qlt. cbn [Qnum Qden]. lia.
Qed.

(** [random.uniform(a, b)] with [a <= b] returns a float of [[a, b]];
    the end [b] is included, as the rounding of [a + (b - a) * r] can
    reach it. *)
Lemma uniform_run (a b : Q) (g : random_state) :
  (a <= b)%Q ->
  exists v, uniform a b g = Ok (v, mkRandom (stream g) (S (cursor g)))
            /\ (a <= v <= b)%Q.
Proof.
  intro Hab. destruct (random_unit g) as (r & Hr & Hr0 & Hr1).
  unfold uniform. step_with Hr. unfold ret.
  eexists. split; [reflexivity|].
  assert (H0 : (0 <= (b - a) * r)%Q) by (apply Qmult_le_0_compat; lra).
  assert (H1 : (0 <= (b - a) * (1 - r))%Q) by (apply Qmult_le_0_compat; lra).
  split; lra.
Qed.

(** [random.choice] on a sequence that is not empty returns one of its
    elements. *)
Lemma choice_run {A} (l : list A) (g : random_state) :
  l <> [] ->
  exists x, choice l g = Ok (x, mkRandom (stream g) (S (cursor g)))
            /\ In x l.
Proof.
  intro Hl. destruct l as [|y l']; [contradiction|].
  unfold choice. set (l := y :: l') in *.
  unfold bind. rewrite randbelow_run.
  assert (Hlt : N.to_nat (N.modulo (stream g (cursor g)) (N.of_nat (length l)))
                < length l) by (apply randbelow_lt; simpl; lia).
  destruct (getitem_lt l Hlt) as (x & Hn & Hg).
  unfold lift. rewrite Hg. exists x. split; [reflexivity|].
  eapply nth_error_In; eauto.
Qed.

Lemma set_nth_middle {A} (pre : list A) (y x : A) (post : list A) :
  set_nth (pre ++ y :: post) (length pre) x = pre ++ x :: post.
Proof.
  induction pre as [|h pre IH]; simpl; auto. now rewrite IH.
Qed.

End StateFacts.

(** ** The state of the learning optimizer *)

Section Observation.
Import Py Loops RouteState Reference Invariant.

Lemma encode_run (self : t) (pre post : list Q) (y : Q) (stop_id : Z) :
  encode self (pre ++ y :: post) (length pre, stop_id)
  = Ok (pre ++ scaled self stop_id :: post).
Proof.
  unfold encode, div.
  assert (Hd : Qeq_bool (inject_Z (Z.of_nat (Nat.max (length (stops self)) 1))) 0
               = false).
  { destruct (Qeq_bool _ 0) eqn:E; auto.
    apply Qeq_bool_iff in E. unfold Qeq in E. simpl in E. lia. }
  rewrite Hd. cbn [rbind].
  rewrite setitem_lt by (rewrite length_app; simpl; lia).
  now rewrite set_nth_middle.
Qed.

(** The loop over the route writes the scaled ids over the leading
    zeros. *)
Lemma encode_all (self : t) (l : list Z) :
  forall (pre : list Q) (n : nat),
    length l <= n ->
    rfold (encode self) (combine (seq (length pre) (length l)) l)
          (pre ++ repeat 0%Q n)
    = Ok (pre ++ map (scaled self) l ++ repeat 0%Q (n - length l)).
Proof.
  induction l as [|stop_id l IH]; intros pre n Hn.
  - simpl. now rewrite Nat.sub_0_r.
  - destruct n as [|n]; [simpl in Hn; lia|].
    cbn [length seq combine rfold repeat].
    rewrite encode_run. cbn [rbind].
    replace (pre ++ scaled self stop_id :: repeat 0%Q n)
      with ((pre ++ [scaled self stop_id]) ++ repeat 0%Q n)
      by (now rewrite <- app_assoc).
    replace (S (length pre)) with (length (pre ++ [scaled self stop_id]))
      by (rewrite length_app; simpl; lia).
    rewrite IH by (simpl in Hn; lia).
    rewrite <- app_assoc. reflexivity.
Qed.

(** The feature vector in closed form: the four features, the scaled ids
    of the first twenty stops of the route, then zeros. *)
Lemma to_vector_value (self : t) :
  to_vector self
  = Ok ([ inject_Z (Z.of_nat (length (current_route self)));
          traffic_level self;
          encoding_get weather_encoding (weather_condition self) 0%Q;
          inject_Z (Z.of_nat (length (stops self))) ]
        ++ map (scaled self) (firstn 20 (current_route self))
        ++ repeat 0%Q (20 - length (firstn 20 (current_route self)))).
Proof.
  set (l := firstn 20 (current_route self)).
  assert (Hl : length l <= 20) by (unfold l; rewrite length_firstn; lia).
  unfold to_vector, enumerate. rewrite slice_from_start. fold l.
  pose proof (@encode_all self l [] 20 Hl) as H.
  cbn [app Datatypes.length] in H.
  cbv zeta. rewrite H. reflexivity.
Qed.

(** Dividing an integer inside the range of a float by the number of
    stops stays inside the range. *)
Lemma scaled_float_sized (self : t) (stop_id : Z) :
  float_sized stop_id ->
  (Qabs (scaled self stop_id) < inject_Z float_bound)%Q.
Proof.
  unfold float_sized, scaled. intro H.
  destruct (Z.of_nat (Nat.max (length (stops self)) 1)) as [|p|p] eqn:E; try lia.
  unfold Qdiv, Qinv, Qmult, Qabs, Qlt, inject_Z. cbn [Qnum Qden].
  nia.
Qed.

(** X1 -- On a state whose first twenty route stops have ids inside the
    range of a float, [RouteState.to_vector] returns 24 features, the
    state size of the learning optimizer: the length of the route, the
    traffic level, the weather code and the number of stops, then twenty
    route features.  Route feature [i] is the id of the [i]-th stop of
    the route divided by the number of stops (by 1 when there is no stop,
    so the divisor is never zero), and 0 beyond the end of the route;
    stops of the route after the twentieth are left out.  Every route
    feature is inside the range of a float, so none of the divisions is
    one that raises an [OverflowError] in the code; ids beyond that range
    are left aside, as the exact quotient does not show that error. *)
Theorem to_vector_shape (self : t) :
  Forall float_sized (firstn 20 (current_route self)) ->
  exists route_features,
    to_vector self
    = Ok ([ inject_Z (Z.of_nat (length (current_route self)));
            traffic_level self;
            encoding_get weather_encoding (weather_condition self) 0%Q;
            inject_Z (Z.of_nat (length (stops self))) ] ++ route_features)
    /\ length route_features = 20
    /\ Forall (fun x => (Qabs x < inject_Z float_bound)%Q) route_features
    /\ forall i,
         i < 20 ->
         nth_error route_features i
         = Some (match nth_error (current_route self) i with
                 | Some stop_id =>
                     (inject_Z stop_id
                      / inject_Z (Z.of_nat (Nat.max (length (stops self)) 1)))%Q
                 | None => 0%Q
                 end).
Proof.
  intro Hsized.
  set (l := firstn 20 (current_route self)) in *.
  assert (Hl : length l <= 20) by (unfold l; rewrite length_firstn; lia).
  exists (map (scaled self) l ++ repeat 0%Q (20 - length l)).
  split; [|split; [|split]].
  - apply to_vector_value.
  - rewrite length_app, length_map, repeat_length. lia.
  - apply Forall_app. split.
    + apply Forall_map. eapply Forall_impl; [|exact Hsized].
      intros stop_id H. now apply scaled_float_sized.
    + apply Forall_forall. intros x Hx. apply repeat_spec in Hx. subst x.
      assert (H0 : (0 < float_bound)%Z)
        by (unfold float_bound; apply Z.pow_pos_nonneg; lia).
      unfold Qlt, Qabs, inject_Z. cbn [Qnum Qden Z.abs]. lia.
  - intros i Hi.
    destruct (Nat.lt_ge_cases i (length l)) as [Hlt|Hge].
    + rewrite nth_error_app1 by (now rewrite length_map).
      rewrite nth_error_map. unfold l at 1.
      rewrite nth_error_firstn.
      destruct (i <? 20) eqn:E; [|apply Nat.ltb_ge in E; lia].
      destruct (nth_error (current_route self) i) as [x|] eqn:Ex; [reflexivity|].
      apply nth_error_None in Ex. unfold l in Hlt.
      rewrite length_firstn in Hlt. lia.
    + rewrite nth_error_app2 by (now rewrite length_map).
      rewrite length_map.
      assert (Hnone : nth_error (current_route self) i = None).
      { apply nth_error_None. unfold l in Hge.
        rewrite length_firstn in Hge. lia. }
      rewrite Hnone. apply nth_error_repeat. lia.
Qed.

End Observation.

(** ** The policy of the agent *)

Section Policy.
Import Py Loops DQN Reference.

Lemma argmax_from_lt (row : list Q) :
  forall (best i : nat) (value : Q),
    best < i -> argmax_from best value i row < i + length row.
Proof.
  induction row as [|y row IH]; intros best i value H; simpl.
  - lia.
  - destruct (Qltb value y).
    + specialize (IH i (S i) y). lia.
    + specialize (IH best (S i) value). lia.
Qed.

Lemma np_argmax_lt (row : list Q) :
  row <> [] -> exists a, np_argmax row = Ok a /\ a < length row.
Proof.
  destruct row as [|x row]; [contradiction|]. intros _.
  simpl. eexists. split; [reflexivity|].
  pose proof (@argmax_from_lt row 0 1 x). lia.
Qed.

Lemma randrange_run (n : nat) (g : random_state) :
  0 < n ->
  exists a, randrange n g = Ok (a, mkRandom (stream g) (S (cursor g)))
            /\ a < n.
Proof.
  intro H. unfold randrange.
  destruct (n =? 0) eqn:E; [apply Nat.eqb_eq in E; lia|].
  rewrite randbelow_run. eexists. split; [reflexivity|].
  now apply randbelow_lt.
Qed.

(** [act] on an agent whose rows all have [action_size] values. *)
Lemma act_run (self : t) (state : list Q) (w : generators) :
  0 < action_size self ->
  rows_sized (action_size self) (q_table self) ->
  exists a self' w',
    act self state w = Ok ((a, self'), w')
    /\ a < action_size self
    /\ action_size self' = action_size self
    /\ memory self' = memory self
    /\ epsilon self' = epsilon self
    /\ rows_sized (action_size self) (q_table self')
    /\ (q_table self' = q_table self
        \/ q_table self'
           = ensure_row (action_size self) (q_table self) (state_key state)).
Proof.
  intros Hn Hs. destruct w as [g gn]. unfold act.
  destruct (random_unit gn) as (r & Hr & _).
  rewrite (@bind_Ok _ _ _ _ _ _ _ _ (@np_random_run _ _ _ g _ _ Hr)).
  destruct (Qle_bool r (epsilon self)).
  - destruct (@randrange_run (action_size self) g Hn) as (a & Ha & Hlt).
    rewrite (@bind_Ok _ _ _ _ _ _ _ _ (@py_random_run _ _ _ _ _ _ Ha)).
    unfold ret. exists a, self. eexists. split; [reflexivity|]. auto 10.
  - cbv zeta.
    set (tbl := ensure_row (action_size self) (q_table self) (state_key state)).
    assert (Hs' : rows_sized (action_size self) tbl)
      by (now apply rows_sized_ensure).
    pose proof (@table_get_ensure (action_size self) (q_table self)
                  (state_key state)) as Hget.
    fold tbl in Hget.
    destruct (table_get tbl (state_key state)) as [row|] eqn:E;
      [|contradiction].
    pose proof (rows_sized_get _ Hs' E) as Hlen.
    destruct (@np_argmax_lt row) as (a & Ha & Hlt).
    { intros ->. simpl in Hlen. lia. }
    unfold bind at 1. unfold lift at 1.
    unfold bind at 1. unfold lift at 1. rewrite Ha.
    unfold ret. exists a. eexists. eexists. split; [reflexivity|].
    simpl. repeat split; auto. lia.
Qed.

(** X2 -- [DQN.act] on an agent whose table rows all hold [action_size]
    values: with at least one action it returns, whatever the two
    generators and whichever branch is taken, an action below
    [action_size], leaving the memory alone and every row of the table at
    [action_size] values; with no action at all it raises [ValueError]
    ([random.randrange(0)] when exploring, [np.argmax] of an empty row
    otherwise). *)
Theorem act_in_range (self : t) (state : list Q) (w : generators) :
  rows_sized (action_size self) (q_table self) ->
  (0 < action_size self ->
   exists a self' w',
     act self state w = Ok ((a, self'), w')
     /\ a < action_size self
     /\ action_size self' = action_size self
     /\ memory self' = memory self
     /\ rows_sized (action_size self') (q_table self'))
  /\ (action_size self = 0 -> act self state w = Raise ValueError).
Proof.
  intro Hs. split.
  - intro Hn.
    destruct (@act_run self state w Hn Hs)
      as (a & self' & w' & Hrun & Ha & Hsize & Hmem & _ & Hrows & _).
    exists a, self', w'. rewrite Hsize. auto.
  - intro H0. destruct w as [g gn]. unfold act.
    destruct (random_unit gn) as (r & Hr & _).
    rewrite (@bind_Ok _ _ _ _ _ _ _ _ (@np_random_run _ _ _ g _ _ Hr)).
    destruct (Qle_bool r (epsilon self)).
    + rewrite H0. reflexivity.
    + cbv zeta. rewrite H0 in *.
      set (tbl := ensure_row 0 (q_table self) (state_key state)).
      assert (Hs' : rows_sized 0 tbl) by (now apply rows_sized_ensure).
      pose proof (@table_get_ensure 0 (q_table self) (state_key state)) as Hget.
      fold tbl in Hget.
      destruct (table_get tbl (state_key state)) as [row|] eqn:E;
        [|contradiction].
      pose proof (rows_sized_get _ Hs' E) as Hlen.
      destruct row; [|discriminate]. reflexivity.
Qed.

End Policy.

(** ** The moves of an episode *)

Section Moves.
Import Py Loops RLOptimizer.

Variable np : numpy.

Lemma available_spec (route : list Z) (stops : list stop_dict) (stop_id : Z) :
  In stop_id (available route stops)
  <-> In stop_id (map sd_id stops) /\ ~ In stop_id route.
Proof.
  unfold available. rewrite in_map_iff. split.
  - intros (s & <- & Hs). apply filter_In in Hs. destruct Hs as [Hin Hb].
    split; [now apply in_map|].
    apply negb_true_iff in Hb. now apply existsb_Zeqb_false.
  - intros [Hin Hnot]. apply in_map_iff in Hin. destruct Hin as (s & <- & Hs).
    exists s. split; auto. apply filter_In. split; auto.
    apply negb_true_iff. destruct (existsb _ route) eqn:E; auto.
    apply existsb_exists in E. destruct E as (x & Hx & Heq).
    apply Z.eqb_eq in Heq. subst x. contradiction.
Qed.

Lemma available_nil (route : list Z) (stops : list stop_dict) :
  available route stops = []
  <-> forall stop_id, In stop_id (map sd_id stops) -> In stop_id route.
Proof.
  split.
  - intros H stop_id Hin.
    destruct (in_dec Z.eq_dec stop_id route) as [|Hn]; auto.
    assert (Ha : In stop_id (available route stops))
      by (apply available_spec; auto).
    rewrite H in Ha. contradiction.
  - intro H. destruct (available route stops) as [|x l] eqn:E; auto.
    assert (Ha : In x (available route stops)) by (rewrite E; simpl; auto).
    apply available_spec in Ha. destruct Ha as [Hin Hn].
    exfalso. auto.
Qed.

Lemma nth_error_last {A} (l : list A) :
  nth_error l (length l - 1) = hd_error (rev l).
Proof.
  destruct l as [|x l] using rev_ind; [reflexivity|].
  rewrite rev_app_distr, length_app. simpl.
  rewrite nth_error_app2 by lia.
  replace (length l + 1 - 1 - length l) with 0 by lia. reflexivity.
Qed.

(** [_apply_action] returns for every action and generator state. *)
Lemma apply_action_run (action : nat) (route : list Z)
    (stops : list stop_dict) (g : random_state) :
  exists next_stop g',
    _apply_action action route stops g = Ok (next_stop, g')
    /\ (next_stop = None <-> available route stops = [])
    /\ (forall stop_id, next_stop = Some stop_id ->
                        In stop_id (available route stops))
    /\ (action = 0 -> next_stop = hd_error (available route stops) /\ g' = g)
    /\ (action = 1 ->
        next_stop = hd_error (rev (available route stops)) /\ g' = g).
Proof.
  unfold _apply_action. cbv zeta.
  destruct (available route stops) as [|x l] eqn:E.
  - exists None, g. unfold ret. repeat split; auto; discriminate.
  - set (a := x :: l) in *.
    assert (Hne : a <> []) by discriminate.
    destruct action as [|[|action]].
    + cbn [Nat.eqb]. unfold bind, lift, ret. cbn [getitem nth_error a].
      exists (Some x), g. split; [reflexivity|].
      split; [split; discriminate|].
      split; [intros ? H; inversion H; subst; simpl; auto|].
      split; [auto | discriminate].
    + cbn [Nat.eqb].
      destruct (@getitem_lt _ a (length a - 1)) as (y & Hn & Hg);
        [simpl; lia|].
      unfold bind, lift, ret. rewrite Hg.
      exists (Some y), g. split; [reflexivity|].
      split; [split; discriminate|].
      split; [intros ? H; inversion H; subst; eapply nth_error_In; eauto|].
      split; [discriminate|]. intros _. split; auto.
      rewrite <- Hn. apply nth_error_last.
    + cbn [Nat.eqb].
      destruct (@choice_run _ a g Hne) as (y & Hc & Hin).
      step_with Hc. unfold ret.
      eexists (Some y), _. split; [reflexivity|].
      split; [split; discriminate|].
      split; [intros ? H; inversion H; subst; auto|].
      split; discriminate.
Qed.

(** X3 -- [_apply_action] never raises.  It returns [None] exactly when
    every stop id of the request is already in the route; otherwise it
    returns the id of a stop of the request that the route does not hold
    yet.  Action 0 takes the first and action 1 the last of the stops
    still available, in the order of the request, and neither draws from
    the generator. *)
Theorem apply_action_next_stop (action : nat) (route : list Z)
    (stops : list stop_dict) (g : random_state) :
  exists next_stop g',
    _apply_action action route stops g = Ok (next_stop, g')
    /\ (next_stop = None
        <-> forall stop_id, In stop_id (map sd_id stops) -> In stop_id route)
    /\ (forall stop_id,
           next_stop = Some stop_id ->
           In stop_id (map sd_id stops) /\ ~ In stop_id route)
    /\ (action = 0 -> next_stop = hd_error (available route stops))
    /\ (action = 1 -> next_stop = hd_error (rev (available route stops)))
    /\ (action <= 1 -> g' = g).
Proof.
  destruct (apply_action_run action route stops g)
    as (next_stop & g' & Hrun & Hnone & Hsome & H0 & H1).
  exists next_stop, g'. split; [exact Hrun|].
  split; [now rewrite Hnone, available_nil|].
  split; [intros stop_id H; now apply available_spec, Hsome|].
  split; [intro Ha; now apply H0|].
  split; [intro Ha; now apply H1|].
  intro Ha. destruct action as [|[|action]]; [now apply H0 | now apply H1 | lia].
Qed.

Lemma min_max_unit (x : Q) : (0 <= Py.max 0 (Py.min 1 x) <= 1)%Q.
Proof.
  unfold Py.max, Py.min.
  destruct (Qltb x 1) eqn:E1.
  - apply Qltb_lt in E1.
    destruct (Qltb 0 x) eqn:E2; [apply Qltb_lt in E2|]; lra.
  - destruct (Qltb 0 1) eqn:E2; lra.
Qed.

Lemma initialize_state_run (stops : list stop_dict) (g : random_state) :
  exists traffic weather,
    _initialize_state stops g
    = Ok (RouteState.mk stops [] traffic weather,
          mkRandom (stream g) (S (S (cursor g))))
    /\ ((3 # 10) <= traffic <= (7 # 10))%Q
    /\ In weather [ "clear"; "rain"; "heavy_rain" ]%string.
Proof.
  unfold _initialize_state.
  destruct (@uniform_run (3 # 10) (7 # 10) g) as (v & Hv & Hr); [lra|].
  step_with Hv.
  destruct (@choice_run _ [ "clear"; "rain"; "heavy_rain" ]%string
              (mkRandom (stream g) (S (cursor g))))
    as (x & Hx & Hin); [discriminate|].
  step_with Hx. unfold ret. exists v, x. simpl.
  split; [reflexivity|]. split; [exact Hr | exact Hin].
Qed.

Lemma update_state_run (state : RouteState.t) (next_stop : option Z)
    (route : list Z) (g : random_state) :
  exists traffic,
    _update_state state next_stop route g
    = Ok (RouteState.mk (RouteState.stops state) (route ++ truthy next_stop)
                        traffic (RouteState.weather_condition state),
          mkRandom (stream g) (S (cursor g)))
    /\ (0 <= traffic <= 1)%Q.
Proof.
  unfold _update_state. cbv zeta.
  destruct (@uniform_run (- (1 # 10)) (1 # 10) g) as (v & Hv & _); [lra|].
  step_with Hv. unfold ret. eexists. split; [reflexivity|].
  apply min_max_unit.
Qed.

(** X4 -- The traffic level of a state stays on its scale: a state made
    by [_initialize_state] starts with an empty route and a traffic level
    in [[0.3, 0.7]], with one of the three weathers drawn from; a state
    made by [_update_state] has a traffic level clamped to [[0, 1]], the
    same stops and weather, and a route extended by the stop chosen,
    unless that stop is [None] or has the id 0, which [if next_stop]
    takes for false. *)
Theorem traffic_level_unit :
  (forall stops g,
      exists state g',
        _initialize_state stops g = Ok (state, g')
        /\ RouteState.stops state = stops
        /\ RouteState.current_route state = []
        /\ ((3 # 10) <= RouteState.traffic_level state <= (7 # 10))%Q
        /\ In (RouteState.weather_condition state)
              [ "clear"; "rain"; "heavy_rain" ]%string)
  /\ (forall state next_stop route g,
         exists state' g',
           _update_state state next_stop route g = Ok (state', g')
           /\ RouteState.stops state' = RouteState.stops state
           /\ RouteState.weather_condition state'
              = RouteState.weather_condition state
           /\ (0 <= RouteState.traffic_level state' <= 1)%Q
           /\ RouteState.current_route state'
              = match next_stop with
                | Some 0%Z | None => route
                | Some stop_id => route ++ [stop_id]
                end).
Proof.
  split.
  - intros stops g.
    destruct (initialize_state_run stops g) as (tr & wc & Hrun & Ht & Hw).
    eexists _, _. split; [exact Hrun|]. simpl. auto.
  - intros state next_stop route g.
    destruct (update_state_run state next_stop route g) as (tr & Hrun & Ht).
    eexists _, _. split; [exact Hrun|]. simpl.
    repeat split; try tauto.
    destruct next_stop as [[|p|p]|]; simpl; auto using app_nil_r.
Qed.

End Moves.

(** ** The reward of a move *)

Section Reward.
Import Py Loops RLOptimizer Invariant.

Variable np : numpy.
Hypothesis np_ok : numpy_ok np.

Lemma calculate_distance_nonneg (a b : Q * Q) :
  (0 <= _calculate_distance np a b)%Q.
Proof.
  unfold _calculate_distance. destruct a, b.
  pose proof (np_sqrt_nonneg np_ok ((q1 - q) ^ 2 + (q2 - q0) ^ 2)) as H.
  nra.
Qed.

(** X5 -- [_calculate_reward] gives -10 when no stop was chosen.  For a
    stop of the request, a route of stops of the request and a
    [max_time] that is a number or absent, it returns a reward of at most
    two points per student of the stop (exactly that for the first stop
    of a route under the default [max_time]); with a [max_time] that is
    not a number the comparison raises [TypeError]. *)
Theorem reward_bounds (route : list Z) (stops : list stop_dict)
    (constraints : dict) :
  _calculate_reward np route None stops constraints = Ok (- (10))%Q
  /\ (forall stop_id stop,
         stop_by_id stops stop_id = Ok stop ->
         incl route (map sd_id stops) ->
         (numeric_max_time constraints ->
          exists reward,
            _calculate_reward np route (Some stop_id) stops constraints
            = Ok reward
            /\ (reward <= inject_Z (students stop) * 2)%Q
            /\ (route = [] ->
                dict_get constraints "max_time" = None ->
                (reward == inject_Z (students stop) * 2)%Q))
         /\ (~ numeric_max_time constraints ->
             _calculate_reward np route (Some stop_id) stops constraints
             = Raise TypeError)).
Proof.
  split; [reflexivity|].
  intros stop_id stop Hstop Hroute.
  unfold _calculate_reward. rewrite Hstop. cbn [rbind]. cbv zeta.
  set (base := (0 + inject_Z (students stop) * 2)%Q).
  assert (Hleg : exists reward,
             match route with
             | [] => Ok base
             | _ :: _ =>
                 last_id <-! getitem route (length route - 1) ;;
                 last_stop <-! stop_by_id stops last_id ;;
                 Ok (base
                     - _calculate_distance np (location last_stop) (location stop)
                       * (1 # 10))%Q
             end = Ok reward
             /\ (reward <= base)%Q /\ (route = [] -> reward = base)).
  { destruct route as [|x r] eqn:E.
    - exists base. split; [reflexivity|]. split; [apply Qle_refl | auto].
    - rewrite <- E in *.
      destruct (@getitem_lt _ route (length route - 1)) as (y & Hn & ->).
      { rewrite E. simpl. lia. }
      cbn [rbind].
      destruct (@stop_dict_found stops y) as (s & ->).
      { apply Hroute. eapply nth_error_In; eauto. }
      cbn [rbind]. eexists. split; [reflexivity|].
      split; [|rewrite E; discriminate].
      pose proof (calculate_distance_nonneg (location s) (location stop)). lra. }
  destruct Hleg as (reward & -> & Hle & Hnil). cbn [rbind].
  unfold numeric_max_time.
  assert (Hbase : (base == inject_Z (students stop) * 2)%Q)
    by (unfold base; ring).
  split.
  - intro Hnum.
    destruct (dict_get constraints "max_time") as [[| | | | | |]|] eqn:Em;
      try contradiction; cbn [as_number rbind];
      match goal with |- context [if ?c then _ else _] => destruct c eqn:Ec end;
      eexists; (split; [reflexivity|]); (split; [lra|]);
      intros Hr Hn; try discriminate.
    + subst route. simpl in Ec. discriminate.
    + rewrite (Hnil Hr). exact Hbase.
  - intro Hnum.
    destruct (dict_get constraints "max_time") as [[| | | | | |]|];
      try reflexivity; exfalso; apply Hnum; exact I.
Qed.

End Reward.


(** ** The episodes of the learning optimizer *)

Section Episodes.
Import Py Loops RLOptimizer Reference Invariant.

Variable np : numpy.
Variable stops : list stop_dict.
Variable constraints : dict.
Hypothesis numeric : numeric_max_time constraints.

Lemma remember_ok (a : DQN.t) (e : DQN.experience) :
  agent_ok a ->
  valid_action (DQN.action_size a) (DQN.action e) ->
  agent_ok (DQN.remember a e).
Proof.
  intros (Hn & Hs & Hm) He. unfold agent_ok, DQN.remember. simpl.
  repeat split; auto. unfold DQN.deque_append.
  assert (Htl : Forall (fun e => valid_action (DQN.action_size a) (DQN.action e))
                       (tl (DQN.memory a))).
  { destruct (DQN.memory a); simpl; auto. now inversion Hm. }
  destruct (DQN.maxlen <=? length (DQN.memory a));
    apply Forall_app; split; auto.
Qed.

Lemma replay_ok (a : DQN.t) (batch_size : nat) (g : random_state) :
  agent_ok a ->
  exists a' g', DQN.replay a batch_size g = Ok (a', g') /\ agent_ok a'.
Proof.
  intro H.
  destruct (Nat.lt_ge_cases (length (DQN.memory a)) batch_size) as [Hlt|Hge].
  - exists a, g. split; [now apply replay_skips | exact H].
  - destruct (@replay_trains a batch_size g H Hge) as (a' & g' & Hr & Hrest).
    exists a', g'. split; [exact Hr | apply Hrest].
Qed.

Lemma to_vector_returns (state : RouteState.t) :
  exists v, RouteState.to_vector state = Ok v.
Proof.
  rewrite to_vector_value. eauto.
Qed.

(** The reward of a move is defined when the stop chosen and the stops
    of the route are stops of the request. *)
Lemma reward_returns (route : list Z) (next_stop : option Z) :
  incl route (map sd_id stops) ->
  (forall stop_id, next_stop = Some stop_id -> In stop_id (map sd_id stops)) ->
  exists reward, _calculate_reward np route next_stop stops constraints = Ok reward.
Proof.
  intros Hroute Hnext. unfold _calculate_reward.
  destruct next_stop as [stop_id|]; [|eauto].
  destruct (@stop_dict_found stops stop_id (Hnext _ eq_refl)) as (stop & ->).
  cbn [rbind]. cbv zeta.
  assert (Hleg : exists reward,
             match route with
             | [] => Ok (0 + inject_Z (students stop) * 2)%Q
             | _ :: _ =>
                 last_id <-! getitem route (length route - 1) ;;
                 last_stop <-! stop_by_id stops last_id ;;
                 Ok (0 + inject_Z (students stop) * 2
                     - _calculate_distance np (location last_stop) (location stop)
                       * (1 # 10))%Q
             end = Ok reward).
  { destruct route as [|x r] eqn:E; [eauto|]. rewrite <- E in *.
    destruct (@getitem_lt _ route (length route - 1)) as (y & Hn & ->).
    { rewrite E. simpl. lia. }
    cbn [rbind].
    destruct (@stop_dict_found stops y) as (s & ->).
    { apply Hroute. eapply nth_error_In; eauto. }
    cbn [rbind]. eauto. }
  destruct Hleg as (reward & ->). cbn [rbind].
  unfold numeric_max_time in numeric.
  destruct (dict_get constraints "max_time") as [[| | | | | |]|];
    try contradiction; cbn [as_number rbind];
    match goal with |- context [if ?c then _ else _] => destruct c end; eauto.
Qed.

(** One pass of the loop from a well-formed walk. *)
Lemma visit_run (w : walk) (gens : generators) :
  walk_ok stops w ->
  exists next_stop w' gens',
    visit np stops constraints w gens = Ok (w', gens')
    /\ walk_ok stops w'
    /\ w_route w' = w_route w ++ truthy next_stop
    /\ w_done w'
       = (length stops <=? length (w_route w))
         || (match next_stop with None => true | Some _ => false end)
    /\ (next_stop = None <-> available (w_route w) stops = [])
    /\ (forall stop_id, next_stop = Some stop_id ->
                        In stop_id (available (w_route w) stops)).
Proof.
  intros ((Hn & Hs & Hm) & Hnd & Hincl). unfold visit. cbv zeta.
  destruct (to_vector_returns (w_state w)) as (v & Hv).
  rewrite (bind_pure _ _ Hv).
  destruct (@act_run (w_agent w) v gens Hn Hs)
    as (a & agent & [g1 gn1] & Hact & Ha & Hsize & Hmem & _ & Hrows & _).
  step_with Hact. cbv beta iota.
  destruct (apply_action_run a (w_route w) stops g1)
    as (next_stop & g2 & Happ & Hnone & Hsome & _).
  rewrite (@bind_Ok _ _ _ _ _ _ _ _ (@py_random_run _ _ _ _ _ gn1 Happ)).
  assert (Hin : forall stop_id, next_stop = Some stop_id ->
                                In stop_id (map sd_id stops)).
  { intros stop_id H. now apply (available_spec (w_route w) stops), Hsome. }
  destruct (@reward_returns (w_route w) next_stop Hincl Hin) as (reward & Hrew).
  rewrite (bind_pure _ _ Hrew).
  destruct (update_state_run (w_state w) next_stop (w_route w) g2)
    as (traffic & Hupd & _).
  rewrite (@bind_Ok _ _ _ _ _ _ _ _ (@py_random_run _ _ _ _ _ gn1 Hupd)).
  match goal with
  | |- context [RouteState.to_vector ?s] =>
      destruct (to_vector_returns s) as (v' & Hv')
  end.
  assert (Hagent : forall e,
             DQN.action e = Z.of_nat a -> agent_ok (DQN.remember agent e)).
  { intros e He. apply remember_ok.
    - unfold agent_ok. rewrite Hsize, Hmem. auto.
    - rewrite Hsize, He. unfold valid_action. lia. }
  assert (Hroute : NoDup (w_route w ++ truthy next_stop)
                   /\ incl (w_route w ++ truthy next_stop) (map sd_id stops)).
  { destruct next_stop as [stop_id|]; simpl.
    - destruct (Z.eqb stop_id 0).
      + rewrite app_nil_r. auto.
      + pose proof (Hsome _ eq_refl) as Hav.
        apply available_spec in Hav. destruct Hav as [Hi Hni].
        split; [now apply NoDup_snoc|].
        apply incl_app; auto. intros x [<-|[]]. exact Hi.
    - rewrite app_nil_r. auto. }
  exists next_stop.
  destruct (truthy next_stop) as [|x l] eqn:Et.
  - cbv beta iota. rewrite (bind_pure _ _ Hv'). unfold ret.
    eexists _, _. split; [reflexivity|]. cbn [w_agent w_route w_done].
    rewrite app_nil_r in *.
    split; [split; [apply Hagent; reflexivity | exact Hroute]|].
    auto.
  - cbv beta iota. rewrite (bind_pure _ _ Hv'). unfold ret.
    eexists _, _. split; [reflexivity|]. cbn [w_agent w_route w_done].
    split; [split; [apply Hagent; reflexivity | exact Hroute]|].
    auto.
Qed.

End Episodes.

Section EpisodeLoop.
Import Py Loops RLOptimizer Reference Invariant.

Variable np : numpy.
Variable stops : list stop_dict.
Variable constraints : dict.
Hypothesis numeric : numeric_max_time constraints.

(** A route without repeats over the stop ids that is as long as the stop
    list has visited every stop. *)
Lemma full_route (route : list Z) :
  NoDup route -> incl route (map sd_id stops) ->
  length stops <= length route ->
  available route stops = [].
Proof.
  intros Hnd Hincl Hlen. apply available_nil.
  apply NoDup_length_incl; auto. now rewrite length_map.
Qed.

(** Without a stop of id 0, every pass visits a new stop or ends the
    episode: as many passes as there are stops suffice. *)
Lemma episode_ends (fuel : nat) :
  ~ In 0%Z (map sd_id stops) ->
  forall (w : walk) (gens : generators),
    walk_ok stops w ->
    (w_done w = true -> available (w_route w) stops = []) ->
    w_done w = true \/ length stops <= length (w_route w) + fuel ->
    exists w' gens',
      episode np fuel stops constraints w gens = Ok (Some w', gens')
      /\ walk_ok stops w'
      /\ available (w_route w') stops = [].
Proof.
  intro Hzero. induction fuel as [|fuel IH]; intros w gens Hok Hdone Hfuel.
  - cbn [episode].
    destruct (w_done w) eqn:Ed.
    + cbn [negb andb]. exists w, gens. auto.
    + destruct Hfuel as [|Hfuel]; [discriminate|].
      destruct (length (w_route w) <? length stops) eqn:El;
        [apply Nat.ltb_lt in El; lia|].
      cbn [negb andb]. exists w, gens. split; [reflexivity|]. split; auto.
      destruct Hok as (_ & Hnd & Hincl). apply full_route; auto. lia.
  - cbn [episode].
    destruct (w_done w) eqn:Ed.
    + cbn [negb andb]. exists w, gens. auto.
    + destruct (length (w_route w) <? length stops) eqn:El.
      * cbn [negb andb]. apply Nat.ltb_lt in El.
        destruct (@visit_run np stops constraints numeric w gens Hok)
          as (next_stop & w1 & gens1 & Hv & Hok1 & Hroute & Hd1 & Hnone & Hsome).
        step_with Hv.
        assert (Hleb : (length stops <=? length (w_route w)) = false)
          by (apply Nat.leb_gt; lia).
        rewrite Hleb in Hd1. cbn [orb] in Hd1.
        apply IH; auto.
        -- intro H1. rewrite H1 in Hd1.
           destruct next_stop as [stop_id|]; [discriminate|].
           rewrite Hroute. simpl. rewrite app_nil_r. now apply Hnone.
        -- destruct next_stop as [stop_id|]; [right | left; congruence].
           rewrite Hroute, length_app.
           pose proof (Hsome _ eq_refl) as Hav. apply available_spec in Hav.
           destruct Hav as [Hi _]. simpl.
           destruct (Z.eqb stop_id 0) eqn:E0.
           ++ apply Z.eqb_eq in E0. subst. contradiction.
           ++ destruct Hfuel as [|Hfuel]; [discriminate|]. simpl. lia.
      * cbn [negb andb]. apply Nat.ltb_ge in El.
        exists w, gens. split; [reflexivity|]. split; auto.
        destruct Hok as (_ & Hnd & Hincl). now apply full_route.
Qed.

(** With a stop of id 0, which no route ever takes in, the loop
    condition holds after every pass. *)
Lemma episode_stalls (fuel : nat) :
  In 0%Z (map sd_id stops) ->
  forall (w : walk) (gens : generators),
    walk_ok stops w ->
    ~ In 0%Z (w_route w) ->
    w_done w = false ->
    exists gens', episode np fuel stops constraints w gens = Ok (None, gens').
Proof.
  intro Hzero. induction fuel as [|fuel IH]; intros w gens Hok Hnz Hdone;
    assert (Hlt : length (w_route w) < length stops).
  1, 3: destruct Hok as (_ & Hnd & Hincl);
    assert (H : length (0%Z :: w_route w) <= length (map sd_id stops))
      by (apply NoDup_incl_length;
          [now constructor | intros x [<-|Hx]; auto]);
    rewrite length_map in H; simpl in H; lia.
  - cbn [episode]. rewrite Hdone.
    apply Nat.ltb_lt in Hlt. rewrite Hlt. cbn [negb andb].
    exists gens. reflexivity.
  - cbn [episode]. rewrite Hdone.
    pose proof Hlt as Hltb. apply Nat.ltb_lt in Hltb. rewrite Hltb.
    cbn [negb andb].
    destruct (@visit_run np stops constraints numeric w gens Hok)
      as (next_stop & w1 & gens1 & Hv & Hok1 & Hroute & Hd1 & Hnone & Hsome).
    step_with Hv.
    assert (Hav : In 0%Z (available (w_route w) stops))
      by (apply available_spec; auto).
    apply IH; auto.
    + rewrite Hroute. intro Hin. apply in_app_or in Hin.
      destruct Hin as [Hin|Hin]; [contradiction|].
      destruct next_stop as [stop_id|]; simpl in Hin; auto.
      destruct (Z.eqb stop_id 0) eqn:E0; simpl in Hin; auto.
      destruct Hin as [->|[]]. discriminate.
    + rewrite Hd1.
      assert (Hleb : (length stops <=? length (w_route w)) = false)
        by (apply Nat.leb_gt; lia).
      rewrite Hleb. cbn [orb].
      destruct next_stop as [stop_id|]; [reflexivity|].
      rewrite (proj1 Hnone eq_refl) in Hav. contradiction.
Qed.

End EpisodeLoop.

Section Training.
Import Py Loops RLOptimizer Reference Invariant.

Variable np : numpy.
Variable stops : list stop_dict.
Variable constraints : dict.
Hypothesis numeric : numeric_max_time constraints.

Lemma train_ends (fuel : nat) (tr : learning) (x : nat) (gens : generators) :
  ~ In 0%Z (map sd_id stops) ->
  length stops <= fuel ->
  learning_ok stops tr ->
  exists tr' gens',
    train np fuel stops constraints (Some tr) x gens = Ok (Some tr', gens')
    /\ learning_ok stops tr'
    /\ best_reward tr' <> NegInf.
Proof.
  intros Hzero Hfuel (Hagent & Hbest). destruct gens as [g gn].
  unfold train.
  destruct (initialize_state_run stops g) as (traffic & weather & Hinit & _).
  rewrite (@bind_Ok _ _ _ _ _ _ _ _ (@py_random_run _ _ _ _ _ gn Hinit)).
  set (w0 := mkWalk _ _ _ _ _).
  destruct (@episode_ends np stops constraints numeric fuel Hzero w0
              (mkRandom (stream g) (S (S (cursor g))), gn))
    as (w & [g1 gn1] & Hep & (Hag & Hnd & Hincl) & Hfull).
  { unfold w0, walk_ok. simpl.
    split; [exact Hagent|]. split; [constructor | intros ? []]. }
  { discriminate. }
  { right. simpl. lia. }
  step_with Hep. cbv beta iota.
  destruct (@replay_ok (w_agent w) 32 g1 Hag) as (agent & g2 & Hrep & Hag2).
  rewrite (@bind_Ok _ _ _ _ _ _ _ _ (@py_random_run _ _ _ _ _ gn1 Hrep)).
  assert (Hcov : covers stops (w_route w)).
  { split; auto. intro stop_id. split; [apply Hincl|].
    now apply (available_nil (w_route w) stops). }
  destruct (xltb (best_reward tr) (Fin (w_total_reward w))) eqn:E.
  - unfold ret. eexists _, _. split; [reflexivity|].
    split; [|discriminate].
    split; [exact Hag2|]. right. simpl. eauto.
  - unfold ret. eexists _, _. split; [reflexivity|]. simpl.
    destruct Hbest as [Hinf|Hbest]; [rewrite Hinf in E; discriminate|].
    split; [split; auto|].
    destruct Hbest as (r & q & _ & -> & _). discriminate.
Qed.

Lemma training_ends (fuel : nat) (episodes : list nat) :
  ~ In 0%Z (map sd_id stops) ->
  length stops <= fuel ->
  forall (tr : learning) (gens : generators),
    learning_ok stops tr ->
    exists tr' gens',
      sfold (train np fuel stops constraints) episodes (Some tr) gens
      = Ok (Some tr', gens')
      /\ learning_ok stops tr'
      /\ (episodes <> [] -> best_reward tr' <> NegInf).
Proof.
  intros Hzero Hfuel.
  induction episodes as [|x episodes IH]; intros tr gens Hok.
  - exists tr, gens. split; [reflexivity|]. split; [exact Hok|]. congruence.
  - destruct (@train_ends fuel tr x gens Hzero Hfuel Hok)
      as (tr1 & gens1 & Hrun & Hok1 & Hne).
    destruct (IH tr1 gens1 Hok1) as (tr' & gens' & Hrest & Hok' & Hne').
    exists tr', gens'. split; [|split; auto].
    + cbn [sfold]. step_with Hrun. exact Hrest.
    + intros _. destruct episodes as [|y episodes]; [|apply Hne'; discriminate].
      simpl in Hrest. unfold ret in Hrest. inversion Hrest; subst. exact Hne.
Qed.

Lemma training_stalled (fuel : nat) (episodes : list nat) (gens : generators) :
  sfold (train np fuel stops constraints) episodes None gens = Ok (None, gens).
Proof.
  induction episodes as [|x episodes IH]; [reflexivity|].
  cbn [sfold]. unfold bind. simpl. exact IH.
Qed.

(** A best route made of stops of the request is formatted without a
    failed lookup. *)
Lemma format_results_returns (self : t) (route : list Z)
    (buses : list bus_dict) (reward : xfloat) :
  incl route (map sd_id stops) ->
  exists result,
    _format_results np self (Some route) stops buses reward = Ok result.
Proof.
  intro Hids.
  exact (@format_results_total np self stops route buses reward Hids).
Qed.

(** X8 -- On a request without a stop of id 0, the learning optimizer
    returns: with a well-formed agent, a [max_time] that is a number or
    absent, at least one episode and as many passes of the episode loop
    allowed as there are stops, [optimize] returns the formatted best
    route, and that route visits every stop id of the request exactly
    once (it repeats no stop and holds each stop id of the request,
    unlike the genetic optimizer's routes, which are samples). *)
Theorem rl_optimize_visits_every_stop (fuel : nat) (self : t)
    (buses : list bus_dict) (gens : generators) :
  agent_ok (agent self) ->
  ~ In 0%Z (map sd_id stops) ->
  1 <= episodes self ->
  length stops <= fuel ->
  exists route reward result self' gens',
    optimize np fuel self stops buses constraints gens
    = Ok (Some (result, self'), gens')
    /\ _format_results np self (Some route) stops buses (Fin reward)
       = Ok result
    /\ NoDup route
    /\ (forall stop_id, In stop_id route <-> In stop_id (map sd_id stops))
    /\ agent_ok (agent self').
Proof.
  intros Hagent Hzero Hep Hfuel. unfold optimize.
  destruct (@training_ends fuel (seq 0 (episodes self)) Hzero Hfuel
              (mkLearning (agent self) None NegInf) gens)
    as (tr & gens' & Hrun & (Hag & Hbest) & Hne).
  { split; auto. }
  step_with Hrun.
  destruct Hbest as [Hinf|(route & reward & Hroute & Hreward & Hnd & Hcov)].
  { exfalso. apply Hne; auto.
    destruct (episodes self); [lia | discriminate]. }
  rewrite Hroute, Hreward.
  destruct (@format_results_returns self route buses (Fin reward))
    as (result & Hres).
  { intros x Hx. now apply Hcov. }
  rewrite (bind_pure _ _ Hres). unfold ret.
  exists route, reward, result. eexists _, gens'.
  split; [reflexivity|]. simpl. auto.
Qed.

(** X7 -- A stop of id 0 keeps the learning optimizer from ever
    returning.  [if next_stop] takes the id 0 for false, so the stop is
    never added to the route, the route never reaches the number of
    stops, and the stop stays available, so [done] stays false: with a
    well-formed agent and a [max_time] that is a number or absent, the
    first episode's loop is still running after any number of passes,
    without raising. *)
Theorem rl_optimize_stop_zero_never_ends (fuel : nat) (self : t)
    (buses : list bus_dict) (gens : generators) :
  agent_ok (agent self) ->
  In 0%Z (map sd_id stops) ->
  1 <= episodes self ->
  exists gens',
    optimize np fuel self stops buses constraints gens = Ok (None, gens').
Proof.
  intros Hagent Hzero Hep. unfold optimize.
  destruct (episodes self) as [|n]; [lia|].
  cbn [seq sfold]. destruct gens as [g gn].
  assert (Hfirst : exists gens1,
             train np fuel stops constraints
                   (Some (mkLearning (agent self) None NegInf)) 0 (g, gn)
             = Ok (None, gens1)).
  { unfold train.
    destruct (initialize_state_run stops g) as (traffic & weather & Hinit & _).
    rewrite (@bind_Ok _ _ _ _ _ _ _ _ (@py_random_run _ _ _ _ _ gn Hinit)).
    set (w0 := mkWalk _ _ _ _ _).
    destruct (@episode_stalls np stops constraints numeric fuel Hzero w0
                (mkRandom (stream g) (S (S (cursor g))), gn))
      as (gens1 & Hep1).
    - unfold w0, walk_ok. simpl.
      split; [exact Hagent|]. split; [constructor | intros ? []].
    - simpl. auto.
    - reflexivity.
    - step_with Hep1. unfold ret. eauto. }
  destruct Hfirst as (gens1 & Hfirst).
  rewrite bind_assoc. step_with Hfirst.
  rewrite (@bind_Ok _ _ _ _ _ _ _ _ (training_stalled fuel (seq 1 n) gens1)).
  unfold bind, ret. eauto.
Qed.

End Training.

Section NoStops.
Import Py Loops RLOptimizer Reference Invariant.

Variable np : numpy.

Lemma train_no_stops (fuel : nat) (constraints : dict) (tr : learning)
    (x : nat) (g gn : random_state) :
  length (DQN.memory (trained tr)) < 32 ->
  (best_route tr = None /\ best_reward tr = NegInf)
  \/ (best_route tr = Some [] /\ best_reward tr = Fin 0) ->
  train np fuel [] constraints (Some tr) x (g, gn)
  = Ok (Some (mkLearning (trained tr) (Some []) (Fin 0)),
        (mkRandom (stream g) (S (S (cursor g))), gn)).
Proof.
  intros Hmem Hbest. unfold train.
  destruct (initialize_state_run [] g) as (traffic & weather & Hinit & _).
  rewrite (@bind_Ok _ _ _ _ _ _ _ _ (@py_random_run _ _ _ _ _ gn Hinit)).
  set (w0 := mkWalk _ _ _ _ _).
  assert (Hep : forall gens,
             episode np fuel [] constraints w0 gens = Ok (Some w0, gens))
    by (intro gens; destruct fuel; reflexivity).
  rewrite (@bind_Ok _ _ _ _ _ _ _ _ (Hep _)). cbv beta iota.
  rewrite (@bind_Ok _ _ _ _ _ _ _ _
             (@py_random_run _ _ _ _ _ gn
                (@replay_skips (w_agent w0) 32 _ Hmem))).
  destruct Hbest as [[_ ->] | [Hr ->]]; simpl; unfold ret; [reflexivity|].
  rewrite Hr. reflexivity.
Qed.

Lemma training_no_stops (fuel : nat) (constraints : dict) (agent : DQN.t)
    (episodes : list nat) :
  length (DQN.memory agent) < 32 ->
  forall (tr : learning) (g gn : random_state),
    trained tr = agent ->
    (best_route tr = None /\ best_reward tr = NegInf)
    \/ (best_route tr = Some [] /\ best_reward tr = Fin 0) ->
    exists tr',
      sfold (train np fuel [] constraints) episodes (Some tr) (g, gn)
      = Ok (Some tr',
            (mkRandom (stream g) (cursor g + 2 * length episodes), gn))
      /\ trained tr' = agent
      /\ ((best_route tr' = None /\ best_reward tr' = NegInf)
          \/ (best_route tr' = Some [] /\ best_reward tr' = Fin 0)).
Proof.
  intro Hmem. induction episodes as [|x episodes IH]; intros tr g gn Hag Hbest.
  - exists tr. simpl. rewrite Nat.add_0_r. destruct g. auto.
  - cbn [sfold].
    rewrite (@bind_Ok _ _ _ _ _ _ _ _
               (@train_no_stops fuel constraints tr x g gn
                  ltac:(now rewrite Hag) Hbest)).
    destruct (IH (mkLearning (trained tr) (Some []) (Fin 0))
                 (mkRandom (stream g) (S (S (cursor g)))) gn Hag
                 (or_intror (conj eq_refl eq_refl)))
      as (tr' & Hrun & Hag' & Hbest').
    exists tr'. split; [|auto]. rewrite Hrun. simpl.
    repeat f_equal. lia.
Qed.

(** X6 -- With an empty stop list the learning optimizer returns
    [{'routes': [], 'metrics': {}}], whatever the vehicles and the
    constraints: no pass of the episode loop runs, each episode only
    draws the two values of its initial state, and an agent that holds
    fewer than 32 transitions is left as it was. *)
Theorem rl_optimize_no_stops (fuel : nat) (self : t) (buses : list bus_dict)
    (constraints : dict) (gens : generators) :
  length (DQN.memory (agent self)) < 32 ->
  optimize np fuel self [] buses constraints gens
  = Ok (Some ([ ("routes"%string, VList []); ("metrics"%string, VDict []) ],
              self),
        (mkRandom (stream (fst gens)) (cursor (fst gens) + 2 * episodes self),
         snd gens)).
Proof.
  intro Hmem. destruct gens as [g gn]. unfold optimize.
  destruct (@training_no_stops fuel constraints (agent self)
              (seq 0 (episodes self)) Hmem
              (mkLearning (agent self) None NegInf) g gn eq_refl
              (or_introl (conj eq_refl eq_refl)))
    as (tr & Hrun & Hag & Hbest).
  step_with Hrun. rewrite length_seq.
  assert (Hres : _format_results np self (best_route tr) [] buses (best_reward tr)
                 = Ok [ ("routes"%string, VList []);
                        ("metrics"%string, VDict []) ]).
  { destruct Hbest as [[-> _] | [-> _]]; reflexivity. }
  rewrite (bind_pure _ _ Hres). unfold ret. rewrite Hag.
  destruct self. reflexivity.
Qed.

End NoStops.

(** ** The agent's memory and table *)

Section ReplayMemory.
Import Py Loops DQN.

Lemma deque_append_length {A} (d : list A) (x : A) :
  length d <= maxlen -> length (deque_append d x) <= maxlen.
Proof.
  intro H. unfold deque_append.
  destruct (maxlen <=? length d) eqn:E.
  - apply Nat.leb_le in E. rewrite length_app. simpl.
    destruct d; simpl in *; [unfold maxlen in E; lia | lia].
  - apply Nat.leb_gt in E. rewrite length_app. simpl. lia.
Qed.

(** Appending to a buffer and keeping the latest [maxlen] entries. *)
Lemma deque_append_latest {A} (d rest : list A) (x : A) :
  length d <= maxlen ->
  skipn (length (deque_append d x ++ rest) - maxlen) (deque_append d x ++ rest)
  = skipn (length (d ++ x :: rest) - maxlen) (d ++ x :: rest).
Proof.
  intro H. unfold deque_append.
  destruct (maxlen <=? length d) eqn:E.
  - apply Nat.leb_le in E.
    destruct d as [|y d]; [unfold maxlen in E; simpl in E; lia|].
    cbn [tl]. rewrite <- !app_assoc. cbn [app].
    assert (Hl : maxlen <= length (d ++ x :: rest))
      by (rewrite length_app; cbn [length] in *; lia).
    replace (length (y :: d ++ x :: rest) - maxlen)
      with (S (length (d ++ x :: rest) - maxlen))
      by (cbn [length]; lia).
    reflexivity.
  - rewrite <- app_assoc. reflexivity.
Qed.

(** X9 -- The replay memory holds the latest 2000 transitions: after any
    sequence of [remember] calls on an agent whose memory is within the
    bound, the memory is the last 2000 entries of the old memory followed
    by the transitions remembered, in order, and never exceeds 2000
    entries. *)
Theorem memory_keeps_latest (l : list experience) (self : t) :
  length (memory self) <= maxlen ->
  memory (fold_left remember l self)
  = skipn (length (memory self ++ l) - maxlen) (memory self ++ l)
  /\ length (memory (fold_left remember l self)) <= maxlen.
Proof.
  revert self. induction l as [|e l IH]; intros self H.
  - simpl. rewrite app_nil_r.
    replace (length (memory self) - maxlen) with 0 by lia. auto.
  - cbn [fold_left].
    destruct (IH (remember self e)) as [Heq Hlen].
    { simpl. now apply deque_append_length. }
    split; [|exact Hlen]. rewrite Heq. simpl memory.
    now apply deque_append_latest.
Qed.

Lemma nth_error_set_nth {A} (l : list A) (i : nat) (v : A) :
  i < length l -> nth_error (set_nth l i v) i = Some v.
Proof.
  revert i. induction l as [|h t IH]; intros [|i] H; simpl in *; try lia; auto.
  apply IH. lia.
Qed.

(** X11 -- One learning step of [replay] that succeeds overwrites the
    table entry of the transition's state and action with the target:
    looking the state up afterwards gives a row whose entry at the action
    is exactly the reward for a terminal transition, and the reward plus
    [gamma] times the greatest value of the next state's row otherwise.
    The previous value of the entry plays no part ([learning_rate] is
    never read). *)
Theorem learn_overwrites (self : t) (tbl tbl' : list (list Q * list Q))
    (e : experience) :
  learn self tbl e = Ok tbl' ->
  exists row i target,
    table_get tbl' (state_key (state e)) = Some row
    /\ array_index (length row) (action e) = Ok i
    /\ nth_error row i = Some target
    /\ (done e = true -> target = reward e)
    /\ (done e = false ->
        exists next_row best,
          table_get (ensure_row (action_size self)
                       (ensure_row (action_size self) tbl (state_key (state e)))
                       (state_key (next_state e)))
                    (state_key (next_state e)) = Some next_row
          /\ np_max next_row = Ok best
          /\ target = (reward e + gamma self * best)%Q).
Proof.
  unfold learn. cbv zeta.
  set (tbl1 := ensure_row _ (ensure_row _ tbl _) _).
  intro H.
  match type of H with
  | rbind ?t _ = _ => destruct t as [target|] eqn:Et; [|discriminate]
  end.
  cbn [rbind] in H.
  destruct (table_get tbl1 (state_key (state e))) as [row|] eqn:Erow;
    [|discriminate].
  cbn [rbind] in H.
  destruct (array_index (length row) (action e)) as [i|] eqn:Ei; [|discriminate].
  cbn [rbind] in H. unfold setitem in H.
  destruct (i <? length row) eqn:Elt; [|discriminate].
  cbn [rbind] in H. inversion H; subst tbl'.
  apply Nat.ltb_lt in Elt.
  exists (set_nth row i target), i, target.
  split; [apply table_get_set_same|].
  split; [now rewrite set_nth_length|].
  split; [now apply nth_error_set_nth|].
  split.
  - intro Hd. rewrite Hd in Et. now inversion Et.
  - intro Hd. rewrite Hd in Et.
    destruct (table_get tbl1 (state_key (next_state e))) as [next_row|];
      [|discriminate].
    cbn [rbind] in Et.
    destruct (np_max next_row) as [best|] eqn:Eb; [|discriminate].
    cbn [rbind] in Et. inversion Et; subst. eauto.
Qed.

End ReplayMemory.


Section LearningExamples.
Import Py Loops Reference Invariant.

Lemma act_in_range_witness :
  let self := DQN.__init__ 24 10 in
  let w := (mkRandom (fun n => N.of_nat (7 * n + 3)) 0,
            mkRandom (fun n => N.of_nat (5 * n + 1)) 0) in
  (0 < DQN.action_size self ->
   exists a self' w',
     DQN.act self (repeat 0%Q 24) w = Ok ((a, self'), w')
     /\ a < DQN.action_size self
     /\ DQN.action_size self' = DQN.action_size self
     /\ DQN.memory self' = DQN.memory self
     /\ rows_sized (DQN.action_size self') (DQN.q_table self'))
  /\ (DQN.action_size self = 0 ->
      DQN.act self (repeat 0%Q 24) w = Raise ValueError).
Proof.
  intros self w. apply (@act_in_range self (repeat 0%Q 24) w). constructor.
Defined.

Lemma reward_bounds_witness :
  let route := [1%Z] in
  let stops := Reference.square in
  let constraints : dict := [] in
  RLOptimizer._calculate_reward NumpyApprox.np route None stops constraints
  = Ok (- (10))%Q
  /\ (forall stop_id stop,
         RLOptimizer.stop_by_id stops stop_id = Ok stop ->
         incl route (map sd_id stops) ->
         (numeric_max_time constraints ->
          exists reward,
            RLOptimizer._calculate_reward NumpyApprox.np route (Some stop_id)
                                          stops constraints
            = Ok reward
            /\ (reward <= inject_Z (RLOptimizer.students stop) * 2)%Q
            /\ (route = [] ->
                dict_get constraints "max_time" = None ->
                (reward == inject_Z (RLOptimizer.students stop) * 2)%Q))
         /\ (~ numeric_max_time constraints ->
             RLOptimizer._calculate_reward NumpyApprox.np route (Some stop_id)
                                           stops constraints
             = Raise TypeError)).
Proof.
  intros route stops constraints.
  exact (@reward_bounds NumpyApprox.np approx_ok route stops constraints).
Defined.

Lemma rl_optimize_no_stops_witness :
  let gens := (mkRandom (fun n => N.of_nat n) 0, mkRandom (fun n => N.of_nat n) 0) in
  RLOptimizer.optimize NumpyApprox.np 0 RLOptimizer.__init__ []
                       [mkBusDict 1 50] [] gens
  = Ok (Some ([ ("routes"%string, VList []); ("metrics"%string, VDict []) ],
              RLOptimizer.__init__),
        (mkRandom (stream (fst gens))
                  (cursor (fst gens) + 2 * RLOptimizer.episodes RLOptimizer.__init__),
         snd gens)).
Proof.
  intro gens.
  apply (@rl_optimize_no_stops NumpyApprox.np 0 RLOptimizer.__init__
           [mkBusDict 1 50] [] gens).
  cbn. lia.
Defined.

(** The agent of a new learning optimizer is well formed. *)
Lemma fresh_agent_ok : agent_ok (RLOptimizer.agent RLOptimizer.__init__).
Proof.
  unfold agent_ok. cbn. split; [lia|]. split; constructor.
Qed.

Lemma rl_optimize_stop_zero_never_ends_witness :
  exists gens',
    RLOptimizer.optimize NumpyApprox.np 1000 RLOptimizer.__init__
      [ mkStopDict 0 0 0 (Some 5%Z); mkStopDict 1 0 (9 # 1000) (Some 5%Z) ]
      [mkBusDict 1 50] []
      (mkRandom (fun n => N.of_nat n) 0, mkRandom (fun n => N.of_nat n) 0)
    = Ok (None, gens').
Proof.
  apply (@rl_optimize_stop_zero_never_ends NumpyApprox.np
           [ mkStopDict 0 0 0 (Some 5%Z); mkStopDict 1 0 (9 # 1000) (Some 5%Z) ]
           [] I 1000 RLOptimizer.__init__ [mkBusDict 1 50]).
  - exact fresh_agent_ok.
  - cbn. auto.
  - cbn. lia.
Defined.

Lemma rl_optimize_visits_every_stop_witness :
  exists route reward result self' gens',
    RLOptimizer.optimize NumpyApprox.np 4 RLOptimizer.__init__ Reference.square
      [mkBusDict 1 50] []
      (mkRandom (fun n => N.of_nat n) 0, mkRandom (fun n => N.of_nat n) 0)
    = Ok (Some (result, self'), gens')
    /\ RLOptimizer._format_results NumpyApprox.np RLOptimizer.__init__
         (Some route) Reference.square [mkBusDict 1 50] (Fin reward)
       = Ok result
    /\ NoDup route
    /\ (forall stop_id,
           In stop_id route <-> In stop_id (map sd_id Reference.square))
    /\ agent_ok (RLOptimizer.agent self').
Proof.
  apply (@rl_optimize_visits_every_stop NumpyApprox.np Reference.square [] I 4
           RLOptimizer.__init__ [mkBusDict 1 50]).
  - exact fresh_agent_ok.
  - cbn. intuition discriminate.
  - cbn. lia.
  - cbn. lia.
Defined.

Lemma to_vector_shape_witness :
  let self := RouteState.mk Reference.square [3; 1]%Z (1 # 2) "rain" in
  exists route_features,
    RouteState.to_vector self
    = Ok ([ inject_Z 2; (1 # 2)%Q; (1 # 2)%Q; inject_Z 4 ] ++ route_features)
    /\ length route_features = 20
    /\ Forall (fun x => (Qabs x < inject_Z float_bound)%Q) route_features
    /\ forall i,
         i < 20 ->
         nth_error route_features i
         = Some (match nth_error [3; 1]%Z i with
                 | Some stop_id => (inject_Z stop_id / inject_Z 4)%Q
                 | None => 0%Q
                 end).
Proof.
  intro self. apply (@to_vector_shape self).
  repeat constructor; unfold float_sized; vm_compute; reflexivity.
Defined.

Lemma memory_keeps_latest_witness :
  let l := [ terminal_step; terminal_step ] in
  let self := DQN.__init__ 24 10 in
  DQN.memory (fold_left DQN.remember l self)
  = skipn (length (DQN.memory self ++ l) - DQN.maxlen) (DQN.memory self ++ l)
  /\ length (DQN.memory (fold_left DQN.remember l self)) <= DQN.maxlen.
Proof.
  intros l self. apply (@memory_keeps_latest l self). cbn. lia.
Defined.

Lemma epsilon_range_witness :
  let self := DQN.__init__ 24 10 in
  let g := mkRandom (fun n => N.of_nat n) 0 in
  exists self' g',
    DQN.run [ DQN.Remember terminal_step; DQN.Replay 1 ] self g = Ok (self', g')
    /\ (DQN.epsilon self' <= DQN.epsilon self)%Q
    /\ (DQN.epsilon_min self * DQN.epsilon_decay self
        <= DQN.epsilon self' <= 1)%Q
    /\ DQN.epsilon_min self' = DQN.epsilon_min self
    /\ DQN.epsilon_decay self' = DQN.epsilon_decay self.
Proof.
  intros self g. eexists _, _. split; [vm_compute; reflexivity|].
  eapply (@epsilon_range [ DQN.Remember terminal_step; DQN.Replay 1 ] self _ g).
  - vm_compute. reflexivity.
  - cbn. lra.
  - cbn. lra.
  - cbn. lra.
Defined.

Lemma learn_overwrites_witness :
  let self := DQN.__init__ 24 10 in
  exists tbl',
    DQN.learn self [] terminal_step = Ok tbl'
    /\ exists row i target,
         DQN.table_get tbl' (DQN.state_key (DQN.state terminal_step)) = Some row
         /\ DQN.array_index (length row) (DQN.action terminal_step) = Ok i
         /\ nth_error row i = Some target
         /\ (DQN.done terminal_step = true -> target = DQN.reward terminal_step)
         /\ (DQN.done terminal_step = false ->
             exists next_row best,
               DQN.table_get
                 (DQN.ensure_row (DQN.action_size self)
                    (DQN.ensure_row (DQN.action_size self) []
                       (DQN.state_key (DQN.state terminal_step)))
                    (DQN.state_key (DQN.next_state terminal_step)))
                 (DQN.state_key (DQN.next_state terminal_step)) = Some next_row
               /\ DQN.np_max next_row = Ok best
               /\ target = (DQN.reward terminal_step + DQN.gamma self * best)%Q).
Proof.
  intro self. eexists. split; [vm_compute; reflexivity|].
  apply (@learn_overwrites self [] _ terminal_step).
  vm_compute. reflexivity.
Defined.

End LearningExamples.

(** ** The initial population *)

Section SamplingFacts.
Import Py Loops.

(** What a sample that returns holds. *)
Lemma sample_inv {A} (p : list A) (k : nat) (g g' : random_state) (l : list A) :
  sample p k g = Ok (l, g') ->
  length l = k /\ exists rest, Permutation (l ++ rest) p.
Proof.
  intro H. destruct (Nat.le_gt_cases k (length p)) as [Hk|Hk].
  - destruct (@sample_ok _ p k g Hk) as (l0 & rest & g0 & H0 & Hl & Hp).
    rewrite H0 in H. inversion H; subst. eauto.
  - unfold sample in H.
    destruct (length p <? k) eqn:E; [discriminate|].
    apply Nat.ltb_ge in E. lia.
Qed.

Lemma concat_repeat_length {A} (l : list A) (n : nat) :
  length (concat (repeat l n)) = n * length l.
Proof.
  induction n as [|n IH]; simpl; auto. rewrite length_app, IH. lia.
Qed.

Lemma concat_repeat_nth {A} (l : list A) (n i : nat) :
  i < n * length l ->
  nth_error (concat (repeat l n)) i = nth_error l (i mod length l).
Proof.
  revert i. induction n as [|n IH]; intros i Hi; [lia|].
  simpl. destruct (Nat.lt_ge_cases i (length l)) as [Hlt|Hge].
  - rewrite nth_error_app1 by lia. now rewrite Nat.mod_small.
  - rewrite nth_error_app2 by lia. rewrite IH by lia.
    f_equal.
    replace i with (i - length l + 1 * length l) at 2 by lia.
    symmetry. apply Nat.Div0.mod_add.
Qed.

End SamplingFacts.

Section Initialisation.
Import Py Loops GeneticAlgorithmOptimizer Invariant.

Variable self : t.
Variable stops : list Stop.t.
Variable buses : list Bus.t.
Hypothesis three_stops : 3 <= length stops.

(** One pass over the vehicles adds one sampled route per vehicle, in
    the order of the vehicles. *)
Lemma vehicles_run (bs : list Bus.t) :
  forall (population : list Route.t) (g : random_state),
    exists routes g',
      mfold (fun population bus =>
               n <- randint 3 (length (map Stop.id stops)) ;;
               route_stops <-
                 sample (map Stop.id stops)
                        (Nat.min (length (map Stop.id stops)) n) ;;
               ret (population ++ [Route.new (Bus.id bus) route_stops]))
            bs population g = Ok (population ++ routes, g')
      /\ map Route.bus_id routes = map Bus.id bs
      /\ Forall (sampled stops) routes.
Proof.
  induction bs as [|bus bs IH]; intros population g.
  - exists [], g. rewrite app_nil_r. simpl. auto.
  - cbn [mfold].
    destruct (@randint_run 3 (length (map Stop.id stops)) g)
      as (n & g1 & Hn & Hrange); [rewrite length_map; lia|].
    rewrite bind_assoc. step_with Hn.
    destruct (@sample_ok _ (map Stop.id stops)
                (Nat.min (length (map Stop.id stops)) n) g1)
      as (l & rest & g2 & Hs & Hl & Hperm); [lia|].
    rewrite bind_assoc. step_with Hs. unfold ret at 1.
    rewrite (@bind_Ok _ _ _ _ _ _ _ _ eq_refl).
    destruct (IH (population ++ [Route.new (Bus.id bus) l]) g2)
      as (routes & g' & Hrun & Hbus & Hok).
    exists (Route.new (Bus.id bus) l :: routes), g'.
    split; [|split].
    + rewrite Hrun, <- app_assoc. reflexivity.
    + simpl. now rewrite Hbus.
    + constructor; auto. split; simpl; [lia | eauto].
Qed.

(** The rounds add one such pass each. *)
Lemma rounds_run (rounds : list nat) :
  forall (population : list Route.t) (g : random_state),
    exists routes g',
      mfold (fun population (_ : nat) =>
               mfold (fun population bus =>
                        n <- randint 3 (length (map Stop.id stops)) ;;
                        route_stops <-
                          sample (map Stop.id stops)
                                 (Nat.min (length (map Stop.id stops)) n) ;;
                        ret (population ++ [Route.new (Bus.id bus) route_stops]))
                     buses population)
            rounds population g = Ok (population ++ routes, g')
      /\ map Route.bus_id routes
         = concat (repeat (map Bus.id buses) (length rounds))
      /\ Forall (sampled stops) routes.
Proof.
  induction rounds as [|x rounds IH]; intros population g.
  - exists [], g. rewrite app_nil_r. simpl. auto.
  - cbn [mfold].
    destruct (vehicles_run buses population g) as (r1 & g1 & Hrun1 & Hbus1 & Hok1).
    step_with Hrun1.
    destruct (IH (population ++ r1) g1) as (r2 & g' & Hrun2 & Hbus2 & Hok2).
    exists (r1 ++ r2), g'. split; [|split].
    + rewrite Hrun2, <- app_assoc. reflexivity.
    + rewrite map_app, Hbus1, Hbus2. reflexivity.
    + apply Forall_app. auto.
Qed.

(** Initialisation returns the first [population_size] of the routes
    the rounds add. *)
Lemma initialize_population_run (g : random_state) :
  exists p g',
    _initialize_population self stops buses g
    = Ok (firstn (population_size self) p, g')
    /\ map Route.bus_id p
       = concat (repeat (map Bus.id buses) (population_size self))
    /\ Forall (sampled stops) p.
Proof.
  unfold _initialize_population. cbv zeta.
  destruct (rounds_run (seq 0 (population_size self)) [] g)
    as (p & g' & Hrun & Hbus & Hok).
  step_with Hrun. unfold ret. rewrite length_seq in Hbus.
  exists p, g'. auto.
Qed.

(** X12 -- With at least three stops and at least one vehicle,
    [_initialize_population] returns, whatever the generator state,
    exactly [population_size] routes; route [i] is on vehicle
    [i mod len(buses)], so vehicles beyond the first [population_size]
    get no route; every route holds between three stops and all of them,
    all stops of the request, none repeated when the stop ids are
    distinct. *)
Theorem initialize_population_shape (g : random_state) :
  buses <> [] ->
  exists p g',
    _initialize_population self stops buses g = Ok (p, g')
    /\ length p = population_size self
    /\ (forall i r,
           nth_error p i = Some r ->
           exists bus,
             nth_error buses (i mod length buses) = Some bus
             /\ Route.bus_id r = Bus.id bus)
    /\ Forall (fun r =>
                 3 <= length (Route.stops r) <= length stops
                 /\ incl (Route.stops r) (map Stop.id stops)
                 /\ (NoDup (map Stop.id stops) -> NoDup (Route.stops r)))
              p.
Proof.
  intro Hbuses.
  destruct (initialize_population_run g) as (p & g' & Hrun & Hbus & Hok).
  assert (Hm : 1 <= length buses) by (destruct buses; [contradiction | simpl; lia]).
  assert (Hlen : length p = population_size self * length buses).
  { rewrite <- (length_map Route.bus_id), Hbus, concat_repeat_length.
    now rewrite length_map. }
  exists (firstn (population_size self) p), g'.
  split; [exact Hrun|]. split; [|split].
  - rewrite length_firstn. nia.
  - intros i r Hi. rewrite nth_error_firstn in Hi.
    destruct (i <? population_size self) eqn:E; [|discriminate].
    apply Nat.ltb_lt in E.
    pose proof (map_nth_error Route.bus_id _ _ Hi) as Hb.
    rewrite Hbus, concat_repeat_nth in Hb by (rewrite length_map; nia).
    rewrite length_map, nth_error_map in Hb.
    destruct (nth_error buses (i mod length buses)) as [bus|]; [|discriminate].
    exists bus. split; auto. simpl in Hb. congruence.
  - apply Forall_firstn. eapply Forall_impl; [|exact Hok].
    intros r (H3 & rest & Hperm).
    pose proof (Permutation_length Hperm) as Hl.
    rewrite length_app, length_map in Hl.
    split; [lia|]. split; [eapply sample_incl; eauto|].
    intro Hnd. apply (Permutation_NoDup (Permutation_sym Hperm)) in Hnd.
    now apply NoDup_app_remove_r in Hnd.
Qed.

End Initialisation.

(** ** Routes without repeated stops *)

Section NoRepeats.
Import Py Loops GeneticAlgorithmOptimizer Invariant.

Variable np : numpy.
Variable self : t.
Variable stops : list Stop.t.
Variable buses : list Bus.t.

(** A property of the accumulator that every pass that returns keeps
    holds after a loop that returns. *)
Lemma mfold_keeps {A B} (f : A -> B -> M A) (P : A -> Prop) (l : list B) :
  (forall a x g a' g', P a -> f a x g = Ok (a', g') -> P a') ->
  forall a g a' g', P a -> mfold f l a g = Ok (a', g') -> P a'.
Proof.
  intro Hf. induction l as [|x l IH]; intros a g a' g' Ha H.
  - simpl in H. unfold ret in H. now inversion H; subst.
  - simpl in H. unfold bind in H.
    destruct (f a x g) as [[a1 g1]|] eqn:E; [|discriminate].
    eapply IH; [|exact H]. eapply Hf; eauto.
Qed.

Lemma rmap_keeps {A B} (f : A -> result B) (P : A -> Prop) (Q : B -> Prop)
    (l : list A) :
  (forall x y, P x -> f x = Ok y -> Q y) ->
  forall ys, Forall P l -> rmap f l = Ok ys -> Forall Q ys.
Proof.
  intro Hf. induction l as [|x l IH]; intros ys Hl H.
  - simpl in H. inversion H. constructor.
  - simpl in H. inversion Hl as [|? ? Hx Hl']; subst.
    destruct (f x) as [y|] eqn:E; [|discriminate]. simpl in H.
    destruct (rmap f l) as [ys'|] eqn:E'; [|discriminate]. simpl in H.
    inversion H; subst. constructor; eauto.
Qed.

Lemma initialize_no_repeat (g g' : random_state) (p : list Route.t) :
  NoDup (map Stop.id stops) ->
  _initialize_population self stops buses g = Ok (p, g') ->
  Forall no_repeat p.
Proof.
  intros Hids H. unfold _initialize_population in H. cbv zeta in H.
  unfold bind at 1 in H.
  match type of H with
  | match ?m with _ => _ end = _ => destruct m as [[q g1]|] eqn:E; [|discriminate]
  end.
  unfold ret in H. inversion H; subst. apply Forall_firstn.
  revert E. apply mfold_keeps; [|constructor].
  intros a _ g0 a' g0' Ha. apply mfold_keeps; [|exact Ha].
  clear - Hids. intros a bus g a' g' Ha H.
  unfold bind in H.
  destruct (randint 3 _ g) as [[n g1]|]; [|discriminate].
  destruct (sample _ _ g1) as [[l g2]|] eqn:Es; [|discriminate].
  unfold ret in H. inversion H; subst.
  apply Forall_app. split; auto. repeat constructor. simpl.
  apply sample_inv in Es. destruct Es as (_ & rest & Hperm).
  apply (Permutation_NoDup (Permutation_sym Hperm)) in Hids.
  now apply NoDup_app_remove_r in Hids.
Qed.

Lemma tournament_member (p : list Route.t) (k : nat) (g g' : random_state)
    (r : Route.t) :
  _tournament_selection p k g = Ok (r, g') -> In r p.
Proof.
  unfold _tournament_selection, bind, lift. intro H.
  destruct (sample p k g) as [[l g1]|] eqn:Es; [|discriminate].
  apply sample_inv in Es. destruct Es as (_ & rest & Hperm).
  destruct l as [|x l]; [discriminate|]. simpl in H. inversion H; subst.
  eapply sample_incl; [exact Hperm|]. apply max_by_fitness_In.
Qed.

Lemma crossover_no_repeat (parent1 parent2 child1 child2 : Route.t)
    (g g' : random_state) :
  _crossover parent1 parent2 g = Ok ((child1, child2), g') ->
  no_repeat parent1 -> no_repeat parent2 ->
  no_repeat child1 /\ no_repeat child2.
Proof.
  intros H H1 H2.
  destruct (crossover_returns parent1 parent2 g)
    as (c1 & c2 & g0 & Hrun & _ & _ & Hshape).
  rewrite Hrun in H. inversion H; subst. unfold no_repeat in *.
  destruct Hshape as [[-> ->] | (start & end_ & -> & ->)]; [auto|].
  split; apply fill_NoDup; now apply slice_NoDup.
Qed.

Lemma mutate_no_repeat (route mutated : Route.t) (g g' : random_state) :
  _mutate route g = Ok (mutated, g') -> no_repeat route -> no_repeat mutated.
Proof.
  intros H Hr.
  destruct (mutate_returns route g) as (m & g0 & Hrun & _ & Hp & _).
  rewrite Hrun in H. inversion H; subst. unfold no_repeat in *.
  eapply Permutation_NoDup; [apply Permutation_sym, Hp | exact Hr].
Qed.

Lemma offspring_no_repeat (p : list Route.t) (child1 child2 : Route.t)
    (g g' : random_state) :
  offspring self p g = Ok ((child1, child2), g') ->
  Forall no_repeat p ->
  no_repeat child1 /\ no_repeat child2.
Proof.
  intros H Hp. rewrite Forall_forall in Hp. unfold offspring, bind in H.
  destruct (_tournament_selection p 3 g) as [[p1 g1]|] eqn:E1; [|discriminate].
  destruct (_tournament_selection p 3 g1) as [[p2 g2]|] eqn:E2; [|discriminate].
  apply tournament_member in E1, E2.
  destruct (random g2) as [[r g3]|]; [|discriminate].
  match type of H with
  | match ?m with _ => _ end = _ => destruct m as [[[c1 c2] g4]|] eqn:Ec; [|discriminate]
  end.
  assert (Hc : no_repeat c1 /\ no_repeat c2).
  { destruct (Qltb r (crossover_rate self)).
    - eapply crossover_no_repeat; eauto.
    - unfold ret in Ec. inversion Ec; subst. auto. }
  destruct Hc as [Hc1 Hc2].
  destruct (random g4) as [[r1 g5]|]; [|discriminate].
  match type of H with
  | match ?m with _ => _ end = _ => destruct m as [[m1 g6]|] eqn:Em1; [|discriminate]
  end.
  destruct (random g6) as [[r2 g7]|]; [|discriminate].
  match type of H with
  | match ?m with _ => _ end = _ => destruct m as [[m2 g8]|] eqn:Em2; [|discriminate]
  end.
  unfold ret in H. inversion H; subst. split.
  - destruct (Qltb r1 (mutation_rate self)).
    + eapply mutate_no_repeat; eauto.
    + unfold ret in Em1. now inversion Em1; subst.
  - destruct (Qltb r2 (mutation_rate self)).
    + eapply mutate_no_repeat; eauto.
    + unfold ret in Em2. now inversion Em2; subst.
Qed.

Lemma reproduce_no_repeat (p : list Route.t) (deficit : nat) :
  Forall no_repeat p ->
  forall (new_population refilled : list Route.t) (g g' : random_state),
    reproduce self deficit p new_population g = Ok (refilled, g') ->
    Forall no_repeat new_population ->
    Forall no_repeat refilled.
Proof.
  intro Hp. induction deficit as [d IH] using lt_wf_ind.
  intros new_population refilled g g' H Hn.
  destruct d as [|d].
  - simpl in H. unfold ret in H. now inversion H; subst.
  - cbn [reproduce] in H. unfold bind in H.
    destruct (offspring self p g) as [[[c1 c2] g1]|] eqn:Eo; [|discriminate].
    destruct (@offspring_no_repeat _ _ _ _ _ Eo Hp) as [Hc1 Hc2].
    assert (Hn1 : Forall no_repeat (new_population ++ [c1; c2])).
    { apply Forall_app. split; auto. }
    destruct d as [|d].
    + unfold ret in H. now inversion H; subst.
    + eapply (IH d); eauto.
Qed.

(** A generation that returns keeps the routes, and the best route
    tracked, free of repeated stops. *)
Lemma generation_no_repeat (st st' : search) (g g' : random_state) :
  generation np self stops buses st g = Ok (st', g') ->
  Forall no_repeat (population st) ->
  (forall r, best_solution st = Some r -> no_repeat r) ->
  Forall no_repeat (population st')
  /\ (forall r, best_solution st' = Some r -> no_repeat r).
Proof.
  intros H Hp Hb. unfold generation, bind, lift in H.
  destruct (rmap _ (population st)) as [evaluated|] eqn:Ee; [|discriminate].
  assert (He : Forall no_repeat evaluated).
  { revert Ee. apply (@rmap_keeps _ _ _ no_repeat no_repeat); [|exact Hp].
    intros x y Hx Hy.
    destruct (_calculate_fitness np self x stops buses); [|discriminate].
    simpl in Hy. inversion Hy; subst. exact Hx. }
  assert (Hs : Forall no_repeat (sort_desc evaluated)).
  { eapply Permutation_Forall;
      [apply Permutation_sym, sort_desc_permutation | exact He]. }
  destruct (getitem (sort_desc evaluated) 0) as [first|] eqn:Eg; [|discriminate].
  assert (Hfirst : no_repeat first).
  { unfold getitem in Eg.
    destruct (nth_error (sort_desc evaluated) 0) eqn:En; [|discriminate].
    inversion Eg; subst. rewrite Forall_forall in Hs. apply Hs.
    eapply nth_error_In; eauto. }
  destruct (xltb (best_fitness st) (Fin (Route.fitness first)));
    (destruct (reproduce _ _ _ _ g) as [[refilled g1]|] eqn:Er; [|discriminate]);
    unfold ret in H; inversion H; subst; cbn [population best_solution];
    (split;
     [ rewrite slice_from_start; apply Forall_firstn;
       eapply reproduce_no_repeat; [exact Hs | exact Er |];
       rewrite slice_from_start; now apply Forall_firstn
     | ]).
  - intros r Hr. inversion Hr; subst. exact Hfirst.
  - exact Hb.
Qed.

Lemma run_generations_no_repeat (k : nat) :
  forall (st st' : search) (g g' : random_state),
    run_generations np self stops buses k st g = Ok (st', g') ->
    Forall no_repeat (population st) ->
    (forall r, best_solution st = Some r -> no_repeat r) ->
    Forall no_repeat (population st')
    /\ (forall r, best_solution st' = Some r -> no_repeat r).
Proof.
  induction k as [|k IH]; intros st st' g g' H Hp Hb.
  - simpl in H. unfold ret in H. inversion H; subst. auto.
  - cbn [run_generations] in H. unfold bind in H.
    destruct (generation np self stops buses st g) as [[st1 g1]|] eqn:Eg;
      [|discriminate].
    destruct (@generation_no_repeat _ _ _ _ Eg Hp Hb) as [Hp1 Hb1].
    eapply IH; eauto.
Qed.

(** X13 -- When the stop ids of the request are distinct, no route of
    the search ever visits a stop twice: after initialisation and any
    number of generations that return, every route of the population,
    and the best route tracked, repeats no stop id. *)
Theorem search_no_repeated_stop (k : nat) (g g' : random_state) (st : search) :
  NoDup (map Stop.id stops) ->
  evolve np self stops buses k g = Ok (st, g') ->
  Forall (fun r => NoDup (Route.stops r)) (population st)
  /\ (forall r, best_solution st = Some r -> NoDup (Route.stops r)).
Proof.
  intros Hids H. unfold evolve, bind in H.
  destruct (_initialize_population self stops buses g) as [[p g0]|] eqn:Ei;
    [|discriminate].
  apply (@run_generations_no_repeat _ _ _ _ _ H).
  - eapply initialize_no_repeat; eauto.
  - discriminate.
Qed.

End NoRepeats.

(** ** Elitism *)

Section Elitism.
Import Py Loops GeneticAlgorithmOptimizer Invariant.

Variable np : numpy.
Variable self : t.
Variable stops : list Stop.t.
Variable buses : list Bus.t.

Lemma xltb_false_xle (x y : xfloat) : xltb x y = false -> xle y x.
Proof.
  destruct x, y; simpl; try discriminate; auto.
  intro H. now apply Qltb_ge in H.
Qed.

(** The head of the sorted population is at least as fit as every
    route. *)
Lemma sort_desc_head (l : list Route.t) :
  forall h t,
    sort_desc l = h :: t ->
    Forall (fun r => (Route.fitness r <= Route.fitness h)%Q) l.
Proof.
  induction l as [|x l IH]; intros h t H; [constructor|].
  change (insert_desc x (sort_desc l) = h :: t) in H.
  destruct (sort_desc l) as [|y s] eqn:Es.
  - assert (Hl : l = []).
    { pose proof (Permutation_length (sort_desc_permutation l)) as Hp.
      rewrite Es in Hp. destruct l; [reflexivity | discriminate]. }
    subst l. simpl in H. inversion H; subst.
    repeat constructor. apply Qle_refl.
  - specialize (IH y s eq_refl). simpl in H.
    destruct (Qltb (Route.fitness x) (Route.fitness y)) eqn:E.
    + inversion H; subst. constructor; auto.
      apply Qltb_lt in E. now apply Qlt_le_weak.
    + inversion H; subst. apply Qltb_ge in E.
      constructor; [apply Qle_refl|].
      eapply Forall_impl; [|exact IH]. intros r Hr. cbv beta in Hr.
      eapply Qle_trans; eauto.
Qed.

(** The reproduction loop only appends. *)
Lemma reproduce_appends (p : list Route.t) (deficit : nat) :
  forall (new_population refilled : list Route.t) (g g' : random_state),
    reproduce self deficit p new_population g = Ok (refilled, g') ->
    exists children, refilled = new_population ++ children.
Proof.
  induction deficit as [d IH] using lt_wf_ind.
  intros new_population refilled g g' H.
  destruct d as [|d].
  - simpl in H. unfold ret in H. inversion H; subst.
    exists []. now rewrite app_nil_r.
  - cbn [reproduce] in H. unfold bind in H.
    destruct (offspring self p g) as [[[c1 c2] g1]|]; [|discriminate].
    destruct d as [|d].
    + unfold ret in H. inversion H; subst. eauto.
    + apply (IH d) in H; [|lia]. destruct H as (children & ->).
      exists ([c1; c2] ++ children). now rewrite app_assoc.
Qed.

(** X14 -- Elitism: a generation that returns, with a population size of
    at least one, has evaluated every route, and the first route of the
    next population is a fittest route of the evaluated one, carried over
    unchanged; the best fitness tracked is at least its fitness. *)
Theorem generation_keeps_fittest (st st' : search) (g g' : random_state) :
  1 <= population_size self ->
  generation np self stops buses st g = Ok (st', g') ->
  exists evaluated first,
    rmap (fun route =>
            f <-! _calculate_fitness np self route stops buses ;;
            Ok (Route.set_fitness route f))
         (population st) = Ok evaluated
    /\ In first evaluated
    /\ Forall (fun r => (Route.fitness r <= Route.fitness first)%Q) evaluated
    /\ hd_error (population st') = Some first
    /\ xle (Fin (Route.fitness first)) (best_fitness st').
Proof.
  intros Hps H. unfold generation in H. unfold bind at 1 in H. unfold lift at 1 in H.
  destruct (rmap _ (population st)) as [evaluated|] eqn:Ee; [|discriminate].
  unfold bind at 1 in H. unfold lift at 1 in H.
  destruct (getitem (sort_desc evaluated) 0) as [first|] eqn:Eg; [|discriminate].
  unfold getitem in Eg.
  destruct (sort_desc evaluated) as [|h t] eqn:Es; [discriminate|].
  simpl in Eg. inversion Eg; subst h.
  exists evaluated, first. split; [reflexivity|].
  split.
  { eapply Permutation_in; [apply sort_desc_permutation|].
    rewrite Es. simpl. auto. }
  split; [eapply sort_desc_head; eauto|].
  assert (Hhd : forall refilled,
             (exists children, refilled = slice (first :: t) 0 2 ++ children) ->
             hd_error (slice refilled 0 (population_size self)) = Some first).
  { intros refilled (children & ->). rewrite !slice_from_start.
    destruct (population_size self); [lia|]. reflexivity. }
  destruct (xltb (best_fitness st) (Fin (Route.fitness first))) eqn:E;
    unfold bind in H;
    (destruct (reproduce _ _ _ _ g) as [[refilled g1]|] eqn:Er; [|discriminate]);
    apply reproduce_appends in Er;
    unfold ret in H; inversion H; subst; cbn [population best_fitness];
    (split; [now apply Hhd|]).
  - apply Qle_refl.
  - now apply xltb_false_xle.
Qed.

End Elitism.

(** ** Requests the search fails on *)

Section RequestFacts.
Import Py Loops GeneticAlgorithmOptimizer Invariant.

Lemma stop_objects_ids (stops : list stop_dict) :
  map Stop.id (stop_objects stops) = map sd_id stops.
Proof. unfold stop_objects. rewrite map_map. reflexivity. Qed.

Lemma bus_objects_ids (buses : list bus_dict) :
  map Bus.id (bus_objects buses) = map bd_id buses.
Proof. unfold bus_objects. rewrite map_map. reflexivity. Qed.

Lemma stop_objects_length (stops : list stop_dict) :
  length (stop_objects stops) = length stops.
Proof. unfold stop_objects. apply length_map. Qed.

Lemma In_concat_repeat {A} (l : list A) (n : nat) (x : A) :
  In x (concat (repeat l n)) -> In x l.
Proof.
  induction n as [|n IH]; simpl; [contradiction|].
  intro H. apply in_app_or in H. tauto.
Qed.

(** The loop over a list raises what its first failing element raises. *)
Lemma rmap_raises {A B} (f : A -> result B) (e : exn) (l : list A) :
  (forall x, In x l -> (exists y, f x = Ok y) \/ f x = Raise e) ->
  (exists x, In x l /\ f x = Raise e) ->
  rmap f l = Raise e.
Proof.
  induction l as [|x l IH]; intros Hall (x0 & Hin & Hx0); [contradiction|].
  simpl. destruct (Hall x (or_introl eq_refl)) as [(y & Hy)|Hy].
  - rewrite Hy. simpl. rewrite IH; [reflexivity | |].
    + intros z Hz. apply Hall. now right.
    + destruct Hin as [->|Hin]; [congruence|]. eauto.
  - now rewrite Hy.
Qed.

(** Among vehicles of distinct ids, the lookup by id finds the vehicle
    itself. *)
Lemma find_bus (buses : list Bus.t) (b : Bus.t) :
  NoDup (map Bus.id buses) -> In b buses ->
  find (fun x => Z.eqb (Bus.id x) (Bus.id b)) buses = Some b.
Proof.
  induction buses as [|a buses IH]; intros Hnd Hin; [contradiction|].
  simpl in *. inversion Hnd as [|? ? Hni Hnd']; subst.
  destruct Hin as [->|Hin].
  - now rewrite Z.eqb_refl.
  - destruct (Z.eqb (Bus.id a) (Bus.id b)) eqn:E; [|auto].
    apply Z.eqb_eq in E. exfalso. apply Hni. rewrite E. now apply in_map.
Qed.

End RequestFacts.

Section DegenerateSearch.
Import Py Loops GeneticAlgorithmOptimizer Invariant.

Variable np : numpy.

(** With fewer than three stops the first draw of a route size,
    [random.randint(3, len(stop_ids))], raises. *)
Lemma initialize_few_stops (self : t) (stops : list Stop.t) (bus : Bus.t)
    (buses : list Bus.t) (g : random_state) :
  1 <= population_size self ->
  length stops < 3 ->
  _initialize_population self stops (bus :: buses) g = Raise ValueError.
Proof.
  intros Hps Hlen. unfold _initialize_population.
  destruct (population_size self) as [|n]; [lia|].
  cbn [seq mfold]. unfold bind at 1. unfold bind at 1. unfold bind at 1.
  unfold bind at 1. unfold randint.
  assert (E : (length (map Stop.id stops) <? 3) = true)
    by (apply Nat.ltb_lt; now rewrite length_map).
  rewrite E. reflexivity.
Qed.

(** X19 -- With one or two stops (as with none) and at least one
    vehicle, the genetic optimizer returns no result: the first route
    size drawn, [random.randint(3, len(stop_ids))], raises
    [ValueError]. *)
Theorem optimize_few_stops (self : t) (stops : list stop_dict)
    (buses : list bus_dict) (constraints : dict) (g : random_state) :
  1 <= population_size self ->
  length stops < 3 ->
  buses <> [] ->
  optimize np self stops buses constraints g = Raise ValueError.
Proof.
  intros Hps Hlen Hbuses. destruct buses as [|bus buses]; [contradiction|].
  unfold optimize, evolve. cbv zeta. unfold bind at 1. unfold bind at 1.
  simpl bus_objects.
  rewrite initialize_few_stops; auto. now rewrite stop_objects_length.
Qed.

(** X20 -- An optimizer configured with zero generations returns no
    result on a request of at least three stops: the population is
    initialised, no best route is ever tracked, and
    [_calculate_route_metrics(None, ...)] raises [AttributeError]. *)
Theorem optimize_no_generations (self : t) (stops : list stop_dict)
    (buses : list bus_dict) (constraints : dict) (g : random_state) :
  generations self = 0 ->
  3 <= length stops ->
  optimize np self stops buses constraints g = Raise AttributeError.
Proof.
  intros Hgen Hlen. unfold optimize, evolve. cbv zeta. rewrite Hgen.
  destruct (@initialize_population_run self (stop_objects stops)
              (bus_objects buses) ltac:(now rewrite stop_objects_length) g)
    as (p & g' & Hrun & _).
  unfold bind at 1. unfold bind at 1. rewrite Hrun. reflexivity.
Qed.

End DegenerateSearch.

Section ZeroCapacity.
Import Py Loops GeneticAlgorithmOptimizer Invariant.

Variable np : numpy.
Hypothesis np_ok : numpy_ok np.

(** The fitness of a route whose stops and vehicle are found: defined
    unless the vehicle has capacity 0. *)
Lemma fitness_outcome (self : t) (route : Route.t) (stops : list Stop.t)
    (buses : list Bus.t) (bus : Bus.t) :
  incl (Route.stops route) (map Stop.id stops) ->
  find (fun b => Z.eqb (Bus.id b) (Route.bus_id route)) buses = Some bus ->
  (Bus.capacity bus <> 0%Z ->
   exists f, _calculate_fitness np self route stops buses = Ok f)
  /\ (Bus.capacity bus = 0%Z ->
      _calculate_fitness np self route stops buses = Raise ZeroDivisionError).
Proof.
  intros Hstops Hbus.
  destruct (@locations_found stops (Route.stops route)) as (locs & Hlocs).
  { apply Forall_forall. exact Hstops. }
  destruct (@total_distance_path_length np np_ok route stops locs Hlocs)
    as (d & Hd & _ & Hd0).
  split.
  - intro Hcap.
    rewrite (@fitness_of_distance np self route stops buses bus d Hd Hd0 Hbus Hcap).
    eauto.
  - intro Hcap. unfold _calculate_fitness. rewrite Hd. cbn [rbind].
    unfold bus_by_id, next_match. rewrite Hbus. cbn [rbind].
    rewrite Hcap. reflexivity.
Qed.

(** X21 -- A vehicle of capacity 0 among the first [population_size]
    vehicles (of distinct ids) makes the genetic optimizer raise
    [ZeroDivisionError]: the initial population holds a route on that
    vehicle, and the first generation divides the students served by its
    capacity. *)
Theorem optimize_zero_capacity (self : t) (stops : list stop_dict)
    (buses : list bus_dict) (b : bus_dict) (constraints : dict)
    (g : random_state) :
  1 <= population_size self ->
  1 <= generations self ->
  3 <= length stops ->
  NoDup (map bd_id buses) ->
  In b (firstn (population_size self) buses) ->
  bd_capacity b = 0%Z ->
  optimize np self stops buses constraints g = Raise ZeroDivisionError.
Proof.
  intros Hps Hgen Hlen Hnd Hb Hcap.
  set (ss := stop_objects stops). set (bs := bus_objects buses).
  destruct (@initialize_population_run self ss bs
              ltac:(unfold ss; now rewrite stop_objects_length) g)
    as (p & g' & Hrun & Hbus & Hok).
  set (p0 := firstn (population_size self) p) in *.
  assert (Hids : NoDup (map Bus.id bs))
    by (unfold bs; now rewrite bus_objects_ids).
  assert (Hall : forall r, In r p0 ->
             (exists y, (f <-! _calculate_fitness np self r ss bs ;;
                         Ok (Route.set_fitness r f)) = Ok y)
             \/ (f <-! _calculate_fitness np self r ss bs ;;
                 Ok (Route.set_fitness r f)) = Raise ZeroDivisionError).
  { intros r Hr. apply In_firstn in Hr.
    assert (Hrb : In (Route.bus_id r) (map Bus.id bs)).
    { apply (@In_concat_repeat _ _ (population_size self)).
      rewrite <- Hbus. now apply in_map. }
    apply in_map_iff in Hrb. destruct Hrb as (bus & Hid & Hin).
    pose proof (@find_bus _ _ Hids Hin) as Hfind. rewrite Hid in Hfind.
    rewrite Forall_forall in Hok. destruct (Hok r Hr) as (_ & rest & Hperm).
    destruct (@fitness_outcome self r ss bs bus) as [Hyes Hno]; auto.
    { eapply sample_incl; eauto. }
    destruct (Z.eq_dec (Bus.capacity bus) 0) as [Hz|Hz].
    - right. now rewrite (Hno Hz).
    - left. destruct (Hyes Hz) as (f & ->). simpl. eauto. }
  assert (Hone : exists r, In r p0
             /\ (f <-! _calculate_fitness np self r ss bs ;;
                 Ok (Route.set_fitness r f)) = Raise ZeroDivisionError).
  { apply In_nth_error in Hb. destruct Hb as (i & Hi).
    rewrite nth_error_firstn in Hi.
    destruct (i <? population_size self) eqn:E; [|discriminate].
    apply Nat.ltb_lt in E.
    assert (Hlt : i < length buses) by (apply nth_error_Some; congruence).
    assert (Hm : nth_error (map Route.bus_id p) i = Some (bd_id b)).
    { rewrite Hbus. unfold bs. rewrite bus_objects_ids.
      rewrite concat_repeat_nth by (rewrite length_map; nia).
      rewrite length_map, Nat.mod_small by lia.
      now apply map_nth_error. }
    rewrite nth_error_map in Hm.
    destruct (nth_error p i) as [r|] eqn:Er; [|discriminate].
    simpl in Hm. inversion Hm as [Hid].
    exists r. split.
    { unfold p0. apply (nth_error_In _ i). rewrite nth_error_firstn.
      apply Nat.ltb_lt in E. now rewrite E. }
    assert (Hin : In (Bus.new (bd_id b) (bd_capacity b)) bs).
    { unfold bs, bus_objects.
      apply (in_map (fun b => Bus.new (bd_id b) (bd_capacity b))).
      eapply nth_error_In; eauto. }
    pose proof (@find_bus _ _ Hids Hin) as Hfind. simpl in Hfind.
    rewrite <- Hid in Hfind.
    rewrite Forall_forall in Hok.
    destruct (Hok r (nth_error_In _ _ Er)) as (_ & rest & Hperm).
    destruct (@fitness_outcome self r ss bs _ (@sample_incl _ _ _ _ Hperm) Hfind)
      as [_ Hno].
    rewrite (Hno Hcap). reflexivity. }
  pose proof (@rmap_raises _ _ _ _ _ Hall Hone) as Hraise.
  unfold optimize, evolve. cbv zeta. fold ss bs.
  destruct (generations self) as [|k]; [lia|].
  unfold bind at 1. unfold bind at 1. rewrite Hrun.
  cbn [run_generations]. unfold bind at 1.
  unfold generation. cbn [population]. unfold bind at 1. unfold lift at 1.
  fold p0. rewrite Hraise. reflexivity.
Qed.

End ZeroCapacity.

(** ** Crossover and selection *)

Section Crossover.
Import Py Loops GeneticAlgorithmOptimizer.

Lemma slice_length_le {A} (l : list A) (a b : nat) :
  length (slice l a b) <= length l.
Proof.
  unfold slice. rewrite length_skipn, length_firstn. lia.
Qed.

Lemma fill_length (donor : list Z) :
  forall (child : list Z) (limit : nat),
    length child <= limit -> length (fill child donor limit) <= limit.
Proof.
  unfold fill. induction donor as [|stop donor IH]; intros child limit H;
    simpl; auto.
  apply IH.
  destruct (negb (existsb (Z.eqb stop) child)); simpl; auto.
  destruct (length child <? limit) eqn:E; auto.
  apply Nat.ltb_lt in E. rewrite length_app. simpl. lia.
Qed.

(** With room for every stop of the donor, the fill loop appends the
    stops the child lacks, in the donor's order. *)
Lemma fill_all (donor : list Z) :
  NoDup donor ->
  forall (child : list Z) (limit : nat),
    length child
    + length (filter (fun x => negb (existsb (Z.eqb x) child)) donor) <= limit ->
    fill child donor limit
    = child ++ filter (fun x => negb (existsb (Z.eqb x) child)) donor.
Proof.
  unfold fill. induction donor as [|stop donor IH]; intros Hnd child limit H.
  - simpl. now rewrite app_nil_r.
  - inversion Hnd as [|? ? Hni Hnd']; subst. cbn [fold_left filter] in *.
    destruct (existsb (Z.eqb stop) child) eqn:E; cbn [negb andb] in *.
    + now apply IH.
    + cbn [length] in H.
      assert (El : (length child <? limit) = true) by (apply Nat.ltb_lt; lia).
      rewrite El.
      assert (Hf : filter (fun x => negb (existsb (Z.eqb x) (child ++ [stop]))) donor
                   = filter (fun x => negb (existsb (Z.eqb x) child)) donor).
      { apply filter_ext_in. intros x Hx. rewrite existsb_app. simpl.
        destruct (Z.eqb x stop) eqn:Ex.
        - apply Z.eqb_eq in Ex. subst. contradiction.
        - now rewrite !orb_false_r. }
      rewrite IH; auto.
      * rewrite Hf, <- app_assoc. reflexivity.
      * rewrite Hf, length_app. simpl. lia.
Qed.

(** Filling a part of the donor's stops up to the donor's length gives
    all of the donor's stops. *)
Lemma fill_covers (donor child : list Z) (limit : nat) :
  NoDup donor -> NoDup child -> incl child donor -> length donor <= limit ->
  Permutation (fill child donor limit) donor.
Proof.
  intros Hd Hc Hincl Hlimit.
  set (rest := filter (fun x => negb (existsb (Z.eqb x) child)) donor).
  assert (Hnd : NoDup (child ++ rest)).
  { apply NoDup_app; auto.
    - now apply NoDup_filter.
    - intros a Ha Hr. apply filter_In in Hr. destruct Hr as [_ Hr].
      apply negb_true_iff in Hr. apply existsb_Zeqb_false in Hr.
      contradiction. }
  assert (Hin : incl (child ++ rest) donor).
  { apply incl_app; auto. intros x Hx. now apply filter_In in Hx. }
  rewrite fill_all; auto.
  - apply NoDup_Permutation; auto. intro x. split; [apply Hin|].
    intro Hx. apply in_or_app.
    destruct (existsb (Z.eqb x) child) eqn:E.
    + left. apply existsb_exists in E. destruct E as (y & Hy & Hxy).
      apply Z.eqb_eq in Hxy. now subst.
    + right. apply filter_In. split; auto. now rewrite E.
  - fold rest. rewrite <- length_app.
    pose proof (NoDup_incl_length Hnd Hin). lia.
Qed.

(** X15 -- [_crossover] returns for every generator state two children
    on their parents' vehicles, each with at most as many stops as its
    parent and with stops of the two parents only.  When the parents are
    two orders of the same stops, none repeated, each child is again an
    order of exactly those stops. *)
Theorem crossover_children (parent1 parent2 : Route.t) (g : random_state) :
  exists child1 child2 g',
    _crossover parent1 parent2 g = Ok ((child1, child2), g')
    /\ Route.bus_id child1 = Route.bus_id parent1
    /\ Route.bus_id child2 = Route.bus_id parent2
    /\ length (Route.stops child1) <= length (Route.stops parent1)
    /\ length (Route.stops child2) <= length (Route.stops parent2)
    /\ incl (Route.stops child1) (Route.stops parent1 ++ Route.stops parent2)
    /\ incl (Route.stops child2) (Route.stops parent1 ++ Route.stops parent2)
    /\ (NoDup (Route.stops parent1) ->
        NoDup (Route.stops parent2) ->
        Permutation (Route.stops parent1) (Route.stops parent2) ->
        Permutation (Route.stops child1) (Route.stops parent1)
        /\ Permutation (Route.stops child2) (Route.stops parent2)).
Proof.
  destruct (crossover_returns parent1 parent2 g)
    as (child1 & child2 & g' & Hrun & Hb1 & Hb2 & Hshape).
  exists child1, child2, g'. split; [exact Hrun|].
  split; [exact Hb1|]. split; [exact Hb2|].
  destruct Hshape as [[-> ->] | (start & end_ & -> & ->)].
  - repeat split; auto using incl_appl, incl_appr, incl_refl.
  - split; [apply fill_length, slice_length_le|].
    split; [apply fill_length, slice_length_le|].
    split; [|split].
    + apply fill_incl; [apply incl_appr, incl_refl|].
      eapply incl_tran; [apply slice_incl | apply incl_appl, incl_refl].
    + apply fill_incl; [apply incl_appl, incl_refl|].
      eapply incl_tran; [apply slice_incl | apply incl_appr, incl_refl].
    + intros H1 H2 Hp.
      pose proof (Permutation_length Hp) as Hlen. split.
      * transitivity (Route.stops parent2); [|now apply Permutation_sym].
        apply fill_covers; auto; [now apply slice_NoDup | | lia].
        eapply incl_tran; [apply slice_incl|].
        intros x Hx. eapply Permutation_in; eauto.
      * transitivity (Route.stops parent1); [|exact Hp].
        apply fill_covers; auto; [now apply slice_NoDup | | lia].
        eapply incl_tran; [apply slice_incl|].
        intros x Hx. eapply Permutation_in; [apply Permutation_sym|]; eauto.
Qed.

(** The scan of [max] ends on a route at least as fit as the one it
    started from and as every route scanned. *)
Lemma max_by_fitness_max (l : list Route.t) :
  forall x : Route.t,
    let winner :=
      fold_left
        (fun best y =>
           if Qltb (Route.fitness best) (Route.fitness y) then y else best)
        l x in
    (Route.fitness x <= Route.fitness winner)%Q
    /\ Forall (fun y => (Route.fitness y <= Route.fitness winner)%Q) l.
Proof.
  induction l as [|y l IH]; intro x; simpl.
  - split; [apply Qle_refl | constructor].
  - destruct (Qltb (Route.fitness x) (Route.fitness y)) eqn:E.
    + destruct (IH y) as [Hy Hl]. apply Qltb_lt in E.
      split; [|constructor; auto].
      eapply Qle_trans; [apply Qlt_le_weak, E | exact Hy].
    + destruct (IH x) as [Hx Hl]. apply Qltb_ge in E.
      split; [exact Hx|]. constructor; auto.
      eapply Qle_trans; eauto.
Qed.

(** X16 -- [_tournament_selection] raises [ValueError] when the
    tournament size is 0 or exceeds the population; otherwise it returns
    a route of the sampled tournament (routes at distinct positions of
    the population) that is at least as fit as every route of the
    tournament. *)
Theorem tournament_selection_winner (population : list Route.t)
    (tournament_size : nat) (g : random_state) :
  (tournament_size = 0 \/ length population < tournament_size ->
   _tournament_selection population tournament_size g = Raise ValueError)
  /\ (1 <= tournament_size <= length population ->
      exists tournament rest winner g',
        sample population tournament_size g = Ok (tournament, g')
        /\ _tournament_selection population tournament_size g
           = Ok (winner, g')
        /\ length tournament = tournament_size
        /\ Permutation (tournament ++ rest) population
        /\ In winner tournament
        /\ Forall (fun r => (Route.fitness r <= Route.fitness winner)%Q)
                  tournament).
Proof.
  split.
  - intros [->|Hlt]; unfold _tournament_selection.
    + unfold bind, sample. simpl.
      destruct (length population <? 0); reflexivity.
    + unfold bind, sample.
      apply Nat.ltb_lt in Hlt. now rewrite Hlt.
  - intros [H1 Hk].
    destruct (@sample_ok _ population tournament_size g Hk)
      as (l & rest & g' & Hs & Hl & Hperm).
    exists l, rest. unfold _tournament_selection.
    destruct l as [|x l]; [simpl in Hl; lia|].
    eexists _, g'. split; [exact Hs|]. step_with Hs.
    split; [reflexivity|]. split; [exact Hl|]. split; [exact Hperm|].
    split; [apply max_by_fitness_In|].
    destruct (max_by_fitness_max l x) as [Hx Hrest]. constructor; auto.
Qed.

End Crossover.

(** ** The order fitness puts on routes *)

Section FitnessOrder.
Import Py Loops GeneticAlgorithmOptimizer.

Variable np : numpy.
Hypothesis np_ok : numpy_ok np.

Lemma rfold_keeps {A B} (f : A -> B -> result A) (P : A -> Prop) (l : list B) :
  (forall a x a', P a -> f a x = Ok a' -> P a') ->
  forall a a', P a -> rfold f l a = Ok a' -> P a'.
Proof.
  intro Hf. induction l as [|x l IH]; intros a a' Ha H; simpl in H.
  - now inversion H; subst.
  - destruct (f a x) as [a1|] eqn:E; [|discriminate]. simpl in H.
    eapply IH; [|exact H]. eapply Hf; eauto.
Qed.

(** A distance that is computed is not negative. *)
Lemma total_distance_nonneg (route : Route.t) (stops : list Stop.t) (d : Q) :
  _calculate_total_distance np route stops = Ok d -> (0 <= d)%Q.
Proof.
  unfold _calculate_total_distance.
  destruct (length (Route.stops route) <? 2).
  - intro H. inversion H; subst. apply Qle_refl.
  - apply (@rfold_keeps _ _ _ (fun d => (0 <= d)%Q)); [|apply Qle_refl].
    intros a i a' Ha H. unfold leg in H.
    destruct (getitem (Route.stops route) i) as [id1|]; [|discriminate].
    simpl in H.
    destruct (stop_by_id stops id1) as [s1|]; [|discriminate]. simpl in H.
    destruct (getitem (Route.stops route) (i + 1)) as [id2|]; [|discriminate].
    simpl in H.
    destruct (stop_by_id stops id2) as [s2|]; [|discriminate]. simpl in H.
    inversion H; subst.
    pose proof (@haversine_nonneg np np_ok (Stop.location s1) (Stop.location s2)).
    lra.
Qed.

(** The students served depend on the stops visited, not on their
    order. *)
Lemma students_on_same_stops (route1 route2 : Route.t) (stops : list Stop.t) :
  (forall stop_id, In stop_id (Route.stops route1)
                   <-> In stop_id (Route.stops route2)) ->
  students_on route1 stops = students_on route2 stops.
Proof.
  intro H. unfold students_on. f_equal. f_equal.
  apply filter_ext. intro s.
  destruct (existsb (Z.eqb (Stop.id s)) (Route.stops route1)) eqn:E1;
    destruct (existsb (Z.eqb (Stop.id s)) (Route.stops route2)) eqn:E2; auto.
  - apply existsb_exists in E1. destruct E1 as (x & Hx & Heq).
    apply Z.eqb_eq in Heq. subst x. apply H in Hx.
    apply existsb_Zeqb_false in E2. contradiction.
  - apply existsb_exists in E2. destruct E2 as (x & Hx & Heq).
    apply Z.eqb_eq in Heq. subst x. apply H in Hx.
    apply existsb_Zeqb_false in E1. contradiction.
Qed.

(** A score [1 / (1 + x)] does not rise as [x] grows. *)
Lemma score_falls (x y : Q) :
  (0 <= x)%Q -> (x <= y)%Q -> (1 / (1 + y) <= 1 / (1 + x))%Q.
Proof.
  intros Hx Hxy. unfold Qdiv. rewrite !Qmult_1_l.
  destruct (Qlt_le_dec x y) as [Hlt|Hge].
  - apply Qlt_le_weak. apply -> Qinv_lt_contravar; lra.
  - assert (He : (x == y)%Q) by lra. rewrite He. apply Qle_refl.
Qed.

(** X17 -- Between two routes on the same vehicle that visit the same
    stops, [_calculate_fitness] never gives the lower fitness to the one
    of smaller total distance: the capacity term is the same and neither
    the distance score nor the time score rises as the distance grows.
    The order is not strict: two distances close enough can get the same
    fitness once the scores are rounded. *)
Theorem fitness_prefers_shorter (population_size generations : nat)
    (mutation_rate crossover_rate : Q) (route1 route2 : Route.t)
    (stops : list Stop.t) (buses : list Bus.t) (bus : Bus.t) (d1 d2 : Q) :
  let self := __init__ population_size generations mutation_rate crossover_rate in
  Route.bus_id route1 = Route.bus_id route2 ->
  (forall stop_id, In stop_id (Route.stops route1)
                   <-> In stop_id (Route.stops route2)) ->
  find (fun b => Z.eqb (Bus.id b) (Route.bus_id route1)) buses = Some bus ->
  Bus.capacity bus <> 0%Z ->
  _calculate_total_distance np route1 stops = Ok d1 ->
  _calculate_total_distance np route2 stops = Ok d2 ->
  (d1 <= d2)%Q ->
  exists f1 f2,
    _calculate_fitness np self route1 stops buses = Ok f1
    /\ _calculate_fitness np self route2 stops buses = Ok f2
    /\ (f2 <= f1)%Q.
Proof.
  intros self Hbus Hstops Hfind Hcap H1 H2 Hlt.
  pose proof (total_distance_nonneg _ _ H1) as Hd1.
  pose proof (total_distance_nonneg _ _ H2) as Hd2.
  pose proof Hfind as Hfind2. rewrite Hbus in Hfind2.
  rewrite (@fitness_of_distance np self route1 stops buses bus d1 H1 Hd1 Hfind Hcap).
  rewrite (@fitness_of_distance np self route2 stops buses bus d2 H2 Hd2 Hfind2 Hcap).
  rewrite (students_on_same_stops _ _ stops Hstops).
  eexists _, _. split; [reflexivity|]. split; [reflexivity|].
  simpl distance_weight. simpl time_weight. simpl capacity_weight.
  set (c := (_ * min _ 1)%Q).
  assert (Ha : (d1 / 100 <= d2 / 100)%Q).
  { rewrite !hundredth. lra. }
  assert (Ha0 : (0 <= d1 / 100)%Q) by (rewrite hundredth; lra).
  assert (Hb : (d1 / 30 * 60 / 60 <= d2 / 30 * 60 / 60)%Q).
  { unfold Qdiv. setoid_replace (/ 30)%Q with (1 # 30)%Q by reflexivity.
    setoid_replace (/ 60)%Q with (1 # 60)%Q by reflexivity. lra. }
  assert (Hb0 : (0 <= d1 / 30 * 60 / 60)%Q).
  { unfold Qdiv. setoid_replace (/ 30)%Q with (1 # 30)%Q by reflexivity.
    setoid_replace (/ 60)%Q with (1 # 60)%Q by reflexivity. lra. }
  pose proof (score_falls Ha0 Ha) as Hs1.
  pose proof (score_falls Hb0 Hb) as Hs2.
  lra.
Qed.

End FitnessOrder.

(** ** The failures of the fitness *)

Section FitnessErrors.
Import Py Loops GeneticAlgorithmOptimizer Invariant.

Variable np : numpy.

Lemma stop_by_id_unknown (stops : list Stop.t) (stop_id : Z) :
  ~ In stop_id (map Stop.id stops) ->
  stop_by_id stops stop_id = Raise StopIteration.
Proof.
  intro H. unfold stop_by_id, next_match.
  destruct (find _ stops) as [s|] eqn:E; [|reflexivity].
  apply find_some in E. destruct E as [Hin Heq]. apply Z.eqb_eq in Heq.
  exfalso. apply H. rewrite <- Heq. now apply in_map.
Qed.

Lemma stop_by_id_outcome (stops : list Stop.t) (stop_id : Z) :
  (exists s, stop_by_id stops stop_id = Ok s)
  \/ stop_by_id stops stop_id = Raise StopIteration.
Proof.
  unfold stop_by_id, next_match. destruct (find _ stops); eauto.
Qed.

(** A loop whose passes return or raise [e], one of them raising [e]
    whatever the accumulator, raises [e]. *)
Lemma rfold_raises {A B} (f : A -> B -> result A) (e : exn) (l : list B) :
  (forall a x, In x l -> (exists a', f a x = Ok a') \/ f a x = Raise e) ->
  (exists x, In x l /\ forall a, f a x = Raise e) ->
  forall a, rfold f l a = Raise e.
Proof.
  induction l as [|x l IH]; intros Hall (x0 & Hin & Hx0) a; [contradiction|].
  simpl. destruct (Hall a x (or_introl eq_refl)) as [(a' & Ha)|Ha].
  - rewrite Ha. simpl. apply IH.
    + intros a0 z Hz. apply Hall. now right.
    + destruct Hin as [->|Hin]; [rewrite Hx0 in Ha; discriminate|]. eauto.
  - now rewrite Ha.
Qed.

(** Each leg of a route returns or fails on the lookup of a stop. *)
Lemma leg_outcome (route_stops : list Z) (stops : list Stop.t) (d : Q) (i : nat) :
  i < length route_stops - 1 ->
  (exists d', leg np route_stops stops d i = Ok d')
  \/ leg np route_stops stops d i = Raise StopIteration.
Proof.
  intro Hi. unfold leg.
  destruct (@getitem_lt _ route_stops i) as (id1 & _ & ->); [lia|]. cbn [rbind].
  destruct (stop_by_id_outcome stops id1) as [(s1 & ->)| ->]; [|now right].
  cbn [rbind].
  destruct (@getitem_lt _ route_stops (i + 1)) as (id2 & _ & ->); [lia|].
  cbn [rbind].
  destruct (stop_by_id_outcome stops id2) as [(s2 & ->)| ->]; [|now right].
  cbn [rbind]. eauto.
Qed.

(** The distance of a route of at least two stops, one of them unknown,
    fails on the lookup of a stop. *)
Lemma total_distance_unknown_stop (route : Route.t) (stops : list Stop.t)
    (stop_id : Z) :
  2 <= length (Route.stops route) ->
  In stop_id (Route.stops route) ->
  ~ In stop_id (map Stop.id stops) ->
  _calculate_total_distance np route stops = Raise StopIteration.
Proof.
  intros Hlen Hin Hunknown. unfold _calculate_total_distance.
  destruct (length (Route.stops route) <? 2) eqn:E;
    [apply Nat.ltb_lt in E; lia|].
  apply rfold_raises.
  - intros a i Hi. apply in_seq in Hi. apply leg_outcome. lia.
  - apply In_nth_error in Hin. destruct Hin as (j & Hj).
    assert (Hjlt : j < length (Route.stops route))
      by (apply nth_error_Some; congruence).
    destruct (Nat.lt_ge_cases j (length (Route.stops route) - 1)) as [Hlt|Hge].
    + exists j. split; [apply in_seq; lia|]. intro a. unfold leg.
      rewrite (@getitem_Some _ _ _ _ Hj). cbn [rbind].
      now rewrite (@stop_by_id_unknown _ _ Hunknown).
    + exists (j - 1). split; [apply in_seq; lia|]. intro a. unfold leg.
      destruct (@getitem_lt _ (Route.stops route) (j - 1)) as (id1 & _ & ->);
        [lia|].
      cbn [rbind].
      destruct (stop_by_id_outcome stops id1) as [(s1 & ->)| ->];
        [|reflexivity].
      cbn [rbind]. replace (j - 1 + 1) with j by lia.
      rewrite (@getitem_Some _ _ _ _ Hj). cbn [rbind].
      now rewrite (@stop_by_id_unknown _ _ Hunknown).
Qed.

(** The distance of a route whose stops are all known is defined. *)
Lemma total_distance_defined (route : Route.t) (stops : list Stop.t) :
  incl (Route.stops route) (map Stop.id stops) ->
  exists d, _calculate_total_distance np route stops = Ok d.
Proof.
  intro Hincl. unfold _calculate_total_distance.
  destruct (length (Route.stops route) <? 2); [eauto|].
  apply rfold_total. intros a i Hi. apply in_seq in Hi. unfold leg.
  destruct (@getitem_lt _ (Route.stops route) i) as (id1 & Hn1 & ->); [lia|].
  cbn [rbind].
  destruct (@stop_by_id_found stops id1) as (s1 & -> & _).
  { apply Hincl. eapply nth_error_In; eauto. }
  cbn [rbind].
  destruct (@getitem_lt _ (Route.stops route) (i + 1)) as (id2 & Hn2 & ->);
    [lia|].
  cbn [rbind].
  destruct (@stop_by_id_found stops id2) as (s2 & -> & _).
  { apply Hincl. eapply nth_error_In; eauto. }
  cbn [rbind]. eauto.
Qed.

(** X23 -- The failures of [_calculate_fitness]: a route of at least two
    stops that names a stop the stop list lacks raises [StopIteration]
    (the distance of a route of fewer than two stops is 0 without any
    lookup); a route of known stops on a vehicle the vehicle list lacks
    raises [StopIteration]; and a route of known stops on a vehicle of
    capacity 0 raises [ZeroDivisionError]. *)
Theorem calculate_fitness_errors (self : t) (route : Route.t)
    (stops : list Stop.t) (buses : list Bus.t) :
  (length (Route.stops route) < 2 ->
   _calculate_total_distance np route stops = Ok 0%Q)
  /\ (2 <= length (Route.stops route) ->
      (exists stop_id, In stop_id (Route.stops route)
                       /\ ~ In stop_id (map Stop.id stops)) ->
      _calculate_fitness np self route stops buses = Raise StopIteration)
  /\ (incl (Route.stops route) (map Stop.id stops) ->
      ~ In (Route.bus_id route) (map Bus.id buses) ->
      _calculate_fitness np self route stops buses = Raise StopIteration)
  /\ (incl (Route.stops route) (map Stop.id stops) ->
      forall bus,
        find (fun b => Z.eqb (Bus.id b) (Route.bus_id route)) buses = Some bus ->
        Bus.capacity bus = 0%Z ->
        _calculate_fitness np self route stops buses = Raise ZeroDivisionError).
Proof.
  split; [|split; [|split]].
  - intro Hlen. unfold _calculate_total_distance.
    apply Nat.ltb_lt in Hlen. now rewrite Hlen.
  - intros Hlen (stop_id & Hin & Hunknown). unfold _calculate_fitness.
    now rewrite (@total_distance_unknown_stop _ _ _ Hlen Hin Hunknown).
  - intros Hincl Hbus. unfold _calculate_fitness.
    destruct (@total_distance_defined _ _ Hincl) as (d & ->). cbn [rbind].
    unfold bus_by_id, next_match.
    destruct (find _ buses) as [bus|] eqn:E; [|reflexivity].
    apply find_some in E. destruct E as [Hin Heq]. apply Z.eqb_eq in Heq.
    exfalso. apply Hbus. rewrite <- Heq. now apply in_map.
  - intros Hincl bus Hfind Hcap. unfold _calculate_fitness.
    destruct (@total_distance_defined _ _ Hincl) as (d & ->). cbn [rbind].
    unfold bus_by_id, next_match. rewrite Hfind. cbn [rbind].
    rewrite Hcap. reflexivity.
Qed.

End FitnessErrors.

(** ** The result of the genetic optimizer *)

Section OptimizeResult.
Import Py Loops GeneticAlgorithmOptimizer Invariant.

Variable np : numpy.
Hypothesis np_ok : numpy_ok np.

Lemma rmap_fields {A B C} (f : A -> result B) (p : B -> C) (q : A -> C)
    (l : list A) :
  (forall x y, f x = Ok y -> p y = q x) ->
  forall ys, rmap f l = Ok ys -> map p ys = map q l.
Proof.
  intro Hf. induction l as [|x l IH]; intros ys H; simpl in H.
  - now inversion H.
  - destruct (f x) as [y|] eqn:E; [|discriminate]. simpl in H.
    destruct (rmap f l) as [ys'|]; [|discriminate]. simpl in H.
    inversion H; subst. simpl. f_equal; auto.
Qed.

Lemma enumerate_fst {A} (l : list A) :
  map fst (enumerate l) = seq 0 (length l).
Proof.
  unfold enumerate. generalize 0.
  induction l as [|x l IH]; intro n; simpl; auto. now rewrite IH.
Qed.

Lemma enumerate_snd {A} (l : list A) : map snd (enumerate l) = l.
Proof.
  unfold enumerate. generalize 0.
  induction l as [|x l IH]; intro n; simpl; auto. now rewrite IH.
Qed.

(** The stops of a formatted route are the stops of the route, in
    order, numbered from 0. *)
Lemma format_routes_stops (stops : list Stop.t) (r : Route.t)
    (formatted : list value) (rest : dict) :
  _format_routes [r] stops
  = Ok [ VDict (("bus_id"%string, VInt (Route.bus_id r))
                :: ("stops"%string, VList formatted) :: rest) ] ->
  map (Reference.field "id") formatted
  = map (fun stop_id => Some (VInt stop_id)) (Route.stops r)
  /\ map (Reference.field "sequence") formatted
     = map (fun idx => Some (VInt (Z.of_nat idx)))
           (seq 0 (length (Route.stops r))).
Proof.
  unfold _format_routes. cbn [rmap].
  match goal with
  | |- context [rmap ?f (enumerate _)] =>
      destruct (rmap f (enumerate (Route.stops r))) as [ys|] eqn:E
  end; [|discriminate].
  cbn [rbind]. intro H. inversion H; subst. split.
  - rewrite <- (enumerate_snd (Route.stops r)) at 1. rewrite map_map.
    revert E. apply rmap_fields. intros [idx stop_id] y Hy.
    destruct (stop_by_id stops stop_id); [|discriminate].
    simpl in Hy. inversion Hy; subst. reflexivity.
  - rewrite <- (enumerate_fst (Route.stops r)). rewrite map_map.
    revert E. apply rmap_fields. intros [idx stop_id] y Hy.
    destruct (stop_by_id stops stop_id); [|discriminate].
    simpl in Hy. inversion Hy; subst. reflexivity.
Qed.

(** X18 -- The result of the genetic optimizer describes one route of
    the request.  On a request with at least three stops and at least one
    vehicle, none of capacity 0, an optimizer of at least one route and
    one generation returns, whatever the generator state, one route on a
    vehicle of the request whose stops are stops of the request (none
    repeated when the stop ids are distinct); the formatted stops are the
    stops of that route in order, numbered from 0; [stops_count] is their
    number; [fitness_score] is [final_fitness] rounded to four decimals;
    and the metrics are those of that route's distance, with the fuel
    computed at the default 8 km per litre. *)
Theorem optimize_result (self : t) (stops : list stop_dict)
    (buses : list bus_dict) (constraints : dict) (g : random_state) :
  1 <= population_size self ->
  1 <= generations self ->
  3 <= length stops ->
  buses <> [] ->
  Forall (fun b => bd_capacity b <> 0%Z) buses ->
  exists route bus d formatted g',
    optimize np self stops buses constraints g
    = Ok ([ ("routes"%string,
              VList [ VDict [ ("bus_id"%string, VInt (Route.bus_id route));
                              ("stops"%string, VList formatted);
                              ("fitness_score"%string,
                                VFloat (Fin (round (Route.fitness route) 4))) ] ]);
            ("metrics"%string,
              VDict [ ("total_distance_km"%string, VFloat (Fin (round d 2)));
                      ("estimated_time_minutes"%string,
                        VFloat (Fin (round (d / 30 * 60)%Q 2)));
                      ("fuel_consumption_liters"%string,
                        VFloat (Fin (round (d / 8)%Q 2)));
                      ("students_served"%string,
                        VInt (students_on route (stop_objects stops)));
                      ("capacity_utilization"%string,
                        VFloat (Fin (round
                                       (inject_Z (students_on route (stop_objects stops))
                                        / inject_Z (bd_capacity bus) * 100)%Q 2)));
                      ("stops_count"%string,
                        VInt (Z.of_nat (length (Route.stops route)))) ]);
            ("generations"%string, VInt (Z.of_nat (generations self)));
            ("final_fitness"%string, VFloat (Fin (Route.fitness route))) ], g')
    /\ In bus buses
    /\ Route.bus_id route = bd_id bus
    /\ incl (Route.stops route) (map sd_id stops)
    /\ (NoDup (map sd_id stops) -> NoDup (Route.stops route))
    /\ _calculate_total_distance np route (stop_objects stops) = Ok d
    /\ (0 <= d)%Q
    /\ map (Reference.field "id") formatted
       = map (fun stop_id => Some (VInt stop_id)) (Route.stops route)
    /\ map (Reference.field "sequence") formatted
       = map (fun idx => Some (VInt (Z.of_nat idx)))
             (seq 0 (length (Route.stops route))).
Proof.
  intros Hps Hgen Hstops Hbuses Hcap.
  pose proof (@request_objects_ok self stops buses Hps Hstops Hbuses Hcap)
    as Hreq.
  destruct (@evolve_returns np np_ok self _ _ Hreq (generations self) g)
    as (st & g' & Hrun & _ & Hbest).
  destruct (Hbest Hgen) as (r & Hsol & Hr & Hfit).
  destruct (@total_distance_returns np np_ok _ _ r Hr) as (d & Hd & Hd0).
  destruct (@bus_of_route self _ _ Hreq r Hr) as (bus & Hbus & Hc & Hfuel).
  pose proof (@route_metrics_value np r _ _ bus d Hd Hbus Hfuel Hc) as Hm.
  destruct (@format_routes_returns _ (bus_objects buses) r Hr)
    as (formatted & Hf & _).
  pose proof (find_some _ _ Hbus) as [Hin Hid].
  apply Z.eqb_eq in Hid.
  unfold bus_objects in Hin. apply in_map_iff in Hin.
  destruct Hin as (b & Hb & Hinb). subst bus. simpl in Hid, Hm.
  exists r, b, d, formatted, g'.
  split.
  { unfold optimize. cbv zeta. step_with Hrun. rewrite Hsol, Hfit.
    step_pure Hm. step_pure Hf. reflexivity. }
  split; [exact Hinb|]. split; [now symmetry|].
  destruct Hr as [_ Hincl]. rewrite stop_objects_ids in Hincl.
  split; [exact Hincl|].
  split.
  { intro Hnd. rewrite <- stop_objects_ids in Hnd.
    unfold evolve, bind in Hrun.
    destruct (_initialize_population self (stop_objects stops)
                (bus_objects buses) g) as [[p g0]|] eqn:Ei; [|discriminate].
    destruct (@run_generations_no_repeat np self _ _ _ _ _ _ _ Hrun) as [_ Hb].
    - eapply initialize_no_repeat; eauto.
    - discriminate.
    - now apply Hb. }
  split; [exact Hd|]. split; [exact Hd0|].
  eapply format_routes_stops. exact Hf.
Qed.

End OptimizeResult.

Section SearchExamples.
Import Py Loops GeneticAlgorithmOptimizer Reference Invariant.

Lemma initialize_population_shape_witness :
  let self := __init__ 5 2 (1 # 10) (8 # 10) in
  let stops := stop_objects Reference.square in
  let buses := bus_objects [ mkBusDict 1 50; mkBusDict 2 30 ] in
  let g := mkRandom (fun n => (N.of_nat n * 2654435761 + 40503)%N) 0 in
  exists p g',
    _initialize_population self stops buses g = Ok (p, g')
    /\ length p = population_size self
    /\ (forall i r,
           nth_error p i = Some r ->
           exists bus,
             nth_error buses (i mod length buses) = Some bus
             /\ Route.bus_id r = Bus.id bus)
    /\ Forall (fun r =>
                 3 <= length (Route.stops r) <= length stops
                 /\ incl (Route.stops r) (map Stop.id stops)
                 /\ (NoDup (map Stop.id stops) -> NoDup (Route.stops r)))
              p.
Proof.
  intros self stops buses g.
  apply (@initialize_population_shape self stops buses).
  - cbn. lia.
  - discriminate.
Defined.

Lemma search_no_repeated_stop_witness :
  let self := __init__ 4 2 (1 # 10) (8 # 10) in
  let stops := stop_objects Reference.square in
  let buses := bus_objects [ mkBusDict 1 50 ] in
  let g := mkRandom (fun n => (N.of_nat n * 2654435761 + 40503)%N) 0 in
  exists st g',
    evolve NumpyApprox.np self stops buses 2 g = Ok (st, g')
    /\ Forall (fun r => NoDup (Route.stops r)) (population st)
    /\ (forall r, best_solution st = Some r -> NoDup (Route.stops r)).
Proof.
  intros self stops buses g. eexists _, _.
  split; [vm_compute; reflexivity|].
  eapply (@search_no_repeated_stop NumpyApprox.np self stops buses 2 g).
  - cbn. repeat constructor; cbn; intuition discriminate.
  - vm_compute. reflexivity.
Defined.

Lemma generation_keeps_fittest_witness :
  let self := __init__ 3 1 (1 # 10) (8 # 10) in
  let stops := stop_objects Reference.square in
  let buses := bus_objects [ mkBusDict 1 50 ] in
  let st := mkSearch [ Route.new 1 [1; 4; 2; 3]%Z; Route.new 1 [1; 2; 4; 3]%Z;
                       Route.new 1 [3; 1; 2]%Z ] None NegInf in
  let g := mkRandom (fun n => (N.of_nat n * 2654435761 + 40503)%N) 0 in
  exists st' g',
    generation NumpyApprox.np self stops buses st g = Ok (st', g')
    /\ exists evaluated first,
         rmap (fun route =>
                 f <-! _calculate_fitness NumpyApprox.np self route stops buses ;;
                 Ok (Route.set_fitness route f))
              (population st) = Ok evaluated
         /\ In first evaluated
         /\ Forall (fun r => (Route.fitness r <= Route.fitness first)%Q) evaluated
         /\ hd_error (population st') = Some first
         /\ xle (Fin (Route.fitness first)) (best_fitness st').
Proof.
  intros self stops buses st g. eexists _, _.
  split; [vm_compute; reflexivity|].
  eapply (@generation_keeps_fittest NumpyApprox.np self stops buses st _ g).
  - cbn. lia.
  - vm_compute. reflexivity.
Defined.

Lemma fitness_prefers_shorter_witness :
  let self := __init__ 50 100 (1 # 10) (8 # 10) in
  let stops := stop_objects Reference.square in
  let buses := bus_objects [ mkBusDict 1 50 ] in
  let route1 := Route.new 1 [1; 2; 4; 3]%Z in
  let route2 := Route.new 1 [1; 4; 2; 3]%Z in
  exists d1 d2,
    _calculate_total_distance NumpyApprox.np route1 stops = Ok d1
    /\ _calculate_total_distance NumpyApprox.np route2 stops = Ok d2
    /\ (d1 <= d2)%Q
    /\ exists f1 f2,
         _calculate_fitness NumpyApprox.np self route1 stops buses = Ok f1
         /\ _calculate_fitness NumpyApprox.np self route2 stops buses = Ok f2
         /\ (f2 <= f1)%Q.
Proof.
  intros self stops buses route1 route2. eexists _, _.
  split; [vm_compute; reflexivity|].
  split; [vm_compute; reflexivity|].
  split; [vm_compute; discriminate|].
  eapply (@fitness_prefers_shorter NumpyApprox.np approx_ok 50 100 (1 # 10)
            (8 # 10) route1 route2 stops buses (Bus.new 1 50)).
  - reflexivity.
  - cbn. intuition.
  - reflexivity.
  - discriminate.
  - vm_compute. reflexivity.
  - vm_compute. reflexivity.
  - vm_compute. discriminate.
Defined.

Lemma optimize_result_witness :
  let self := default in
  let stops := Reference.square in
  let buses := [ mkBusDict 1 50 ] in
  let g := mkRandom (fun n => (N.of_nat n * 2654435761 + 40503)%N) 0 in
  exists route bus d formatted g',
    optimize NumpyApprox.np self stops buses [] g
    = Ok ([ ("routes"%string,
              VList [ VDict [ ("bus_id"%string, VInt (Route.bus_id route));
                              ("stops"%string, VList formatted);
                              ("fitness_score"%string,
                                VFloat (Fin (round (Route.fitness route) 4))) ] ]);
            ("metrics"%string,
              VDict [ ("total_distance_km"%string, VFloat (Fin (round d 2)));
                      ("estimated_time_minutes"%string,
                        VFloat (Fin (round (d / 30 * 60)%Q 2)));
                      ("fuel_consumption_liters"%string,
                        VFloat (Fin (round (d / 8)%Q 2)));
                      ("students_served"%string,
                        VInt (students_on route (stop_objects stops)));
                      ("capacity_utilization"%string,
                        VFloat (Fin (round
                                       (inject_Z (students_on route (stop_objects stops))
                                        / inject_Z (bd_capacity bus) * 100)%Q 2)));
                      ("stops_count"%string,
                        VInt (Z.of_nat (length (Route.stops route)))) ]);
            ("generations"%string, VInt (Z.of_nat (generations self)));
            ("final_fitness"%string, VFloat (Fin (Route.fitness route))) ], g')
    /\ In bus buses
    /\ Route.bus_id route = bd_id bus
    /\ incl (Route.stops route) (map sd_id stops)
    /\ (NoDup (map sd_id stops) -> NoDup (Route.stops route))
    /\ _calculate_total_distance NumpyApprox.np route (stop_objects stops) = Ok d
    /\ (0 <= d)%Q
    /\ map (field "id") formatted
       = map (fun stop_id => Some (VInt stop_id)) (Route.stops route)
    /\ map (field "sequence") formatted
       = map (fun idx => Some (VInt (Z.of_nat idx)))
             (seq 0 (length (Route.stops route))).
Proof.
  intros self stops buses g.
  apply (@optimize_result NumpyApprox.np approx_ok self stops buses [] g).
  - cbn. lia.
  - cbn. lia.
  - cbn. lia.
  - discriminate.
  - repeat constructor. discriminate.
Defined.

Lemma optimize_few_stops_witness :
  optimize NumpyApprox.np default
           [ mkStopDict 1 0 0 (Some 5%Z); mkStopDict 2 0 (9 # 1000) (Some 5%Z) ]
           [ mkBusDict 1 50 ] [] (mkRandom (fun n => N.of_nat n) 0)
  = Raise ValueError.
Proof.
  apply optimize_few_stops.
  - cbn. lia.
  - cbn. lia.
  - discriminate.
Defined.

Lemma optimize_no_generations_witness :
  optimize NumpyApprox.np (__init__ 50 0 (1 # 10) (8 # 10)) Reference.square
           [ mkBusDict 1 50 ] [] (mkRandom (fun n => N.of_nat n) 0)
  = Raise AttributeError.
Proof.
  apply optimize_no_generations.
  - reflexivity.
  - cbn. lia.
Defined.

Lemma optimize_zero_capacity_witness :
  optimize NumpyApprox.np default Reference.square
           [ mkBusDict 1 50; mkBusDict 2 0 ] []
           (mkRandom (fun n => N.of_nat n) 0)
  = Raise ZeroDivisionError.
Proof.
  apply (@optimize_zero_capacity NumpyApprox.np approx_ok default
           Reference.square [ mkBusDict 1 50; mkBusDict 2 0 ] (mkBusDict 2 0)).
  - cbn. lia.
  - cbn. lia.
  - cbn. lia.
  - repeat constructor; cbn; intuition discriminate.
  - cbn. auto.
  - reflexivity.
Defined.

End SearchExamples.

(** ** Failures of the hybrid optimizer *)

Section HybridFailures.
Import Py RouteOptimizer.

(** X22 -- The hybrid optimizer fails where its genetic phase fails,
    whatever the learning optimizer would return: [RouteOptimizer()]
    raises [IndexError] on an empty vehicle list and [ValueError] on a
    request of fewer than three stops with a vehicle, for any number of
    stops and before the learning optimizer is consulted. *)
Theorem hybrid_degenerate {X : Type} (np : numpy)
    (rl : optimizer (random_state * X)) (stops : list stop_dict)
    (buses : list bus_dict) (constraints : dict) (w : random_state * X) :
  (buses = [] ->
   optimize (__init__ np rl) stops buses constraints w = Raise IndexError)
  /\ (buses <> [] -> length stops < 3 ->
      optimize (__init__ np rl) stops buses constraints w = Raise ValueError).
Proof.
  split.
  - intros ->. unfold optimize, __init__, bind, with_random. cbn [ga_optimizer].
    unfold GeneticAlgorithmOptimizer.optimize, GeneticAlgorithmOptimizer.evolve.
    unfold bind. simpl GeneticAlgorithmOptimizer.bus_objects.
    rewrite initialize_no_buses. reflexivity.
  - intros Hb Hlen. destruct buses as [|bus buses']; [contradiction|].
    unfold optimize, __init__, bind, with_random. cbn [ga_optimizer].
    unfold GeneticAlgorithmOptimizer.optimize, GeneticAlgorithmOptimizer.evolve.
    unfold bind. simpl GeneticAlgorithmOptimizer.bus_objects.
    rewrite initialize_few_stops; [reflexivity | simpl; lia |].
    now rewrite stop_objects_length.
Qed.

End HybridFailures.
